(** * DevCam: the two scripts that add a unit-test target to project.pbxproj

    A shallow embedding of [add_test_target.py] and
    [add_test_target_complete.py].

    - Text is a list of characters ([str]); a character is an 8-bit
      [ascii].
    - The file system is a finite map from paths to files.  A file is given
      by the characters that its bytes decode to, as they are stored, or is
      marked as one whose bytes do not decode.  Reading in text mode turns
      each carriage return, with the newline that follows it if there is
      one, into a newline; writing stores the characters as they are, as on
      the system of the paths that the scripts name; copying takes the file
      as it is stored.
    - [re.search] is modelled by a small backtracking matcher for the
      constructs the scripts use (literals, [.*?] under [re.DOTALL], [\s*],
      [[A-F0-9]{24}], concatenation and capturing groups).
    - [uuid.uuid4()] reads sixteen bytes of operating-system randomness; the
      sequence of those draws is a parameter of the run. *)

From Stdlib Require Import ZArith NArith Ascii String List Bool Lia.
From stdpp Require Import base list strings gmap.

Local Open Scope bool_scope.
Local Open Scope list_scope.

(** ** Text *)

Definition str := list ascii.

(** A Python string literal. *)
Definition lit (s : string) : str := list_ascii_of_string s.

Definition tab : ascii := "009"%char.
Definition nl : ascii := "010"%char.
Definition cr : ascii := "013"%char.
Definition dq : ascii := "034"%char.

(** [s.startswith(p)] *)
Fixpoint startswith (p s : str) : bool :=
  match p, s with
  | [], _ => true
  | _ :: _, [] => false
  | a :: p', b :: s' => if Ascii.eqb a b then startswith p' s' else false
  end.

(** [p in s] *)
Fixpoint contains (p s : str) : bool :=
  startswith p s ||
  match s with
  | [] => false
  | _ :: s' => contains p s'
  end.

(** [s.find(p)], counted from offset [i]; [-1] when [p] does not occur. *)
Fixpoint find_from (p s : str) (i : Z) : Z :=
  if startswith p s then i
  else match s with
       | [] => (-1)%Z
       | _ :: s' => find_from p s' (i + 1)%Z
       end.

Definition find (p s : str) : Z := find_from p s 0%Z.

(** [s.replace(old, new)]: every occurrence of [old], scanning from the
    left and resuming after each replaced occurrence.  [skip] counts the
    characters of the occurrence that is being stepped over. *)
Fixpoint replace_go (old new : str) (skip : nat) (s : str) : str :=
  match s with
  | [] => []
  | c :: s' =>
      match skip with
      | S k => replace_go old new k s'
      | O =>
          if startswith old s
          then new ++ replace_go old new (length old - 1) s'
          else c :: replace_go old new 0 s'
      end
  end.

Definition replace (old new s : str) : str :=
  match old with
  | [] => new ++ flat_map (fun c => c :: new) s
  | _ :: _ => replace_go old new 0 s
  end.

(** Number of positions of [s] at which [p] starts. *)
Fixpoint count (p s : str) : nat :=
  (if startswith p s then 1 else 0) +
  match s with
  | [] => 0
  | _ :: s' => count p s'
  end.

(** ** Regular expressions *)

(** Character classes of the patterns: [.] under [re.DOTALL], [\s] and
    [[A-F0-9]]. *)
Inductive cls := CDot | CSpace | CHex.

Definition is_space (a : ascii) : bool :=
  let n := nat_of_ascii a in
  ((9 <=? n) && (n <=? 13)) || ((28 <=? n) && (n <=? 32))
  || (n =? 133) || (n =? 160).

Definition is_uphex (a : ascii) : bool :=
  let n := nat_of_ascii a in
  ((48 <=? n) && (n <=? 57)) || ((65 <=? n) && (n <=? 70)).

Definition in_cls (c : cls) (a : ascii) : bool :=
  match c with
  | CDot => true
  | CSpace => is_space a
  | CHex => is_uphex a
  end.

Inductive regex :=
| Lit (l : str)                  (* literal text *)
| Star (lazy : bool) (c : cls)   (* c*? when lazy, c* otherwise *)
| Rep (n : nat) (c : cls)        (* c{n} *)
| Cat (r1 r2 : regex)
| Grp (r : regex).               (* ( r ) *)

Section Exec.
Context {R : Type}.

(** A continuation receives the text just matched, the input that is
    left, and the groups captured inside, in order of their opening
    parenthesis. *)
Definition kont := str -> str -> list str -> option R.

Definition shift (a : ascii) (k : kont) : kont :=
  fun m rest g => k (a :: m) rest g.

(** [c*?]: the shortest repetition first. *)
Fixpoint star_lazy (c : cls) (s : str) (k : kont) : option R :=
  match k [] s [] with
  | Some r => Some r
  | None =>
      match s with
      | a :: s' => if in_cls c a then star_lazy c s' (shift a k) else None
      | [] => None
      end
  end.

(** [c*]: the longest repetition first. *)
Fixpoint star_greedy (c : cls) (s : str) (k : kont) : option R :=
  match s with
  | a :: s' =>
      if in_cls c a
      then match star_greedy c s' (shift a k) with
           | Some r => Some r
           | None => k [] s []
           end
      else k [] s []
  | [] => k [] s []
  end.

Fixpoint rep (n : nat) (c : cls) (s : str) (k : kont) : option R :=
  match n with
  | O => k [] s []
  | S n' =>
      match s with
      | a :: s' => if in_cls c a then rep n' c s' (shift a k) else None
      | [] => None
      end
  end.

Fixpoint exec (r : regex) (s : str) (k : kont) : option R :=
  match r with
  | Lit l => if startswith l s then k l (drop (length l) s) [] else None
  | Star true c => star_lazy c s k
  | Star false c => star_greedy c s k
  | Rep n c => rep n c s k
  | Cat r1 r2 =>
      exec r1 s (fun m1 s1 g1 =>
      exec r2 s1 (fun m2 s2 g2 => k (m1 ++ m2) s2 (g1 ++ g2)))
  | Grp r1 => exec r1 s (fun m s1 g => k m s1 (m :: g))
  end.
End Exec.

(** A match object: [group(0)] and the numbered groups. *)
Record rmatch := { group0 : str; groups : list str }.

Definition group (m : rmatch) (n : nat) : str :=
  match n with
  | O => group0 m
  | S i => nth i (groups m) []
  end.

Definition accept : @kont rmatch :=
  fun m _ g => Some {| group0 := m; groups := g |}.

(** A match anchored at the start of [s] ([re.match]). *)
Definition match_here (r : regex) (s : str) : option rmatch := exec r s accept.

(** [re.search(r, s)]: the match at the leftmost position that has one. *)
Fixpoint search (r : regex) (s : str) : option rmatch :=
  match match_here r s with
  | Some m => Some m
  | None =>
      match s with
      | [] => None
      | _ :: s' => search r s'
      end
  end.

(** ** Keys *)

(** [uuid.uuid4()]: sixteen random bytes read as a 128-bit integer, with the
    variant bits set to RFC 4122 and the version nibble set to 4. *)
Definition uuid4 (random_bytes : N) : N :=
  let i := (random_bytes mod 2 ^ 128)%N in
  let i := N.ldiff i (N.shiftl 0xc000 48) in
  let i := N.lor i (N.shiftl 0x8000 48) in
  let i := N.ldiff i (N.shiftl 0xf000 64) in
  N.lor i (N.shiftl 4 76).

Definition hex_digit (d : N) : ascii :=
  nth (N.to_nat d) (lit "0123456789abcdef") "0"%char.

(** ['%0nx' % v] for [v] below [16 ^ n]. *)
Fixpoint hex_fixed (n : nat) (v : N) : str :=
  match n with
  | O => []
  | S k => hex_fixed k (v / 16)%N ++ [hex_digit (v mod 16)%N]
  end.

(** [UUID.hex] *)
Definition uuid_hex (u : N) : str := hex_fixed 32 u.

(** [str(UUID)]: the 8-4-4-4-12 form. *)
Definition uuid_str (u : N) : str :=
  let h := uuid_hex u in
  take 8 h ++ lit "-" ++ take 4 (drop 8 h) ++ lit "-" ++
  take 4 (drop 12 h) ++ lit "-" ++ take 4 (drop 16 h) ++ lit "-" ++ drop 20 h.

(** [str.upper] on the letters a-z (it is only applied to hexadecimal
    text here). *)
Definition upper_char (a : ascii) : ascii :=
  let n := nat_of_ascii a in
  if (97 <=? n) && (n <=? 122) then ascii_of_nat (n - 32) else a.

Definition upper (s : str) : str := map upper_char s.

(** ** Processes *)

Inductive exn := FileNotFoundError | UnicodeDecodeError.

(** How a statement ends: normally, by [exit(code)], or by an exception. *)
Inductive outcome (A : Type) :=
| Ret (a : A)
| Exit (code : Z)
| Raise (e : exn).
Arguments Ret {A} a.
Arguments Exit {A} code.
Arguments Raise {A} e.

(** What a path holds: bytes that decode to the characters [chars], or
    bytes that do not decode. *)
Inductive file :=
| Text (chars : str)
| Binary (bytes : list Byte.byte).

Record world := {
  files : gmap string file;   (* the file system *)
  stdout : list string;       (* the lines printed so far *)
  draws : nat                 (* calls made to the random source *)
}.

Definition script (A : Type) := world -> outcome A * world.

Global Instance script_ret : MRet script := fun A a w => (Ret a, w).

Global Instance script_bind : MBind script := fun A B f m w =>
  match m w with
  | (Ret a, w') => f a w'
  | (Exit c, w') => (Exit c, w')
  | (Raise e, w') => (Raise e, w')
  end.

(** The newlines of a file opened with [open(path, 'r')]: a carriage
    return followed by a newline, and a carriage return alone, are each read
    as one newline. *)
Fixpoint universal_newlines (s : str) : str :=
  match s with
  | [] => []
  | c :: s' =>
      if Ascii.eqb c cr
      then nl :: match s' with
                 | c' :: s'' =>
                     if Ascii.eqb c' nl then universal_newlines s''
                     else universal_newlines s'
                 | [] => []
                 end
      else c :: universal_newlines s'
  end.

(** [with open(path, 'r') as f: f.read()] *)
Definition read_file (path : string) : script str :=
  fun w =>
    match files w !! path with
    | Some (Text chars) => (Ret (universal_newlines chars), w)
    | Some (Binary _) => (Raise UnicodeDecodeError, w)
    | None => (Raise FileNotFoundError, w)
    end.

(** [with open(path, 'w') as f: f.write(content)]: the characters are
    stored as they are. *)
Definition write_file (path : string) (content : str) : script unit :=
  fun w =>
    (Ret tt, {| files := <[path := Text content]> (files w);
                stdout := stdout w; draws := draws w |}).

(** [shutil.copy(src, dst)]: the file is copied as it is stored, whatever
    it holds. *)
Definition copy_file (src dst : string) : script unit :=
  fun w =>
    match files w !! src with
    | Some f =>
        (Ret tt, {| files := <[dst := f]> (files w);
                    stdout := stdout w; draws := draws w |})
    | None => (Raise FileNotFoundError, w)
    end.

Definition print (line : string) : script unit :=
  fun w =>
    (Ret tt, {| files := files w; stdout := stdout w ++ [line];
                draws := draws w |}).

Definition exit {A} (code : Z) : script A := fun w => (Exit code, w).

(** The exit status of the interpreter. *)
Definition exit_code {A} (o : outcome A) : Z :=
  match o with
  | Ret _ => 0
  | Exit c => c
  | Raise _ => 1
  end.

(** One call of [uuid.uuid4()].  [urandom16 k] is the sixteen bytes returned
    by the [k]-th read of the random source, as a big-endian integer. *)
Definition uuid4_call (urandom16 : nat -> N) : script N :=
  fun w =>
    (Ret (uuid4 (urandom16 (draws w))),
     {| files := files w; stdout := stdout w; draws := S (draws w) |}).

Notation "r1 ∙ r2" := (Cat r1 r2) (at level 41, right associativity).

(** ** add_test_target.py *)

Module AddTestTarget.
Section Run.
Variable urandom16 : nat -> N.

Definition project_dir : string := "/Users/dev/Downloads/test/DevCam".
Definition project_path : string := project_dir +:+ "/DevCam.xcodeproj".
Definition pbxproj_path : string := project_path +:+ "/project.pbxproj".

Definition generate_uuid : script str :=
  u ← uuid4_call urandom16;
  mret (take 24 (replace (lit "-") (lit "") (upper (uuid_str u)))).

(** [([A-F0-9]{24}) /\* DevCam \*/] *)
Definition target_re : regex :=
  Grp (Rep 24 CHex) ∙ Lit (lit " /* DevCam */").

Definition main : script unit :=
  content ← read_file pbxproj_path;
  (if contains (lit "DevCamTests") content
   then print "Test target already exists";; exit 0
   else mret tt);;
  print "Adding test target to Xcode project...";;
  copy_file pbxproj_path (pbxproj_path +:+ ".backup");;
  match search target_re content with
  | None => print "Could not find main target";; exit 1
  | Some target_match =>
      let main_target_uuid := group target_match 1 in
      test_target_uuid ← generate_uuid;
      test_product_uuid ← generate_uuid;
      test_source_buildphase_uuid ← generate_uuid;
      test_frameworks_buildphase_uuid ← generate_uuid;
      test_resources_buildphase_uuid ← generate_uuid;
      test_fileref_uuid ← generate_uuid;
      test_buildfile_uuid ← generate_uuid;
      let insert_pos := find (main_target_uuid ++ lit " /* DevCam */,") content in
      (if (insert_pos =? -1)%Z
       then print "Could not find insertion point";; exit 1
       else mret tt);;
      print "Manual configuration required. Please use Xcode GUI to add test target."
  end.
End Run.
End AddTestTarget.

(** ** add_test_target_complete.py *)

(** A line of a template: [n] tabs, the text, a newline. *)
Definition ln (n : nat) (body : str) : str := repeat tab n ++ body ++ [nl].

Module AddTestTargetComplete.

Definition project_path : string :=
  "/Users/dev/Downloads/test/DevCam/DevCam.xcodeproj/project.pbxproj".

(** The eleven generated identifiers. *)
Record keys := {
  test_target_uuid : str;
  test_product_uuid : str;
  test_sources_uuid : str;
  test_frameworks_uuid : str;
  test_resources_uuid : str;
  test_buildconfig_list_uuid : str;
  test_debug_config_uuid : str;
  test_release_config_uuid : str;
  test_dependency_uuid : str;
  test_target_dependency_uuid : str;
  test_group_uuid : str
}.

Definition begin_section (name : string) : str :=
  lit "/* Begin " ++ lit name ++ lit " section */".
Definition end_section (name : string) : str :=
  lit "/* End " ++ lit name ++ lit " section */".

(** *** The three shapes of edit *)

(** [if re.search(anchor, content): content = content.replace(marker,
    entry + marker)] *)
Definition insert_entry (anchor : regex) (marker entry content : str) : str :=
  match search anchor content with
  | Some _ => replace marker (entry ++ marker) content
  | None => content
  end.

(** [m = re.search(anchor, content)]; [if m: content =
    content.replace(m.group(0), m.group(1) + (m.group(2) + item) +
    m.group(3))] *)
Definition append_to_list (anchor : regex) (item content : str) : str :=
  match search anchor content with
  | Some m =>
      let existing := group m 2 in
      let new_items := existing ++ item in
      replace (group m 0) (group m 1 ++ new_items ++ group m 3) content
  | None => content
  end.

(** [if begin not in content: content = content.replace(before, block +
    before)] *)
Definition create_section (begin block before content : str) : str :=
  if negb (contains begin content)
  then replace before (block ++ before) content
  else content.

(** *** 1. Test product in the PBXFileReference section *)

Definition file_ref_re : regex :=
  Lit (begin_section "PBXFileReference" ++ [nl]) ∙ Grp (Star true CDot) ∙
  Lit (nl :: end_section "PBXFileReference").

Definition new_file_ref (k : keys) : str :=
  ln 2 (test_product_uuid k ++
        lit " /* DevCamTests.xctest */ = {isa = PBXFileReference; explicitFileType = wrapper.cfbundle; includeInIndex = 0; path = DevCamTests.xctest; sourceTree = BUILT_PRODUCTS_DIR; };").

Definition step1 (k : keys) : str -> str :=
  insert_entry file_ref_re (end_section "PBXFileReference") (new_file_ref k).

(** *** 2. Test group in the PBXFileSystemSynchronizedRootGroup section *)

Definition new_group (k : keys) : str :=
  ln 2 (test_group_uuid k ++ lit " /* DevCamTests */ = {") ++
  ln 3 (lit "isa = PBXFileSystemSynchronizedRootGroup;") ++
  ln 3 (lit "path = DevCamTests;") ++
  ln 3 (lit "sourceTree = " ++ [dq] ++ lit "<group>" ++ [dq] ++ lit ";") ++
  ln 2 (lit "};").

Definition step2 (k : keys) : str -> str :=
  insert_entry (Lit (end_section "PBXFileSystemSynchronizedRootGroup"))
    (end_section "PBXFileSystemSynchronizedRootGroup") (new_group k).

(** *** 3. Frameworks build phase *)

Definition build_phase (key : str) (name isa : string) : str :=
  ln 2 (key ++ lit " /* " ++ lit name ++ lit " */ = {") ++
  ln 3 (lit "isa = " ++ lit isa ++ lit ";") ++
  ln 3 (lit "buildActionMask = 2147483647;") ++
  ln 3 (lit "files = (") ++
  ln 3 (lit ");") ++
  ln 3 (lit "runOnlyForDeploymentPostprocessing = 0;") ++
  ln 2 (lit "};").

Definition new_frameworks (k : keys) : str :=
  build_phase (test_frameworks_uuid k) "Frameworks" "PBXFrameworksBuildPhase".

Definition step3 (k : keys) : str -> str :=
  insert_entry (Lit (end_section "PBXFrameworksBuildPhase"))
    (end_section "PBXFrameworksBuildPhase") (new_frameworks k).

(** *** 4. Test product in the Products group *)

(** A list anchor: (opening text, then anything up to the list's opening
    parenthesis and the white space after it)(the items)(white space and
    the closing parenthesis with its semicolon). *)
Definition list_re (opening list_open list_close : string) : regex :=
  Grp (Lit (lit opening) ∙ Star true CDot ∙ Lit (lit list_open) ∙
       Star false CSpace) ∙
  Grp (Star true CDot) ∙
  Grp (Star false CSpace ∙ Lit (lit list_close)).

Definition products_re : regex :=
  list_re "D76E4B1F2F2331380090999D /* Products */ = {" "children = (" ");".

Definition step4 (k : keys) : str -> str :=
  append_to_list products_re
    (ln 4 (test_product_uuid k ++ lit " /* DevCamTests.xctest */,")).

(** *** 5. Test group in the main group *)

Definition main_group_re : regex :=
  list_re "D76E4B152F2331380090999D = {" "children = (" ");".

Definition step5 (k : keys) : str -> str :=
  append_to_list main_group_re
    (ln 4 (test_group_uuid k ++ lit " /* DevCamTests */,")).

(** *** 6. Test target in the PBXNativeTarget section *)

Definition new_target (k : keys) : str :=
  ln 2 (test_target_uuid k ++ lit " /* DevCamTests */ = {") ++
  ln 3 (lit "isa = PBXNativeTarget;") ++
  ln 3 (lit "buildConfigurationList = " ++ test_buildconfig_list_uuid k ++
        lit " /* Build configuration list for PBXNativeTarget " ++ [dq] ++
        lit "DevCamTests" ++ [dq] ++ lit " */;") ++
  ln 3 (lit "buildPhases = (") ++
  ln 4 (test_sources_uuid k ++ lit " /* Sources */,") ++
  ln 4 (test_frameworks_uuid k ++ lit " /* Frameworks */,") ++
  ln 4 (test_resources_uuid k ++ lit " /* Resources */,") ++
  ln 3 (lit ");") ++
  ln 3 (lit "buildRules = (") ++
  ln 3 (lit ");") ++
  ln 3 (lit "dependencies = (") ++
  ln 4 (test_dependency_uuid k ++ lit " /* PBXTargetDependency */,") ++
  ln 3 (lit ");") ++
  ln 3 (lit "fileSystemSynchronizedGroups = (") ++
  ln 4 (test_group_uuid k ++ lit " /* DevCamTests */,") ++
  ln 3 (lit ");") ++
  ln 3 (lit "name = DevCamTests;") ++
  ln 3 (lit "packageProductDependencies = (") ++
  ln 3 (lit ");") ++
  ln 3 (lit "productName = DevCamTests;") ++
  ln 3 (lit "productReference = " ++ test_product_uuid k ++
        lit " /* DevCamTests.xctest */;") ++
  ln 3 (lit "productType = " ++ [dq] ++
        lit "com.apple.product-type.bundle.unit-test" ++ [dq] ++ lit ";") ++
  ln 2 (lit "};").

Definition step6 (k : keys) : str -> str :=
  insert_entry (Lit (end_section "PBXNativeTarget"))
    (end_section "PBXNativeTarget") (new_target k).

(** *** 7. PBXContainerItemProxy section, if it does not exist *)

Definition container_proxy (k : keys) : str :=
  ln 0 (begin_section "PBXContainerItemProxy") ++
  ln 2 (test_target_dependency_uuid k ++ lit " /* PBXContainerItemProxy */ = {") ++
  ln 3 (lit "isa = PBXContainerItemProxy;") ++
  ln 3 (lit "containerPortal = D76E4B162F2331380090999D /* Project object */;") ++
  ln 3 (lit "proxyType = 1;") ++
  ln 3 (lit "remoteGlobalIDString = D76E4B1D2F2331380090999D;") ++
  ln 3 (lit "remoteInfo = DevCam;") ++
  ln 2 (lit "};") ++
  ln 0 (end_section "PBXContainerItemProxy") ++
  [nl].

Definition step7 (k : keys) : str -> str :=
  create_section (begin_section "PBXContainerItemProxy") (container_proxy k)
    (begin_section "PBXFileReference").

(** *** 8. PBXTargetDependency section, if it does not exist *)

Definition target_dependency (k : keys) : str :=
  ln 0 (begin_section "PBXTargetDependency") ++
  ln 2 (test_dependency_uuid k ++ lit " /* PBXTargetDependency */ = {") ++
  ln 3 (lit "isa = PBXTargetDependency;") ++
  ln 3 (lit "target = D76E4B1D2F2331380090999D /* DevCam */;") ++
  ln 3 (lit "targetProxy = " ++ test_target_dependency_uuid k ++
        lit " /* PBXContainerItemProxy */;") ++
  ln 2 (lit "};") ++
  ln 0 (end_section "PBXTargetDependency") ++
  [nl].

Definition step8 (k : keys) : str -> str :=
  create_section (begin_section "PBXTargetDependency") (target_dependency k)
    (begin_section "PBXFrameworksBuildPhase").

(** *** 9. Test target in the project's list of targets *)

Definition targets_re : regex :=
  Grp (Lit (lit "targets = (") ∙ Star false CSpace) ∙
  Grp (Star true CDot) ∙
  Grp (Star false CSpace ∙ Lit (lit ");")).

Definition step9 (k : keys) : str -> str :=
  append_to_list targets_re
    (ln 4 (test_target_uuid k ++ lit " /* DevCamTests */,")).

(** *** 10. Test target attributes *)

Definition target_attrs_re : regex :=
  Grp (Lit (lit "TargetAttributes = {")) ∙
  Grp (Star true CDot) ∙
  Grp (Star false CSpace ∙ Lit (lit "};")).

Definition new_attrs_item (k : keys) : str :=
  [nl] ++
  ln 5 (test_target_uuid k ++ lit " = {") ++
  ln 6 (lit "CreatedOnToolsVersion = 26.2;") ++
  ln 6 (lit "TestTargetID = D76E4B1D2F2331380090999D;") ++
  repeat tab 5 ++ lit "};".

Definition step10 (k : keys) : str -> str :=
  append_to_list target_attrs_re (new_attrs_item k).

(** *** 11, 12. Resources and Sources build phases *)

Definition new_resources (k : keys) : str :=
  build_phase (test_resources_uuid k) "Resources" "PBXResourcesBuildPhase".

Definition step11 (k : keys) : str -> str :=
  insert_entry (Lit (end_section "PBXResourcesBuildPhase"))
    (end_section "PBXResourcesBuildPhase") (new_resources k).

Definition new_sources (k : keys) : str :=
  build_phase (test_sources_uuid k) "Sources" "PBXSourcesBuildPhase".

Definition step12 (k : keys) : str -> str :=
  insert_entry (Lit (end_section "PBXSourcesBuildPhase"))
    (end_section "PBXSourcesBuildPhase") (new_sources k).

(** *** 13. Build configurations of the test target *)

Definition build_config (key : str) (name : string) : str :=
  ln 2 (key ++ lit " /* " ++ lit name ++ lit " */ = {") ++
  ln 3 (lit "isa = XCBuildConfiguration;") ++
  ln 3 (lit "buildSettings = {") ++
  ln 4 (lit "BUNDLE_LOADER = " ++ [dq] ++ lit "$(TEST_HOST)" ++ [dq] ++ lit ";") ++
  ln 4 (lit "CODE_SIGN_STYLE = Automatic;") ++
  ln 4 (lit "CURRENT_PROJECT_VERSION = 1;") ++
  ln 4 (lit "DEVELOPMENT_TEAM = 93QQU293YD;") ++
  ln 4 (lit "GENERATE_INFOPLIST_FILE = YES;") ++
  ln 4 (lit "MARKETING_VERSION = 1.0;") ++
  ln 4 (lit "PRODUCT_BUNDLE_IDENTIFIER = " ++ [dq] ++
        lit "Jonathan-Hines-Dumitru.DevCamTests" ++ [dq] ++ lit ";") ++
  ln 4 (lit "PRODUCT_NAME = " ++ [dq] ++ lit "$(TARGET_NAME)" ++ [dq] ++ lit ";") ++
  ln 4 (lit "SWIFT_EMIT_LOC_STRINGS = NO;") ++
  ln 4 (lit "SWIFT_VERSION = 5.0;") ++
  ln 4 (lit "TEST_HOST = " ++ [dq] ++
        lit "$(BUILT_PRODUCTS_DIR)/DevCam.app/$(BUNDLE_EXECUTABLE_FOLDER_PATH)/DevCam" ++
        [dq] ++ lit ";") ++
  ln 3 (lit "};") ++
  ln 3 (lit "name = " ++ lit name ++ lit ";") ++
  ln 2 (lit "};").

Definition new_debug_config (k : keys) : str :=
  build_config (test_debug_config_uuid k) "Debug" ++
  build_config (test_release_config_uuid k) "Release".

Definition step13 (k : keys) : str -> str :=
  insert_entry (Lit (end_section "XCBuildConfiguration"))
    (end_section "XCBuildConfiguration") (new_debug_config k).

(** *** 14. Build configuration list of the test target *)

Definition new_config_list (k : keys) : str :=
  ln 2 (test_buildconfig_list_uuid k ++
        lit " /* Build configuration list for PBXNativeTarget " ++ [dq] ++
        lit "DevCamTests" ++ [dq] ++ lit " */ = {") ++
  ln 3 (lit "isa = XCConfigurationList;") ++
  ln 3 (lit "buildConfigurations = (") ++
  ln 4 (test_debug_config_uuid k ++ lit " /* Debug */,") ++
  ln 4 (test_release_config_uuid k ++ lit " /* Release */,") ++
  ln 3 (lit ");") ++
  ln 3 (lit "defaultConfigurationIsVisible = 0;") ++
  ln 3 (lit "defaultConfigurationName = Release;") ++
  ln 2 (lit "};").

Definition step14 (k : keys) : str -> str :=
  insert_entry (Lit (end_section "XCConfigurationList"))
    (end_section "XCConfigurationList") (new_config_list k).

(** *** The edit sequence (lines 32 to 272) *)

Definition steps (k : keys) : list (str -> str) :=
  [step1 k; step2 k; step3 k; step4 k; step5 k; step6 k; step7 k;
   step8 k; step9 k; step10 k; step11 k; step12 k; step13 k; step14 k].

Definition patch (k : keys) (content : str) : str :=
  fold_left (fun c step => step c) (steps k) content.

Section Run.
Variable urandom16 : nat -> N.

Definition generate_uuid : script str :=
  u ← uuid4_call urandom16;
  mret (upper (take 24 (uuid_hex u))).

Definition main : script unit :=
  content ← read_file project_path;
  (if contains (lit "DevCamTests") content
   then print "Test target already exists!";; exit 0
   else mret tt);;
  test_target_uuid ← generate_uuid;
  test_product_uuid ← generate_uuid;
  test_sources_uuid ← generate_uuid;
  test_frameworks_uuid ← generate_uuid;
  test_resources_uuid ← generate_uuid;
  test_buildconfig_list_uuid ← generate_uuid;
  test_debug_config_uuid ← generate_uuid;
  test_release_config_uuid ← generate_uuid;
  test_dependency_uuid ← generate_uuid;
  test_target_dependency_uuid ← generate_uuid;
  test_group_uuid ← generate_uuid;
  let k := {|
    test_target_uuid := test_target_uuid;
    test_product_uuid := test_product_uuid;
    test_sources_uuid := test_sources_uuid;
    test_frameworks_uuid := test_frameworks_uuid;
    test_resources_uuid := test_resources_uuid;
    test_buildconfig_list_uuid := test_buildconfig_list_uuid;
    test_debug_config_uuid := test_debug_config_uuid;
    test_release_config_uuid := test_release_config_uuid;
    test_dependency_uuid := test_dependency_uuid;
    test_target_dependency_uuid := test_target_dependency_uuid;
    test_group_uuid := test_group_uuid |} in
  let content := patch k content in
  write_file project_path content;;
  print "Successfully added DevCamTests target to Xcode project!".
End Run.
End AddTestTargetComplete.

(** ** Notions used in the statements *)

(** The world after printing [lines] and making [n] more calls to the
    random source, with the file system [fs]. *)
Definition after (w : world) (fs : gmap string file) (lines : list string)
    (n : nat) : world :=
  {| files := fs; stdout := stdout w ++ lines; draws := draws w + n |}.

(** The key that the second script's [generate_uuid] makes from one read of
    the random source. *)
Definition key_of (random_bytes : N) : str :=
  upper (take 24 (uuid_hex (uuid4 random_bytes))).

(** The key that the first script's [generate_uuid] makes. *)
Definition key_of_str (random_bytes : N) : str :=
  take 24 (replace (lit "-") (lit "") (upper (uuid_str (uuid4 random_bytes)))).

(** The keys of a run of the second script that starts at draw [n]. *)
Definition run_keys (urandom16 : nat -> N) (n : nat) : AddTestTargetComplete.keys :=
  {| AddTestTargetComplete.test_target_uuid := key_of (urandom16 n);
     AddTestTargetComplete.test_product_uuid := key_of (urandom16 (n + 1));
     AddTestTargetComplete.test_sources_uuid := key_of (urandom16 (n + 2));
     AddTestTargetComplete.test_frameworks_uuid := key_of (urandom16 (n + 3));
     AddTestTargetComplete.test_resources_uuid := key_of (urandom16 (n + 4));
     AddTestTargetComplete.test_buildconfig_list_uuid := key_of (urandom16 (n + 5));
     AddTestTargetComplete.test_debug_config_uuid := key_of (urandom16 (n + 6));
     AddTestTargetComplete.test_release_config_uuid := key_of (urandom16 (n + 7));
     AddTestTargetComplete.test_dependency_uuid := key_of (urandom16 (n + 8));
     AddTestTargetComplete.test_target_dependency_uuid := key_of (urandom16 (n + 9));
     AddTestTargetComplete.test_group_uuid := key_of (urandom16 (n + 10)) |}.

Definition key_list (k : AddTestTargetComplete.keys) : list str :=
  [AddTestTargetComplete.test_target_uuid k;
   AddTestTargetComplete.test_product_uuid k;
   AddTestTargetComplete.test_sources_uuid k;
   AddTestTargetComplete.test_frameworks_uuid k;
   AddTestTargetComplete.test_resources_uuid k;
   AddTestTargetComplete.test_buildconfig_list_uuid k;
   AddTestTargetComplete.test_debug_config_uuid k;
   AddTestTargetComplete.test_release_config_uuid k;
   AddTestTargetComplete.test_dependency_uuid k;
   AddTestTargetComplete.test_target_dependency_uuid k;
   AddTestTargetComplete.test_group_uuid k].

(** The anchor of each of the fourteen steps: the pattern whose match the
    step tests, or, for steps 7 and 8, the text that the step replaces. *)
Definition anchor_missing (i : nat) (content : str) : bool :=
  let miss r := match search r content with Some _ => false | None => true end in
  let section_end name := miss (Lit (AddTestTargetComplete.end_section name)) in
  match i with
  | 1 => miss AddTestTargetComplete.file_ref_re
  | 2 => section_end "PBXFileSystemSynchronizedRootGroup"%string
  | 3 => section_end "PBXFrameworksBuildPhase"%string
  | 4 => miss AddTestTargetComplete.products_re
  | 5 => miss AddTestTargetComplete.main_group_re
  | 6 => section_end "PBXNativeTarget"%string
  | 7 => negb (contains (AddTestTargetComplete.begin_section "PBXFileReference") content)
  | 8 => negb (contains (AddTestTargetComplete.begin_section "PBXFrameworksBuildPhase") content)
  | 9 => miss AddTestTargetComplete.targets_re
  | 10 => miss AddTestTargetComplete.target_attrs_re
  | 11 => section_end "PBXResourcesBuildPhase"%string
  | 12 => section_end "PBXSourcesBuildPhase"%string
  | 13 => section_end "XCBuildConfiguration"%string
  | 14 => section_end "XCConfigurationList"%string
  | _ => true
  end.

Definition no_anchor_matches (content : str) : bool :=
  forallb (fun i => anchor_missing i content) (seq 1 14).

(** The texts a pattern matches, with the groups captured: the declarative
    reading of [regex], against which the matcher [exec] is verified. *)
Inductive matches : regex -> str -> list str -> Prop :=
| matches_lit l : matches (Lit l) l []
| matches_star lazy c m :
    forallb (in_cls c) m = true -> matches (Star lazy c) m []
| matches_rep c m :
    forallb (in_cls c) m = true -> matches (Rep (length m) c) m []
| matches_cat r1 r2 m1 m2 g1 g2 :
    matches r1 m1 g1 -> matches r2 m2 g2 ->
    matches (Cat r1 r2) (m1 ++ m2) (g1 ++ g2)
| matches_grp r m g : matches r m g -> matches (Grp r) m (m :: g).

Import AddTestTargetComplete.

(** The path of the first script's backup copy. *)
Definition backup_path : string := AddTestTarget.pbxproj_path +:+ ".backup".

(** ** Occurrences *)

(** [p] starts at offset [q] of [s]. *)
Definition occurs_at (p s : str) (q : nat) : Prop :=
  startswith p (drop q s) = true.

Definition at_most_once (p s : str) : Prop :=
  forall q q', occurs_at p s q -> occurs_at p s q' -> q = q'.

(** ** Keys and templates *)

Definition is_lowhex (a : ascii) : bool :=
  let n := nat_of_ascii a in
  ((48 <=? n) && (n <=? 57)) || ((97 <=? n) && (n <=? 102)).

Definition lower_char (a : ascii) : ascii :=
  let n := nat_of_ascii a in
  if (65 <=? n) && (n <=? 90) then ascii_of_nat (n + 32) else a.

(** The format of a key: 24 upper-case hexadecimal digits. *)
Definition good_key (u : str) : Prop :=
  length u = 24 /\ forallb is_uphex u = true.

Definition good_keys (k : keys) : Prop := Forall good_key (key_list k).

Definition zeros : str := repeat "0"%char 24.

Definition zero_keys : keys :=
  {| test_target_uuid := zeros; test_product_uuid := zeros;
     test_sources_uuid := zeros; test_frameworks_uuid := zeros;
     test_resources_uuid := zeros; test_buildconfig_list_uuid := zeros;
     test_debug_config_uuid := zeros; test_release_config_uuid := zeros;
     test_dependency_uuid := zeros; test_target_dependency_uuid := zeros;
     test_group_uuid := zeros |}.

(** The two entries that step 13 inserts. *)
Definition debug_config (k : keys) : str :=
  build_config (test_debug_config_uuid k) "Debug".
Definition release_config (k : keys) : str :=
  build_config (test_release_config_uuid k) "Release".

(** Every upper-case hexadecimal digit is replaced by a zero: the image of a
    template does not depend on the keys that fill it, and an occurrence of
    a text in another is an occurrence of their images. *)
Definition mask_char (a : ascii) : ascii := if is_uphex a then "0"%char else a.
Definition mask (s : str) : str := map mask_char s.

(** Two checks, made on the images, about a text [i] that is inserted in
    front of a text [b].  No occurrence of [x] starts in [i ++ b] at an
    offset from [lo] up to the end of [i]. *)
Definition inside_ok (xm im bm : str) (lo : nat) : bool :=
  forallb (fun j => negb (startswith xm (drop j (im ++ bm))))
    (seq lo (length im - lo)).

(** A proper suffix of [x] that starts [i ++ b] also starts [b]. *)
Definition across_ok (x xm im bm b : str) : bool :=
  forallb (fun n => if startswith (drop n xm) (im ++ bm)
                    then startswith (drop n x) b else true)
    (seq 1 (length xm - 1)).

(** No proper suffix of [x] starts [i ++ b]. *)
Definition across_never (xm im bm : str) : bool :=
  forallb (fun n => negb (startswith (drop n xm) (im ++ bm)))
    (seq 1 (length xm - 1)).

(** The checks for a text [x] without keys, when [i] is inserted in front
    of the marker [m]; [t] stands for the image of what follows [m]. *)
Definition crit (im m t rest x : str) : bool :=
  match x with [] => false | _ :: _ => true end &&
  inside_ok (mask x) im (mask m ++ t) 0 &&
  across_ok x (mask x) im (mask m ++ t) (m ++ rest).

(** The checks for a text with keys, given by its image. *)
Definition crit_sym (xm im m t : str) (lo : nat) : bool :=
  inside_ok xm im (mask m ++ t) lo && across_never xm im (mask m ++ t).

(** ** The three sections *)

Definition EFR := end_section "PBXFileReference".
Definition ENT := end_section "PBXNativeTarget".
Definition EBC := end_section "XCBuildConfiguration".

(** The images of the entries of the three sections, and of the two
    configurations together. *)
Definition mF := mask (new_file_ref zero_keys).
Definition mT := mask (new_target zero_keys).
Definition mG := mask (new_debug_config zero_keys).
Definition mD := mask (debug_config zero_keys).
Definition mR := mask (release_config zero_keys).

(** ** The list anchors *)

(** A pattern made of three groups, one after the other, that never
    matches the empty text. *)
Definition three_groups (r : regex) : Prop :=
  forall m g, matches r m g ->
    m <> [] /\ exists g1 g2 g3, m = g1 ++ g2 ++ g3 /\ g = [g1; g2; g3].

(** The anchors of steps 4, 5, 9 and 10. *)
Definition list_anchors : list regex :=
  [products_re; main_group_re; targets_re; target_attrs_re].

(** ** Files and random sources of the examples *)

(** A file system that holds the project file only. *)
Definition world_of (content : str) : world :=
  {| files := {[ project_path := Text content ]}; stdout := []; draws := 0 |}.

(** A random source that returns 0, 1, 2, ... *)
Definition counting : nat -> N := N.of_nat.

(** A random source whose reads differ in their leading bits. *)
Definition spread (n : nat) : N := (N.of_nat (S n) * 2 ^ 96)%N.

(** A file in which the test target already exists. *)
Definition patched_doc : str :=
  ln 2 (lit "0123456789ABCDEF01234567 /* DevCamTests */ = {") ++ ln 2 (lit "};").

(** A file that has none of the anchors. *)
Definition plain_doc : str := lit "// !$*UTF8*$!".

(** A file that has the PBXNativeTarget section only. *)
Definition native_target_only : str :=
  ln 0 (begin_section "PBXNativeTarget") ++ ln 0 (end_section "PBXNativeTarget").

(** Two lists of targets. *)
Definition two_target_lists : str :=
  ln 3 (lit "targets = (") ++ ln 4 (lit "AAAAAAAAAAAAAAAAAAAAAAAA /* DevCam */,") ++
  ln 3 (lit ");") ++
  ln 3 (lit "targets = (") ++ ln 4 (lit "BBBBBBBBBBBBBBBBBBBBBBBB /* Other */,") ++
  ln 3 (lit ");").

(** A file whose only entry has the key that [counting] leads to. *)
Definition colliding_doc : str :=
  ln 2 (lit "000000000000400080000000 /* DevCam.app */ = {isa = PBXFileReference; };").

Definition file_ref_entry : str :=
  ln 2 (lit "AAAAAAAAAAAAAAAAAAAAAAAA /* DevCam.app */ = {isa = PBXFileReference; explicitFileType = wrapper.application; };").

Definition native_target_entry : str :=
  ln 2 (lit "BBBBBBBBBBBBBBBBBBBBBBBB /* DevCam */ = {") ++
  ln 3 (lit "isa = PBXNativeTarget;") ++
  ln 3 (lit "name = DevCam;") ++
  ln 2 (lit "};").

Definition project_entry : str :=
  ln 2 (lit "CCCCCCCCCCCCCCCCCCCCCCCC /* Project object */ = {") ++
  ln 3 (lit "isa = PBXProject;") ++
  ln 3 (lit "targets = (") ++
  ln 4 (lit "BBBBBBBBBBBBBBBBBBBBBBBB /* DevCam */,") ++
  ln 3 (lit ");") ++
  ln 2 (lit "};").

Definition build_config_entry : str :=
  ln 2 (lit "DDDDDDDDDDDDDDDDDDDDDDDD /* Debug */ = {") ++
  ln 3 (lit "isa = XCBuildConfiguration;") ++
  ln 3 (lit "name = Debug;") ++
  ln 2 (lit "};").

(** The three sections, each with one entry, and the project object with
    its list of targets between them. *)
Definition project_doc : str :=
  ln 0 (begin_section "PBXFileReference") ++ file_ref_entry ++
  ln 0 (end_section "PBXFileReference") ++
  ln 0 (begin_section "PBXNativeTarget") ++ native_target_entry ++
  ln 0 (end_section "PBXNativeTarget") ++
  ln 0 (begin_section "PBXProject") ++ project_entry ++
  ln 0 (end_section "PBXProject") ++
  ln 0 (begin_section "XCBuildConfiguration") ++ build_config_entry ++
  ln 0 (end_section "XCBuildConfiguration").

(** ** Notions for the further properties *)

(** The steps whose inserted text has the name of the test target: the file
    reference, the group, the two children, the target, its place in the
    list of targets, the build configurations and their list. *)
Definition name_steps : list nat := [1; 2; 4; 5; 6; 9; 13; 14].

(** The content that step [i] receives: the result of the steps before it. *)
Definition content_before (k : keys) (i : nat) (content : str) : str :=
  fold_left (fun c step => step c) (take (i - 1) (steps k)) content.

(** An edit that keeps the name where it is, and one that does not bring
    it. *)
Definition keeps_name (f : str -> str) : Prop :=
  forall c, contains (lit "DevCamTests") c = true ->
            contains (lit "DevCamTests") (f c) = true.

Definition adds_no_name (f : str -> str) : Prop :=
  forall c, contains (lit "DevCamTests") c = false ->
            contains (lit "DevCamTests") (f c) = false.

(** What a list anchor matches: the three groups, the third being white
    space and the closing text. *)
Definition closed_list (r : regex) : Prop :=
  forall m g, matches r m g ->
    exists g1 g2 ws close,
      m = g1 ++ g2 ++ ws ++ close /\ g = [g1; g2; ws ++ close] /\
      forallb is_space ws = true /\ (close = lit ");" \/ close = lit "};").

(** A text that neither has the name nor begins or ends with one of its
    characters. *)
Definition plain_text (ins : str) : Prop :=
  contains (lit "DevCamTests") ins = false /\
  (exists a, head ins = Some a /\ ~ In a (lit "DevCamTests")) /\
  (exists b, last ins = Some b /\ ~ In b (lit "DevCamTests")).

(** The same, checked on the image of the text. *)
Definition plain_image (im : str) : bool :=
  let name := mask (lit "DevCamTests") in
  negb (contains name im) &&
  match head im, last im with
  | Some a, Some b =>
      negb (existsb (Ascii.eqb a) name) && negb (existsb (Ascii.eqb b) name)
  | _, _ => false
  end.

(** The texts that steps 3, 7, 8, 10, 11 and 12 insert. *)
Definition plain_texts (k : keys) : list str :=
  [new_frameworks k; container_proxy k; target_dependency k; new_attrs_item k;
   new_resources k; new_sources k].

(** A pattern whose last piece is [\s*]. *)
Inductive ends_ws : regex -> Prop :=
| ends_ws_star : ends_ws (Star false CSpace)
| ends_ws_cat r1 r2 : ends_ws r2 -> ends_ws (Cat r1 r2)
| ends_ws_grp r : ends_ws r -> ends_ws (Grp r).

(** White space and then the closing text start [s]. *)
Definition closes (close s : str) : Prop :=
  exists ws t, forallb is_space ws = true /\ s = ws ++ close ++ t.

(** The second and third group of a list anchor: [(.*?)(\s*close)]. *)
Definition list_tail (close : str) : regex :=
  Grp (Star true CDot) ∙ Grp (Star false CSpace ∙ Lit close).

(** The continuation of [re.search] after a first part [m1] that captured
    the groups [gs]. *)
Definition tail_kont (m1 : str) (gs : list str) : @kont rmatch :=
  fun m2 s2 g2 => accept (m1 ++ m2) s2 (gs ++ g2).

(** A key and then the name of the main target start [s]. *)
Definition keyed (s : str) : Prop :=
  exists key t, good_key key /\ s = key ++ lit " /* DevCam */" ++ t.

(** A file in which the main target is named once, in a list. *)
Definition listed_target_doc : str :=
  ln 3 (lit "targets = (") ++
  ln 4 (lit "D76E4B1D2F2331380090999D /* DevCam */,") ++
  ln 3 (lit ");").

(** A file that has the end of the PBXFrameworksBuildPhase section only. *)
Definition frameworks_only : str :=
  ln 0 (end_section "PBXFrameworksBuildPhase").

(** ** Notions about newlines *)

(** A text without carriage returns, and one without line breaks at all. *)
Definition no_cr (s : str) : bool :=
  forallb (fun a => negb (Ascii.eqb a cr)) s.

Definition no_breaks (s : str) : bool :=
  forallb (fun a => negb (Ascii.eqb a cr) && negb (Ascii.eqb a nl)) s.

(** A pattern that matches no line break: hexadecimal digits and literals
    without one. *)
Fixpoint one_line (r : regex) : bool :=
  match r with
  | Lit l => no_breaks l
  | Star _ _ => false
  | Rep _ c => match c with CHex => true | _ => false end
  | Cat r1 r2 => one_line r1 && one_line r2
  | Grp r1 => one_line r1
  end.

(** Two continuations that agree, one on the characters read and the other
    on the characters stored. *)
Definition same_kont {R : Type} (k k' : @kont R) : Prop :=
  forall m t g, k m (universal_newlines t) g = k' m t g.

(** ** The steps that insert in front of a marker *)

(** Steps 1, 2, 3, 6, 11, 12, 13 and 14 insert an entry in front of the End
    marker of a section, steps 7 and 8 a section in front of the Begin
    marker of another. *)
Definition entry_steps : list nat := [1; 2; 3; 6; 7; 8; 11; 12; 13; 14].

(** Steps 4, 5, 9 and 10 append to a list. *)
Definition list_steps : list nat := [4; 5; 9; 10].

Definition ins_marker (j : nat) : str :=
  match j with
  | 1 => end_section "PBXFileReference"
  | 2 => end_section "PBXFileSystemSynchronizedRootGroup"
  | 3 => end_section "PBXFrameworksBuildPhase"
  | 6 => end_section "PBXNativeTarget"
  | 7 => begin_section "PBXFileReference"
  | 8 => begin_section "PBXFrameworksBuildPhase"
  | 11 => end_section "PBXResourcesBuildPhase"
  | 12 => end_section "PBXSourcesBuildPhase"
  | 13 => end_section "XCBuildConfiguration"
  | 14 => end_section "XCConfigurationList"
  | _ => []
  end.

Definition ins_text (k : keys) (j : nat) : str :=
  match j with
  | 1 => new_file_ref k
  | 2 => new_group k
  | 3 => new_frameworks k
  | 6 => new_target k
  | 7 => container_proxy k
  | 8 => target_dependency k
  | 11 => new_resources k
  | 12 => new_sources k
  | 13 => new_debug_config k
  | 14 => new_config_list k
  | _ => []
  end.

(** The markers at which some step inserts. *)
Definition insertion_markers : list str := map ins_marker entry_steps.

(** The End markers of the three sections that get an entry each. *)
Definition section_ends : list str := [EFR; ENT; EBC].

(** One of two texts begins the other. *)
Definition overlaps (x m : str) : bool := startswith x m || startswith m x.

(** The marker [m] begins nowhere in [e] after its first character, neither
    whole nor, at the end of [e], in part: an insertion in front of [m]
    does not cut [e]. *)
Definition clear_of (m e : str) : bool :=
  forallb (fun n => negb (overlaps (drop n e) m)) (seq 1 (length e - 1)).

(** No step inserts inside [e]. *)
Definition uncut (e : str) : bool :=
  forallb (fun m => clear_of m e) insertion_markers.

(** The same as [clear_of], but for the last character of the text. *)
Definition clear_but_last (m e : str) : bool :=
  forallb (fun n => negb (overlaps (drop n e) m)) (seq 1 (length e - 2)).

(** The content after the first [i] steps. *)
Definition stage (k : keys) (content : str) (i : nat) : str :=
  content_before k (S i) content.

(** An insertion of [t] in front of [m] brings no occurrence of [x] and
    removes none. *)
Definition safe (x t m : str) : Prop :=
  x <> [] /\
  forall rest,
    (forall j, j < length t -> ~ occurs_at x (t ++ m ++ rest) j) /\
    (forall n, 0 < n < length x ->
       startswith (drop n x) (t ++ m ++ rest) = true ->
       startswith (drop n x) (m ++ rest) = true).

(** What is kept of the end of a section: it occurs once and [*] does not
    follow it. *)
Definition closed_once (s x : str) : Prop :=
  at_most_once x s /\ contains x s = true /\ contains (x ++ lit "*") s = false.

(** The texts whose occurrences are followed through the steps: the End
    markers of the three sections, alone and followed by [*]. *)
Definition guarded : list str :=
  section_ends ++ map (fun x => x ++ lit "*") section_ends.

(** The images of the texts that the steps insert. *)
Definition ins_image (j : nat) : str := mask (ins_text zero_keys j).

(** A file of three lines, each ended by a carriage return and a newline,
    that has none of the anchors. *)
Definition crlf_doc : str :=
  lit "// !$*UTF8*$!" ++ [cr; nl] ++ lit "{" ++ [cr; nl] ++ lit "}" ++ [cr; nl].

(** ** Files with the three sections *)

Definition sources_entry : str :=
  ln 2 (lit "EEEEEEEEEEEEEEEEEEEEEEEE /* Sources */ = {") ++
  ln 3 (lit "isa = PBXSourcesBuildPhase;") ++
  ln 2 (lit "};").

(** The three sections, each with one entry, and a fourth section. *)
Definition sections_doc : str :=
  ln 0 (lit "// !$*UTF8*$!") ++
  ln 0 (begin_section "PBXFileReference") ++ file_ref_entry ++
  ln 0 (end_section "PBXFileReference") ++
  ln 0 (begin_section "PBXNativeTarget") ++ native_target_entry ++
  ln 0 (end_section "PBXNativeTarget") ++
  ln 0 (begin_section "PBXSourcesBuildPhase") ++ sources_entry ++
  ln 0 (end_section "PBXSourcesBuildPhase") ++
  ln 0 (begin_section "XCBuildConfiguration") ++ build_config_entry ++
  ln 0 (end_section "XCBuildConfiguration").

(** The same, with the End marker of PBXNativeTarget once more, in a
    comment at the end. *)
Definition repeated_end_doc : str :=
  sections_doc ++ ln 0 (lit "// see " ++ end_section "PBXNativeTarget").

(** The three sections, the first of them on one line. *)
Definition one_line_doc : str :=
  ln 0 (begin_section "PBXFileReference" ++ lit " " ++
        removelast file_ref_entry ++ lit " " ++
        end_section "PBXFileReference") ++
  ln 0 (begin_section "PBXNativeTarget") ++ native_target_entry ++
  ln 0 (end_section "PBXNativeTarget") ++
  ln 0 (begin_section "XCBuildConfiguration") ++ build_config_entry ++
  ln 0 (end_section "XCBuildConfiguration").

(** The three sections, the first of them closed by an End marker whose
    last character begins the End marker of PBXNativeTarget. *)
Definition overlap_doc : str :=
  ln 0 (begin_section "PBXFileReference") ++ file_ref_entry ++
  removelast (end_section "PBXFileReference") ++
  ln 0 (end_section "PBXNativeTarget") ++
  ln 0 (begin_section "XCBuildConfiguration") ++ build_config_entry ++
  ln 0 (end_section "XCBuildConfiguration").

(** * Proofs *)

(** ** Prefixes and occurrences *)

Lemma startswith_nil s : startswith [] s = true.
Proof. by destruct s. Qed.

Lemma startswith_spec p s : startswith p s = true <-> exists t, s = p ++ t.
Proof.
  revert s. induction p as [|a p IH]; intros s; simpl.
  - split; eauto.
  - destruct s as [|b s]; [split; [done|intros [t Ht]; done]|].
    destruct (Ascii.eqb_spec a b) as [->|Hne].
    + rewrite IH. split; [intros [t ->]; by exists t|].
      intros [t Ht]. simplify_eq/=. eauto.
    + split; [done|]. intros [t Ht]. by simplify_eq/=.
Qed.

Lemma startswith_app p t : startswith p (p ++ t) = true.
Proof. apply startswith_spec. eauto. Qed.

Lemma contains_spec p s :
  contains p s = true <-> exists a b, s = a ++ p ++ b.
Proof.
  induction s as [|c s IH]; simpl.
  - rewrite orb_false_r, startswith_spec. split.
    + intros [t Ht]. exists [], t. done.
    + intros (a & b & H). destruct a; simplify_eq/=; eauto.
  - rewrite orb_true_iff, IH, startswith_spec. split.
    + intros [[t Ht]|(a & b & ->)]; [by exists [], t|by exists (c :: a), b].
    + intros ([|x a] & b & H); simplify_eq/=; eauto.
Qed.

Lemma contains_false_cons p c s :
  contains p (c :: s) = false -> startswith p (c :: s) = false /\ contains p s = false.
Proof. simpl. by intros [? ?]%orb_false_elim. Qed.

Lemma replace_go_absent old new s :
  contains old s = false -> replace_go old new 0 s = s.
Proof.
  induction s as [|c s IH]; [done|].
  intros [H1 H2]%contains_false_cons.
  cbn [replace_go]. rewrite H1. f_equal. auto.
Qed.

Lemma replace_absent old new s :
  contains old s = false -> replace old new s = s.
Proof.
  destruct old as [|a old]; intros H.
  - by destruct s.
  - by apply replace_go_absent.
Qed.

(** ** The matcher against the declarative reading of the patterns *)

Lemma startswith_drop l s : startswith l s = true -> s = l ++ drop (length l) s.
Proof.
  intros [t ->]%startswith_spec. by rewrite drop_app_length.
Qed.

Section ExecFacts.
Context {R : Type}.
Implicit Types (k : @kont R) (s m rest : str) (g : list str).

Lemma star_lazy_sound c s k x :
  star_lazy c s k = Some x ->
  exists m rest, s = m ++ rest /\ forallb (in_cls c) m = true /\ k m rest [] = Some x.
Proof.
  revert k. induction s as [|a s IH]; intros k; simpl.
  - destruct (k [] [] []) eqn:E; [|done]. intros [= ->]. by exists [], [].
  - destruct (k [] (a :: s) []) eqn:E.
    + intros [= ->]. by exists [], (a :: s).
    + destruct (in_cls c a) eqn:Ha; [|done].
      intros (m & rest & -> & Hm & Hk)%IH.
      exists (a :: m), rest. simpl. by rewrite Ha, Hm.
Qed.

Lemma star_greedy_sound c s k x :
  star_greedy c s k = Some x ->
  exists m rest, s = m ++ rest /\ forallb (in_cls c) m = true /\ k m rest [] = Some x.
Proof.
  revert k. induction s as [|a s IH]; intros k; simpl.
  - intros Hk. by exists [], [].
  - destruct (in_cls c a) eqn:Ha; [|intros Hk; by exists [], (a :: s)].
    destruct (star_greedy c s (shift a k)) eqn:E.
    + intros [= ->]. apply IH in E as (m & rest & -> & Hm & Hk).
      exists (a :: m), rest. simpl. by rewrite Ha, Hm.
    + intros Hk. by exists [], (a :: s).
Qed.

Lemma rep_sound n c s k x :
  rep n c s k = Some x ->
  exists m rest, s = m ++ rest /\ length m = n /\
    forallb (in_cls c) m = true /\ k m rest [] = Some x.
Proof.
  revert s k. induction n as [|n IH]; intros s k; simpl.
  - intros Hk. by exists [], s.
  - destruct s as [|a s]; [done|]. destruct (in_cls c a) eqn:Ha; [|done].
    intros (m & rest & -> & Hl & Hm & Hk)%IH.
    exists (a :: m), rest. simpl. rewrite Ha, Hm, Hl. done.
Qed.

Lemma star_lazy_complete c m rest k :
  forallb (in_cls c) m = true -> is_Some (k m rest []) ->
  is_Some (star_lazy c (m ++ rest) k).
Proof.
  revert k. induction m as [|a m IH]; intros k Hm Hk.
  - destruct rest; simpl; destruct Hk as [x ->]; eauto.
  - simpl in Hm. apply andb_true_iff in Hm as [Ha Hm]. simpl.
    destruct (k [] (a :: m ++ rest) []); [eauto|].
    rewrite Ha. by apply IH.
Qed.

Lemma star_greedy_complete c m rest k :
  forallb (in_cls c) m = true -> is_Some (k m rest []) ->
  is_Some (star_greedy c (m ++ rest) k).
Proof.
  revert k. induction m as [|a m IH]; intros k Hm Hk.
  - destruct rest as [|b rest]; simpl; [done|].
    destruct (in_cls c b); [|done].
    destruct (star_greedy c rest (shift b k)); eauto.
  - simpl in Hm. apply andb_true_iff in Hm as [Ha Hm]. simpl.
    rewrite Ha. destruct (IH (shift a k) Hm Hk) as [x ->]. eauto.
Qed.

Lemma rep_complete c m rest k :
  forallb (in_cls c) m = true -> is_Some (k m rest []) ->
  is_Some (rep (length m) c (m ++ rest) k).
Proof.
  revert k. induction m as [|a m IH]; intros k Hm Hk; [done|].
  simpl in Hm. apply andb_true_iff in Hm as [Ha Hm]. simpl.
  rewrite Ha. by apply IH.
Qed.
End ExecFacts.

(** The matcher only reports matches of the pattern... *)
Lemma exec_sound {R} r s (k : @kont R) x :
  exec r s k = Some x ->
  exists m rest g, s = m ++ rest /\ matches r m g /\ k m rest g = Some x.
Proof.
  revert s k. induction r as [l|lazy c|n c|r1 IH1 r2 IH2|r IH]; intros s k; simpl.
  - destruct (startswith l s) eqn:E; [|done]. intros Hk.
    exists l, (drop (length l) s), []. split_and!; [by apply startswith_drop|constructor|done].
  - destruct lazy.
    + intros (m & rest & -> & Hm & Hk)%star_lazy_sound.
      exists m, rest, []. split_and!; [done|by constructor|done].
    + intros (m & rest & -> & Hm & Hk)%star_greedy_sound.
      exists m, rest, []. split_and!; [done|by constructor|done].
  - intros (m & rest & -> & <- & Hm & Hk)%rep_sound.
    exists m, rest, []. split_and!; [done|by constructor|done].
  - intros (m1 & rest1 & g1 & -> & H1 & (m2 & rest2 & g2 & -> & H2 & Hk)%IH2)%IH1.
    exists (m1 ++ m2), rest2, (g1 ++ g2).
    split_and!; [by rewrite app_assoc|by constructor|done].
  - intros (m & rest & g & -> & H1 & Hk)%IH.
    exists m, rest, (m :: g). split_and!; [done|by constructor|done].
Qed.

(** ... and it finds a match whenever the pattern has one that the
    continuation accepts. *)
Lemma exec_complete {R} r m g rest (k : @kont R) :
  matches r m g -> is_Some (k m rest g) -> is_Some (exec r (m ++ rest) k).
Proof.
  intros Hm. revert rest k.
  induction Hm as [l|lazy c m Hc|c m Hc|r1 r2 m1 m2 g1 g2 _ IH1 _ IH2|r m g _ IH];
    intros rest k Hk; simpl.
  - rewrite startswith_app, drop_app_length. done.
  - destruct lazy; [by apply star_lazy_complete|by apply star_greedy_complete].
  - by apply rep_complete.
  - rewrite <- app_assoc. apply IH1, IH2. done.
  - by apply IH.
Qed.

Lemma match_here_sound r s mt :
  match_here r s = Some mt ->
  exists rest, s = group0 mt ++ rest /\ matches r (group0 mt) (groups mt).
Proof.
  intros (m & rest & g & -> & Hm & [= <-])%exec_sound. by exists rest.
Qed.

Lemma match_here_complete r m g rest :
  matches r m g -> is_Some (match_here r (m ++ rest)).
Proof. intros Hm. by eapply exec_complete. Qed.

(** [search] returns the match at the leftmost position that has one. *)
Lemma search_some r s mt :
  search r s = Some mt ->
  exists pre post,
    s = pre ++ group0 mt ++ post /\
    match_here r (group0 mt ++ post) = Some mt /\
    forall j, j < length pre -> match_here r (drop j s) = None.
Proof.
  induction s as [|a s IH]; simpl.
  - destruct (match_here r []) eqn:E; [|done]. intros [= ->].
    destruct (match_here_sound _ _ _ E) as (rest & Hs & _).
    exists [], rest. split_and!; [done|by rewrite <- Hs|simpl; lia].
  - destruct (match_here r (a :: s)) eqn:E.
    + intros [= ->]. destruct (match_here_sound _ _ _ E) as (rest & Hs & _).
      exists [], rest. split_and!; [done|by rewrite <- Hs|simpl; lia].
    + intros (pre & post & -> & Hm & Hl)%IH.
      exists (a :: pre), post. split_and!; [done|done|].
      intros [|j] Hj; [done|]. simpl. apply Hl. simpl in Hj. lia.
Qed.

Lemma search_none r s :
  search r s = None -> forall j, j <= length s -> match_here r (drop j s) = None.
Proof.
  induction s as [|a s IH]; simpl.
  - destruct (match_here r []) eqn:E; [done|]. intros _ j Hj. by destruct j.
  - destruct (match_here r (a :: s)) eqn:E; [done|].
    intros H [|j] Hj; [done|]. simpl. apply IH; [done|lia].
Qed.

Lemma search_is_some r pre s :
  is_Some (match_here r s) -> is_Some (search r (pre ++ s)).
Proof.
  intros Hs. induction pre as [|a pre IH]; simpl.
  - destruct s; simpl; destruct Hs as [x ->]; eauto.
  - destruct (match_here r (a :: pre ++ s)); eauto.
Qed.

(** A match never starts before the first place where its own text occurs. *)
Lemma search_first_occurrence r s mt pre post :
  search r s = Some mt -> s = pre ++ group0 mt ++ post ->
  (forall j, j < length pre -> match_here r (drop j s) = None) ->
  forall j, j < length pre -> startswith (group0 mt) (drop j s) = false.
Proof.
  intros Hs -> Hl j Hj.
  destruct (startswith _ _) eqn:E; [|done].
  apply startswith_spec in E as [t Ht].
  apply search_some in Hs as (pre' & post' & _ & Hm & _).
  apply match_here_sound in Hm as (_ & _ & Hm).
  specialize (Hl j Hj). rewrite Ht in Hl.
  destruct (match_here_complete r _ _ t Hm) as [x Hx]. congruence.
Qed.

Lemma startswith_length p s : startswith p s = true -> length p <= length s.
Proof. intros [t ->]%startswith_spec. rewrite length_app. lia. Qed.

Lemma occurs_at_lt p s q : p <> [] -> occurs_at p s q -> q < length s.
Proof.
  intros Hp H. apply startswith_length in H. rewrite length_drop in H.
  destruct p; [done|]. simpl in H. lia.
Qed.

Lemma contains_occurs p s :
  contains p s = true <-> exists q, occurs_at p s q.
Proof.
  unfold occurs_at. induction s as [|c s IH]; simpl.
  - rewrite orb_false_r. split; [by exists 0|]. intros [q H]. by rewrite drop_nil in H.
  - rewrite orb_true_iff, IH. split.
    + intros [H|[q H]]; [by exists 0|by exists (S q)].
    + intros [[|q] H]; [by left|right; by exists q].
Qed.

Lemma contains_false_occurs p s q :
  contains p s = false -> ~ occurs_at p s q.
Proof.
  intros H Hq. assert (contains p s = true) by (apply contains_occurs; eauto).
  congruence.
Qed.

Lemma occurs_at_app p a b : occurs_at p (a ++ p ++ b) (length a).
Proof.
  unfold occurs_at. rewrite drop_app_length. apply startswith_app.
Qed.

Lemma startswith_app_inv p a t :
  startswith p (a ++ t) = true ->
  startswith p a = true \/
  (length a < length p /\ p = a ++ drop (length a) p /\
   startswith (drop (length a) p) t = true).
Proof.
  revert a. induction p as [|x p IH]; intros a; [by left|].
  destruct a as [|y a]; simpl.
  - intros H. right. split_and!; [lia|done|done].
  - destruct (Ascii.eqb_spec x y) as [->|]; [|done].
    intros [H|(H1 & H2 & H3)]%IH; [by left|right].
    split_and!; [lia|by f_equal|done].
Qed.

Lemma startswith_app_l p a t : startswith p a = true -> startswith p (a ++ t) = true.
Proof.
  intros [u ->]%startswith_spec. rewrite <- app_assoc. apply startswith_app.
Qed.

Lemma startswith_app_r a p t : startswith p t = true -> startswith (a ++ p) (a ++ t) = true.
Proof.
  intros [u ->]%startswith_spec. rewrite app_assoc. apply startswith_app.
Qed.

(** ** Occurrences after an insertion *)

Section Insertion.
Variables (x a i b : str).
Hypothesis x_nonempty : x <> [].

(** No occurrence of [x] starts strictly inside the inserted text... *)
Hypothesis inside : forall j, 0 < j < length i -> ~ occurs_at x (i ++ b) j.
(** ... and one that starts before it and runs into it also ran, before
    the insertion, into the text that followed. *)
Hypothesis across : forall n, 0 < n < length x ->
  startswith (drop n x) (i ++ b) = true -> startswith (drop n x) b = true.

Lemma occurs_insert_inv q :
  occurs_at x (a ++ i ++ b) q ->
  (q < length a /\ occurs_at x (a ++ b) q) \/
  (q = length a /\ startswith x (i ++ b) = true) \/
  (length a + length i <= q /\ occurs_at x (a ++ b) (q - length i)).
Proof.
  unfold occurs_at. intros H.
  destruct (decide (q < length a)) as [Hq|Hq].
  - left. split; [done|].
    rewrite drop_app_le in H |- * by lia.
    apply startswith_app_inv in H as [H|(H1 & H2 & H3)].
    + by apply startswith_app_l.
    + rewrite H2. apply startswith_app_r, across; [|done].
      rewrite length_drop in H1 |- *. lia.
  - right. rewrite drop_app_ge in H by lia.
    destruct (decide (q = length a)) as [->|Hne].
    { left. by rewrite Nat.sub_diag in H. }
    destruct (decide (q - length a < length i)) as [Hi|Hi].
    { exfalso. apply (inside (q - length a)); [lia|done]. }
    right. split; [lia|].
    rewrite drop_app_ge in H by lia.
    rewrite drop_app_ge by lia.
    replace (q - length i - length a) with (q - length a - length i) by lia. done.
Qed.
End Insertion.

Lemma insert_absent x a i b :
  x <> [] ->
  (forall j, j < length i -> ~ occurs_at x (i ++ b) j) ->
  (forall n, 0 < n < length x ->
     startswith (drop n x) (i ++ b) = true -> startswith (drop n x) b = true) ->
  contains x (a ++ b) = false -> contains x (a ++ i ++ b) = false.
Proof.
  intros Hx Hin Hac Hab. destruct (contains x (a ++ i ++ b)) eqn:E; [|done].
  apply contains_occurs in E as [q Hq].
  apply occurs_insert_inv in Hq as [[_ H]|[[_ H]|[_ H]]]; try done.
  - by apply contains_false_occurs in H.
  - destruct i as [|c i].
    + simpl in H. exfalso. eapply (contains_false_occurs x (a ++ b) (length a)); [done|].
      unfold occurs_at. by rewrite drop_app_length.
    + exfalso. apply (Hin 0); [simpl; lia|done].
  - by apply contains_false_occurs in H.
  - intros j Hj. apply Hin. lia.
Qed.

Lemma insert_at_most_once x a i b :
  x <> [] ->
  (forall j, j < length i -> ~ occurs_at x (i ++ b) j) ->
  (forall n, 0 < n < length x ->
     startswith (drop n x) (i ++ b) = true -> startswith (drop n x) b = true) ->
  i <> [] ->
  at_most_once x (a ++ b) -> at_most_once x (a ++ i ++ b).
Proof.
  intros Hx Hin Hac Hi Hab q q' Hq Hq'.
  assert (Hin' : forall j, 0 < j < length i -> ~ occurs_at x (i ++ b) j)
    by (intros j Hj; apply Hin; lia).
  assert (H0 : startswith x (i ++ b) = false).
  { destruct (startswith x (i ++ b)) eqn:E; [|done]. exfalso.
    apply (Hin 0); [|done]. destruct i; [done|simpl; lia]. }
  apply occurs_insert_inv in Hq as [[H1 H]|[[_ H]|[H1 H]]]; try done; [| congruence |];
  apply occurs_insert_inv in Hq' as [[H1' H']|[[_ H']|[H1' H']]]; try done; try congruence;
  specialize (Hab _ _ H H'); lia.
Qed.

(** The inserted text itself occurs once when it did not occur before. *)
Lemma insert_self_once a i b :
  i <> [] ->
  (forall j, 0 < j < length i -> ~ occurs_at i (i ++ b) j) ->
  (forall n, 0 < n < length i ->
     startswith (drop n i) (i ++ b) = true -> startswith (drop n i) b = true) ->
  contains i (a ++ b) = false -> at_most_once i (a ++ i ++ b).
Proof.
  intros Hi Hin Hac Hab q q' Hq Hq'.
  apply occurs_insert_inv in Hq as [[H1 H]|[[-> H]|[H1 H]]]; try done;
  try (by apply contains_false_occurs in H);
  apply occurs_insert_inv in Hq' as [[H1' H']|[[-> H']|[H1' H']]]; try done;
  by apply contains_false_occurs in H'.
Qed.

(** ** [replace] at the first and at the only occurrence *)

Lemma replace_go_skip old new t s :
  replace_go old new (length t) (t ++ s) = replace_go old new 0 s.
Proof. induction t as [|c t IH]; [done|]. simpl. apply IH. Qed.

Lemma replace_go_here o old new post :
  replace_go (o :: old) new 0 ((o :: old) ++ post) =
  new ++ replace_go (o :: old) new 0 post.
Proof.
  pose proof (startswith_app (o :: old) post) as H.
  cbn [app] in *. cbn [replace_go]. rewrite H.
  f_equal. replace (length (o :: old) - 1) with (length old) by (simpl; lia).
  apply replace_go_skip.
Qed.

Lemma replace_first old new pre post :
  old <> [] ->
  (forall j, j < length pre -> ~ occurs_at old (pre ++ old ++ post) j) ->
  replace old new (pre ++ old ++ post) = pre ++ new ++ replace old new post.
Proof.
  intros Hold. destruct old as [|o old]; [done|]. unfold replace.
  induction pre as [|c pre IH]; intros H.
  - apply replace_go_here.
  - change ((c :: pre) ++ (o :: old) ++ post) with (c :: (pre ++ (o :: old) ++ post)).
    cbn [replace_go].
    destruct (startswith (o :: old) (c :: pre ++ (o :: old) ++ post)) eqn:E.
    { exfalso. apply (H 0); [simpl; lia|done]. }
    cbn [app]. f_equal. apply IH. intros j Hj Hocc. apply (H (S j)); [simpl; lia|done].
Qed.

Lemma replace_once old new pre post :
  old <> [] -> at_most_once old (pre ++ old ++ post) ->
  replace old new (pre ++ old ++ post) = pre ++ new ++ post.
Proof.
  intros Hold H. rewrite replace_first; [|done|].
  - do 2 f_equal. apply replace_absent.
    destruct (contains old post) eqn:E; [|done].
    apply contains_occurs in E as [q Hq].
    assert (Ho : occurs_at old (pre ++ old ++ post) (length pre + length old + q)).
    { unfold occurs_at. rewrite drop_app_ge by lia.
      rewrite drop_app_ge by lia.
      replace (length pre + length old + q - length pre - length old) with q by lia.
      done. }
    pose proof (H _ _ Ho (occurs_at_app old pre post)).
    destruct old; [done|]. simpl in *. lia.
  - intros j Hj Ho. pose proof (H _ _ Ho (occurs_at_app old pre post)). lia.
Qed.

(** ** Counting *)

Lemma count_zero p s : count p s = 0 <-> contains p s = false.
Proof.
  induction s as [|c s IH]; simpl.
  - destruct (startswith p []); simpl; split; (done || lia).
  - destruct (startswith p (c :: s)); simpl; [split; (done || lia)|]. done.
Qed.

Lemma count_le_one p s : p <> [] -> count p s <= 1 -> at_most_once p s.
Proof.
  intros Hp. unfold at_most_once, occurs_at.
  induction s as [|c s IH]; intros H q q' Hq Hq'.
  - rewrite drop_nil in Hq. destruct p; done.
  - simpl in H. destruct q as [|q], q' as [|q']; [done| | |].
    + simpl in Hq, Hq'. change (startswith p (c :: s)) with (startswith p (drop 0 (c :: s))) in H.
      simpl in H. rewrite Hq in H.
      assert (contains p s = true) by (apply contains_occurs; by exists q').
      assert (count p s <> 0) by (rewrite count_zero; congruence). lia.
    + simpl in Hq, Hq'. rewrite Hq' in H.
      assert (contains p s = true) by (apply contains_occurs; by exists q).
      assert (count p s <> 0) by (rewrite count_zero; congruence). lia.
    + f_equal. apply IH; [|done|done]. destruct (startswith p (c :: s)); simpl in H; lia.
Qed.

Lemma at_most_once_count p s :
  p <> [] -> at_most_once p s -> count p s <= 1.
Proof.
  intros Hp. unfold at_most_once, occurs_at.
  induction s as [|c s IH]; intros H.
  - simpl. destruct p; [done|simpl; lia].
  - simpl. destruct (startswith p (c :: s)) eqn:E.
    + assert (contains p s = false) as ->%count_zero; [|simpl; lia].
      destruct (contains p s) eqn:E'; [|done].
      apply contains_occurs in E' as [q Hq].
      specialize (H 0 (S q) E Hq). done.
    + simpl. apply IH. intros q q' Hq Hq'.
      specialize (H (S q) (S q') Hq Hq'). lia.
Qed.

Lemma count_once p s :
  p <> [] -> contains p s = true -> at_most_once p s -> count p s = 1.
Proof.
  intros Hp Hc H. apply at_most_once_count in H; [|done].
  assert (count p s <> 0) by (rewrite count_zero; congruence). lia.
Qed.

Lemma startswith_map f p s :
  startswith p s = true -> startswith (map f p) (map f s) = true.
Proof.
  intros [t ->]%startswith_spec. rewrite map_app. apply startswith_app.
Qed.

Lemma mask_app s t : mask (s ++ t) = mask s ++ mask t.
Proof. apply map_app. Qed.

Lemma mask_drop n s : mask (drop n s) = drop n (mask s).
Proof. unfold mask. by rewrite skipn_map. Qed.

Lemma mask_length s : length (mask s) = length s.
Proof. apply length_map. Qed.

Lemma occurs_at_mask x s q : occurs_at x s q -> occurs_at (mask x) (mask s) q.
Proof.
  unfold occurs_at. intros H. rewrite <- mask_drop. by apply startswith_map.
Qed.

Lemma inside_ok_spec x i b lo :
  inside_ok (mask x) (mask i) (mask b) lo = true ->
  forall j, lo <= j < length i -> ~ occurs_at x (i ++ b) j.
Proof.
  unfold inside_ok. rewrite forallb_forall. intros H j Hj Ho.
  apply occurs_at_mask in Ho. rewrite mask_app in Ho.
  specialize (H j). rewrite mask_length in H.
  rewrite Ho in H. simpl in H. assert (false = true); [|done].
  apply H. apply in_seq. lia.
Qed.

Lemma across_ok_spec x i b :
  across_ok x (mask x) (mask i) (mask b) b = true ->
  forall n, 0 < n < length x ->
    startswith (drop n x) (i ++ b) = true -> startswith (drop n x) b = true.
Proof.
  unfold across_ok. rewrite forallb_forall. intros H n Hn Hs.
  specialize (H n). rewrite mask_length in H.
  apply (startswith_map mask_char) in Hs.
  fold (mask (drop n x)) in Hs. fold (mask (i ++ b)) in Hs.
  rewrite mask_drop, mask_app in Hs. rewrite Hs in H.
  apply H. apply in_seq. lia.
Qed.

Lemma across_never_spec x i b :
  across_never (mask x) (mask i) (mask b) = true ->
  forall n, 0 < n < length x ->
    startswith (drop n x) (i ++ b) = true -> startswith (drop n x) b = true.
Proof.
  unfold across_never. rewrite forallb_forall. intros H n Hn Hs.
  specialize (H n). rewrite mask_length in H.
  apply (startswith_map mask_char) in Hs.
  fold (mask (drop n x)) in Hs. fold (mask (i ++ b)) in Hs.
  rewrite mask_drop, mask_app in Hs. rewrite Hs in H.
  assert (negb true = true); [|done]. apply H. apply in_seq. lia.
Qed.

Lemma mask_hex u :
  forallb is_uphex u = true -> mask u = repeat "0"%char (length u).
Proof.
  induction u as [|a u IH]; [done|]. simpl.
  intros [Ha Hu]%andb_true_iff. unfold mask_char at 1. rewrite Ha. f_equal. auto.
Qed.

Lemma contains_app_l p a b : contains p a = true -> contains p (a ++ b) = true.
Proof.
  rewrite !contains_spec. intros (u & v & ->). exists u, (v ++ b).
  by rewrite <- !app_assoc.
Qed.

Lemma contains_app_r p a b : contains p b = true -> contains p (a ++ b) = true.
Proof.
  rewrite !contains_spec. intros (u & v & ->). exists (a ++ u), v.
  by rewrite <- !app_assoc.
Qed.

Lemma contains_refl p : contains p p = true.
Proof. apply contains_spec. exists [], []. by rewrite app_nil_r. Qed.

Lemma contains_trans p x s :
  contains p x = true -> contains x s = true -> contains p s = true.
Proof.
  rewrite !contains_spec. intros (u & v & ->) (a & b & ->).
  exists (a ++ u), (v ++ b). by rewrite <- !app_assoc.
Qed.

Lemma contains_mid p a b : contains p (a ++ p ++ b) = true.
Proof. apply contains_spec. eauto. Qed.

(** ** Searching for a literal *)

Lemma search_lit_none l s : contains l s = false -> search (Lit l) s = None.
Proof.
  induction s as [|c s IH]; simpl.
  - rewrite orb_false_r. unfold match_here. simpl. by intros ->.
  - intros [H1 H2]%orb_false_elim. unfold match_here. cbn [exec]. rewrite H1. auto.
Qed.

Lemma search_lit_some l s : contains l s = true -> is_Some (search (Lit l) s).
Proof.
  intros (a & b & ->)%contains_spec. apply search_is_some.
  unfold match_here. cbn [exec]. rewrite startswith_app. by eexists.
Qed.

(** A pattern that cannot match without some text does not match where the
    text is absent. *)
Lemma search_needs r l s :
  (forall m g, matches r m g -> contains l m = true) ->
  contains l s = false -> search r s = None.
Proof.
  intros Hr Hl. destruct (search r s) as [mt|] eqn:E; [|done].
  apply search_some in E as (pre & post & -> & Hm & _).
  apply match_here_sound in Hm as (_ & _ & Hm). apply Hr in Hm.
  assert (contains l (pre ++ group0 mt ++ post) = true); [|congruence].
  by apply contains_app_r, contains_app_l.
Qed.

Ltac inv_matches :=
  repeat match goal with
  | H : matches (Cat _ _) _ _ |- _ => inversion H; subst; clear H
  | H : matches (Grp _) _ _ |- _ => inversion H; subst; clear H
  | H : matches (Lit _) _ _ |- _ => inversion H; subst; clear H
  | H : matches (Star _ _) _ _ |- _ => inversion H; subst; clear H
  end.

Lemma list_re_needs opening list_open list_close m g :
  matches (list_re opening list_open list_close) m g ->
  contains (lit list_open) m = true.
Proof.
  unfold list_re. intros H. inv_matches.
  apply contains_app_l, contains_app_r, contains_app_r, contains_app_l, contains_refl.
Qed.

Lemma targets_re_needs m g :
  matches targets_re m g -> contains (lit "targets = (") m = true.
Proof.
  unfold targets_re. intros H. inv_matches.
  apply contains_app_l, contains_app_l, contains_refl.
Qed.

Lemma target_attrs_re_needs m g :
  matches target_attrs_re m g -> contains (lit "TargetAttributes = {") m = true.
Proof.
  unfold target_attrs_re. intros H. inv_matches.
  apply contains_app_l, contains_refl.
Qed.

(** ** The steps on a content that lacks, or has once, what they look for *)

Lemma insert_entry_absent marker entry content :
  contains marker content = false ->
  insert_entry (Lit marker) marker entry content = content.
Proof. intros H. unfold insert_entry. by rewrite search_lit_none. Qed.

Lemma insert_entry_once marker entry pre post :
  marker <> [] -> at_most_once marker (pre ++ marker ++ post) ->
  insert_entry (Lit marker) marker entry (pre ++ marker ++ post) =
  pre ++ entry ++ marker ++ post.
Proof.
  intros Hm H. unfold insert_entry.
  destruct (search_lit_some marker (pre ++ marker ++ post)) as [mt ->];
    [apply contains_mid|].
  rewrite replace_once by done. by rewrite <- app_assoc.
Qed.

Lemma append_to_list_absent r l item content :
  (forall m g, matches r m g -> contains l m = true) ->
  contains l content = false -> append_to_list r item content = content.
Proof. intros Hr H. unfold append_to_list. by rewrite (search_needs r l). Qed.

Lemma file_ref_re_matches pre body post :
  is_Some (search file_ref_re
    (pre ++ begin_section "PBXFileReference" ++ [nl] ++ body ++ [nl] ++
     end_section "PBXFileReference" ++ post)).
Proof.
  apply search_is_some.
  replace (begin_section "PBXFileReference" ++ [nl] ++ body ++ [nl] ++
           end_section "PBXFileReference" ++ post)
    with (((begin_section "PBXFileReference" ++ [nl]) ++ body ++
           (nl :: end_section "PBXFileReference")) ++ post)
    by (by rewrite <- ?app_assoc).
  eapply match_here_complete. unfold file_ref_re.
  eapply matches_cat; [constructor|].
  eapply matches_cat; [|constructor].
  do 2 constructor. by induction body.
Qed.

Lemma mask_good u : good_key u -> mask u = zeros.
Proof. intros [Hl Hu]. rewrite mask_hex by done. by rewrite Hl. Qed.

Lemma good_keys_masks k :
  good_keys k ->
  mask (test_target_uuid k) = zeros /\ mask (test_product_uuid k) = zeros /\
  mask (test_sources_uuid k) = zeros /\ mask (test_frameworks_uuid k) = zeros /\
  mask (test_resources_uuid k) = zeros /\
  mask (test_buildconfig_list_uuid k) = zeros /\
  mask (test_debug_config_uuid k) = zeros /\
  mask (test_release_config_uuid k) = zeros /\
  mask (test_dependency_uuid k) = zeros /\
  mask (test_target_dependency_uuid k) = zeros /\
  mask (test_group_uuid k) = zeros.
Proof.
  unfold good_keys, key_list. intros H.
  repeat (apply Forall_cons in H as [?%mask_good H]). done.
Qed.

Ltac mask_template Hk :=
  destruct (good_keys_masks _ Hk) as (?&?&?&?&?&?&?&?&?&?&?);
  unfold new_file_ref, new_target, container_proxy, new_debug_config,
    debug_config, release_config, build_config, ln;
  rewrite ?mask_app;
  repeat match goal with H : mask _ = zeros |- _ => rewrite ?H; clear H end;
  vm_compute; reflexivity.

Lemma mask_new_file_ref k :
  good_keys k -> mask (new_file_ref k) = mask (new_file_ref zero_keys).
Proof. intros Hk. mask_template Hk. Qed.

Lemma mask_new_target k :
  good_keys k -> mask (new_target k) = mask (new_target zero_keys).
Proof. intros Hk. mask_template Hk. Qed.

Lemma mask_container_proxy k :
  good_keys k -> mask (container_proxy k) = mask (container_proxy zero_keys).
Proof. intros Hk. mask_template Hk. Qed.

Lemma mask_debug_config k :
  good_keys k -> mask (debug_config k) = mask (debug_config zero_keys).
Proof. intros Hk. mask_template Hk. Qed.

Lemma mask_release_config k :
  good_keys k -> mask (release_config k) = mask (release_config zero_keys).
Proof. intros Hk. mask_template Hk. Qed.

Lemma mask_new_debug_config k :
  good_keys k -> mask (new_debug_config k) = mask (new_debug_config zero_keys).
Proof. intros Hk. mask_template Hk. Qed.

(** ** Transfer of absence and of uniqueness across an insertion *)

Section Transfer.
Variables (c c' a i m rest : str).
Hypothesis before : c = a ++ m ++ rest.
Hypothesis after_ : c' = a ++ i ++ m ++ rest.

Lemma crit_conds x :
  crit (mask i) m (mask rest) rest x = true ->
  x <> [] /\
  (forall j, j < length i -> ~ occurs_at x (i ++ m ++ rest) j) /\
  (forall n, 0 < n < length x ->
     startswith (drop n x) (i ++ m ++ rest) = true ->
     startswith (drop n x) (m ++ rest) = true).
Proof.
  unfold crit. intros [[H0 H1]%andb_true_iff H2]%andb_true_iff.
  rewrite <- mask_app in H1, H2. split_and!.
  - by destruct x.
  - intros j Hj. eapply inside_ok_spec; [done|lia].
  - by apply across_ok_spec.
Qed.

Lemma crit_sym_conds x lo :
  crit_sym (mask x) (mask i) m (mask rest) lo = true ->
  (forall j, lo <= j < length i -> ~ occurs_at x (i ++ m ++ rest) j) /\
  (forall n, 0 < n < length x ->
     startswith (drop n x) (i ++ m ++ rest) = true ->
     startswith (drop n x) (m ++ rest) = true).
Proof.
  unfold crit_sym. intros [H1 H2]%andb_true_iff.
  rewrite <- mask_app in H1, H2. split.
  - by apply inside_ok_spec.
  - by apply across_never_spec.
Qed.

Lemma crit_absent x :
  crit (mask i) m (mask rest) rest x = true ->
  contains x c = false -> contains x c' = false.
Proof.
  intros (Hx & Hin & Hac)%crit_conds. subst c c'. by apply insert_absent.
Qed.

Lemma crit_once x :
  i <> [] -> crit (mask i) m (mask rest) rest x = true ->
  at_most_once x c -> at_most_once x c'.
Proof.
  intros Hi (Hx & Hin & Hac)%crit_conds. subst c c'.
  by apply insert_at_most_once.
Qed.

Lemma crit_absent_all xs :
  forallb (crit (mask i) m (mask rest) rest) xs = true ->
  Forall (fun x => contains x c = false) xs ->
  Forall (fun x => contains x c' = false) xs.
Proof.
  rewrite forallb_forall, !Forall_forall. intros Hc H x Hx.
  apply crit_absent; [apply Hc; by apply list_elem_of_In|by apply H].
Qed.

Lemma crit_once_all xs :
  i <> [] -> forallb (crit (mask i) m (mask rest) rest) xs = true ->
  Forall (fun x => at_most_once x c) xs ->
  Forall (fun x => at_most_once x c') xs.
Proof.
  rewrite forallb_forall, !Forall_forall. intros Hi Hc H x Hx.
  apply crit_once; [done|apply Hc; by apply list_elem_of_In|by apply H].
Qed.

Lemma crit_sym_absent x :
  x <> [] -> crit_sym (mask x) (mask i) m (mask rest) 0 = true ->
  contains x c = false -> contains x c' = false.
Proof.
  intros Hx [Hin Hac]%crit_sym_conds. subst c c'.
  apply insert_absent; [done| |done]. intros j Hj. apply Hin. lia.
Qed.

Lemma crit_sym_once x :
  x <> [] -> i <> [] -> crit_sym (mask x) (mask i) m (mask rest) 0 = true ->
  at_most_once x c -> at_most_once x c'.
Proof.
  intros Hx Hi [Hin Hac]%crit_sym_conds. subst c c'.
  apply insert_at_most_once; [done| |done|done]. intros j Hj. apply Hin. lia.
Qed.

Lemma crit_sym_new x :
  x <> [] -> crit_sym (mask x) (mask i) m (mask rest) 1 = true ->
  contains x c = false -> at_most_once x c'.
Proof.
  intros Hx [Hin Hac]%crit_sym_conds Hc. subst c c'.
  intros q q' Hq Hq'.
  apply occurs_insert_inv in Hq as [[H1 H]|[[-> H]|[H1 H]]]; try done;
    try (by apply contains_false_occurs in H);
    try (intros j Hj; apply Hin; lia).
  apply occurs_insert_inv in Hq' as [[H1' H']|[[-> H']|[H1' H']]]; try done;
    try (by apply contains_false_occurs in H');
    try (intros j Hj; apply Hin; lia).
Qed.
End Transfer.

Lemma contains_devcam_file_ref k : contains (lit "DevCamTests") (new_file_ref k) = true.
Proof.
  unfold new_file_ref, ln. apply contains_app_r, contains_app_l, contains_app_r.
  vm_compute. reflexivity.
Qed.

Lemma contains_devcam_target k : contains (lit "DevCamTests") (new_target k) = true.
Proof.
  unfold new_target. apply contains_app_l. unfold ln.
  apply contains_app_r, contains_app_l, contains_app_r.
  vm_compute. reflexivity.
Qed.

Lemma contains_devcam_config key name :
  contains (lit "DevCamTests") (build_config key name) = true.
Proof.
  unfold build_config.
  do 9 apply contains_app_r. apply contains_app_l.
  vm_compute. reflexivity.
Qed.

Lemma absent_of_devcam x s :
  contains (lit "DevCamTests") x = true ->
  contains (lit "DevCamTests") s = false -> contains x s = false.
Proof.
  intros Hx Hs. destruct (contains x s) eqn:E; [|done].
  rewrite (contains_trans _ _ _ Hx E) in Hs. done.
Qed.

(** ** Keys *)

Lemma lor_lt_pow2 a b n : (a < 2 ^ n -> b < 2 ^ n -> N.lor a b < 2 ^ n)%N.
Proof.
  intros Ha Hb.
  destruct (N.eq_dec a 0%N) as [->|Ha0]; [by rewrite N.lor_0_l|].
  destruct (N.eq_dec b 0%N) as [->|Hb0]; [by rewrite N.lor_0_r|].
  assert (N.lor a b <> 0)%N by (intros [? ?]%N.lor_eq_0_iff; done).
  apply N.log2_lt_pow2; [lia|]. rewrite N.log2_lor.
  apply N.log2_lt_pow2 in Ha; [|lia]. apply N.log2_lt_pow2 in Hb; [|lia]. lia.
Qed.

Lemma uuid4_bound r : (uuid4 r < 2 ^ 128)%N.
Proof.
  unfold uuid4. apply lor_lt_pow2; [|done].
  eapply N.le_lt_trans; [apply N.ldiff_le_l|].
  apply lor_lt_pow2; [|done].
  eapply N.le_lt_trans; [apply N.ldiff_le_l|].
  apply N.mod_lt. done.
Qed.

Lemma hex_fixed_length n v : length (hex_fixed n v) = n.
Proof.
  revert v. induction n as [|n IH]; intros v; [done|].
  simpl. rewrite length_app, IH. simpl. lia.
Qed.

Lemma hex_digit_lowhex d : (d < 16)%N -> is_lowhex (hex_digit d) = true.
Proof.
  intros Hd. assert (H : N.to_nat d < 16) by lia.
  unfold hex_digit. destruct (N.to_nat d) as [|n]; [done|].
  do 15 (destruct n as [|n]; [done|]). lia.
Qed.

Lemma hex_fixed_lowhex n v : forallb is_lowhex (hex_fixed n v) = true.
Proof.
  revert v. induction n as [|n IH]; intros v; [done|].
  simpl. rewrite forallb_app, IH. simpl.
  rewrite hex_digit_lowhex; [done|]. apply N.mod_lt. done.
Qed.

Lemma lowhex_upper a : is_lowhex a = true -> is_uphex (upper_char a) = true.
Proof.
  destruct a as [[] [] [] [] [] [] [] []]; vm_compute; done.
Qed.

Lemma upper_uphex s : forallb is_lowhex s = true -> forallb is_uphex (upper s) = true.
Proof.
  induction s as [|a s IH]; [done|]. simpl.
  intros [Ha Hs]%andb_true_iff. by rewrite lowhex_upper, IH.
Qed.

Lemma forallb_take {A} (f : A -> bool) n l :
  forallb f l = true -> forallb f (take n l) = true.
Proof.
  revert n. induction l as [|a l IH]; intros [|n]; try done. simpl.
  intros [-> Hl]%andb_true_iff. simpl. auto.
Qed.

Lemma forallb_drop {A} (f : A -> bool) n l :
  forallb f l = true -> forallb f (drop n l) = true.
Proof.
  revert n. induction l as [|a l IH]; intros [|n]; try done. simpl.
  intros [_ Hl]%andb_true_iff. auto.
Qed.

Lemma key_of_good r : good_key (key_of r).
Proof.
  unfold good_key, key_of, upper, uuid_hex. split.
  - rewrite length_map, length_take, hex_fixed_length. done.
  - apply upper_uphex, forallb_take, hex_fixed_lowhex.
Qed.

(** The first script's way through the dashed form gives the same key. *)

Lemma replace_char_app c new s t :
  replace [c] new (s ++ t) = replace [c] new s ++ replace [c] new t.
Proof.
  unfold replace. induction s as [|a s IH]; [done|].
  cbn [app replace_go length Nat.sub]. rewrite IH.
  assert (startswith [c] (a :: s ++ t) = startswith [c] (a :: s)) as ->.
  { simpl. by destruct (Ascii.eqb c a). }
  destruct (startswith [c] (a :: s)); [by rewrite <- app_assoc|done].
Qed.

Lemma replace_char_absent c new s :
  forallb (fun a => negb (Ascii.eqb c a)) s = true -> replace [c] new s = s.
Proof.
  intros H. apply replace_absent. induction s as [|a s IH]; [done|].
  simpl in H |- *. apply andb_true_iff in H as [Ha Hs].
  destruct (Ascii.eqb c a); [done|]. simpl. auto.
Qed.

Lemma uphex_no_dash s :
  forallb is_uphex s = true ->
  forallb (fun a => negb (Ascii.eqb "-"%char a)) s = true.
Proof.
  induction s as [|a s IH]; [done|]. cbn [forallb].
  intros [Ha Hs]%andb_true_iff. apply andb_true_iff. split; [|auto].
  destruct a as [[] [] [] [] [] [] [] []]; vm_compute in Ha |- *; done.
Qed.

Lemma upper_app s t : upper (s ++ t) = upper s ++ upper t.
Proof. apply map_app. Qed.

Lemma upper_take n s : upper (take n s) = take n (upper s).
Proof. unfold upper. by rewrite firstn_map. Qed.

Lemma upper_drop n s : upper (drop n s) = drop n (upper s).
Proof. unfold upper. by rewrite skipn_map. Qed.

Lemma key_of_str_eq r : key_of_str r = key_of r.
Proof.
  unfold key_of_str, key_of, uuid_str.
  set (h := uuid_hex (uuid4 r)).
  assert (Hh : forallb is_uphex (upper h) = true)
    by apply upper_uphex, hex_fixed_lowhex.
  change (lit "-") with ["-"%char].
  rewrite !upper_app, !upper_take, !upper_drop.
  set (H := upper h) in *.
  rewrite !replace_char_app.
  change (upper ["-"%char]) with ["-"%char].
  assert (Hd : replace ["-"%char] (lit "") ["-"%char] = []) by done.
  rewrite !Hd.
  rewrite !replace_char_absent
    by (apply uphex_no_dash; repeat (apply forallb_take || apply forallb_drop); done).
  rewrite !app_nil_l.
  rewrite !app_assoc, (take_take_drop H 8 4). change (8 + 4) with 12.
  rewrite (take_take_drop H 12 4). change (12 + 4) with 16.
  rewrite (take_take_drop H 16 4). change (16 + 4) with 20.
  by rewrite (take_drop 20 H).
Qed.

(** ** When two keys are equal *)

Lemma lower_upper_char a : is_lowhex a = true -> lower_char (upper_char a) = a.
Proof. destruct a as [[] [] [] [] [] [] [] []]; vm_compute; done. Qed.

Lemma upper_inj s t :
  forallb is_lowhex s = true -> forallb is_lowhex t = true ->
  upper s = upper t -> s = t.
Proof.
  revert t. induction s as [|a s IH]; intros [|b t]; try done. simpl.
  intros [Ha Hs]%andb_true_iff [Hb Ht]%andb_true_iff [= Hab Hst].
  f_equal; [|by apply IH].
  apply (f_equal lower_char) in Hab. by rewrite !lower_upper_char in Hab.
Qed.

Lemma hex_fixed_app n m v :
  hex_fixed (n + m) v = hex_fixed n (v / 16 ^ N.of_nat m)%N ++ hex_fixed m v.
Proof.
  revert v. induction m as [|m IH]; intros v.
  - rewrite Nat.add_0_r. simpl. by rewrite N.div_1_r, app_nil_r.
  - rewrite Nat.add_succ_r. cbn [hex_fixed]. rewrite IH, <- app_assoc.
    do 2 f_equal. rewrite N.Div0.div_div.
    f_equal. rewrite Nat2N.inj_succ, N.pow_succ_r'. done.
Qed.

Lemma hex_digit_inj d e :
  (d < 16)%N -> (e < 16)%N -> hex_digit d = hex_digit e -> d = e.
Proof.
  intros Hd He. unfold hex_digit.
  assert (Hd' : N.to_nat d < 16) by lia. assert (He' : N.to_nat e < 16) by lia.
  intros H. apply N2Nat.inj. revert H.
  generalize dependent (N.to_nat e). generalize dependent (N.to_nat d).
  intros x Hx y Hy.
  do 16 (destruct x as [|x]; [do 16 (destruct y as [|y]; [done|]); lia|]). lia.
Qed.

Lemma hex_fixed_inj n v w :
  (v < 16 ^ N.of_nat n)%N -> (w < 16 ^ N.of_nat n)%N ->
  hex_fixed n v = hex_fixed n w -> v = w.
Proof.
  revert v w. induction n as [|n IH]; intros v w Hv Hw.
  - simpl in *. lia.
  - rewrite Nat2N.inj_succ, N.pow_succ_r' in Hv, Hw. cbn [hex_fixed].
    intros [H1 H2]%app_inj_tail.
    apply hex_digit_inj in H2; [|by apply N.mod_lt..].
    apply IH in H1; [|apply N.Div0.div_lt_upper_bound; lia..].
    rewrite (N.div_mod v 16), (N.div_mod w 16) by done. congruence.
Qed.

Lemma key_of_digits r :
  key_of r = upper (hex_fixed 24 (uuid4 r / 2 ^ 32)%N).
Proof.
  unfold key_of, uuid_hex. f_equal.
  change 32 with (24 + 8). rewrite hex_fixed_app.
  rewrite take_app_length' by (by rewrite hex_fixed_length). done.
Qed.

Lemma key_of_eq_iff r1 r2 :
  key_of r1 = key_of r2 <-> (uuid4 r1 / 2 ^ 32 = uuid4 r2 / 2 ^ 32)%N.
Proof.
  rewrite !key_of_digits. split; [|by intros ->].
  intros H. apply upper_inj in H; [|apply hex_fixed_lowhex..].
  apply hex_fixed_inj in H; [done|..];
    apply N.Div0.div_lt_upper_bound;
    (eapply N.lt_le_trans; [apply uuid4_bound|done]).
Qed.

(** ** [replace] only inserts when the new text embeds the old *)

Lemma replace_go_sublist old new s skip :
  old <> [] -> sublist old new ->
  sublist (drop skip s) (replace_go old new skip s).
Proof.
  intros Ho Hon. revert skip. induction s as [|c s IH]; intros skip.
  - by rewrite drop_nil.
  - destruct skip as [|skip]; [|apply IH]. cbn [drop replace_go].
    destruct (startswith old (c :: s)) eqn:E.
    + apply startswith_spec in E as [t Ht]. destruct old as [|o old]; [done|].
      simplify_eq/=. rewrite Nat.sub_0_r.
      specialize (IH (length old)). rewrite drop_app_length in IH.
      change (o :: old ++ t) with ((o :: old) ++ t). by apply sublist_app.
    + constructor. apply (IH 0).
Qed.

Lemma replace_sublist old new s : sublist old new -> sublist s (replace old new s).
Proof.
  intros H. destruct old as [|o old].
  - simpl. apply sublist_inserts_l. induction s as [|c s IH]; [done|].
    simpl. constructor. by apply sublist_inserts_l.
  - by apply (replace_go_sublist _ _ s 0).
Qed.

Lemma replace_length old new s :
  sublist old new -> length s <= length (replace old new s).
Proof. intros H. by apply sublist_length, replace_sublist. Qed.

(** The first place where a text occurs. *)
Lemma first_occurrence p s :
  contains p s = true ->
  exists pre post, s = pre ++ p ++ post /\
    forall j, j < length pre -> ~ occurs_at p s j.
Proof.
  induction s as [|c s IH]; simpl.
  - rewrite orb_false_r. intros [t Ht]%startswith_spec.
    exists [], t. split; [done|]. simpl. lia.
  - destruct (startswith p (c :: s)) eqn:E.
    + intros _. apply startswith_spec in E as [t Ht].
      exists [], t. split; [done|]. simpl. lia.
    + simpl. intros (pre & post & -> & H)%IH.
      exists (c :: pre), post. split; [done|].
      intros [|j] Hj; unfold occurs_at; simpl; [by rewrite E|].
      apply H. simpl in Hj. lia.
Qed.

(** A replacement by a longer text changes every text that has the old one. *)
Lemma replace_grows old new s :
  old <> [] -> sublist old new -> length old < length new ->
  contains old s = true -> length s < length (replace old new s).
Proof.
  intros Ho Hs Hl (pre & post & -> & H)%first_occurrence.
  rewrite replace_first by done.
  pose proof (replace_length old new post Hs).
  rewrite !length_app. lia.
Qed.

(** ** The groups of the list anchors *)

Lemma products_re_three : three_groups products_re.
Proof.
  unfold products_re, list_re. intros m g H. inv_matches. split; [done|].
  do 3 eexists. split; reflexivity.
Qed.

Lemma main_group_re_three : three_groups main_group_re.
Proof.
  unfold main_group_re, list_re. intros m g H. inv_matches. split; [done|].
  do 3 eexists. split; reflexivity.
Qed.

Lemma targets_re_three : three_groups targets_re.
Proof.
  unfold targets_re. intros m g H. inv_matches. split; [done|].
  do 3 eexists. split; reflexivity.
Qed.

Lemma target_attrs_re_three : three_groups target_attrs_re.
Proof.
  unfold target_attrs_re. intros m g H. inv_matches. split; [done|].
  do 3 eexists. split; reflexivity.
Qed.

Lemma list_anchors_three r : In r list_anchors -> three_groups r.
Proof.
  intros [<-|[<-|[<-|[<-|[]]]]];
    [apply products_re_three|apply main_group_re_three|apply targets_re_three|apply target_attrs_re_three].
Qed.

Lemma search_groups r s mt :
  three_groups r -> search r s = Some mt ->
  group mt 0 = group mt 1 ++ group mt 2 ++ group mt 3.
Proof.
  intros Hr (pre & post & _ & Hm & _)%search_some.
  apply match_here_sound in Hm as (_ & _ & Hm).
  apply Hr in Hm as (_ & g1 & g2 & g3 & H0 & Hg).
  unfold group. by rewrite Hg, H0.
Qed.

(** ** What a list append does *)

Lemma append_to_list_some r item content mt :
  three_groups r -> search r content = Some mt ->
  exists pre post,
    content = pre ++ group mt 1 ++ group mt 2 ++ group mt 3 ++ post /\
    (forall j, j < length pre -> match_here r (drop j content) = None) /\
    append_to_list r item content =
      pre ++ group mt 1 ++ group mt 2 ++ item ++ group mt 3 ++
      replace (group mt 0) (group mt 1 ++ (group mt 2 ++ item) ++ group mt 3) post.
Proof.
  intros Hr Hs. pose proof (search_groups _ _ _ Hr Hs) as Hg.
  destruct (search_some _ _ _ Hs) as (pre & post & Hc & Hm & Hl).
  exists pre, post. split_and!; [|done|].
  - rewrite Hc. change (group0 mt) with (group mt 0). rewrite Hg.
    by rewrite <- !app_assoc.
  - unfold append_to_list. rewrite Hs. cbv zeta.
    change (group0 mt) with (group mt 0) in Hc. rewrite Hc at 1.
    rewrite replace_first.
    + by rewrite <- !app_assoc.
    + apply match_here_sound in Hm as (_ & _ & Hm).
      by apply Hr in Hm as (Hne & _).
    + intros j Hj. rewrite <- Hc.
      intros Ho. pose proof (search_first_occurrence r content mt pre post Hs Hc Hl j Hj) as F.
      unfold occurs_at in Ho. change (group mt 0) with (group0 mt) in Ho. congruence.
Qed.

(** ** Every step only inserts text *)

Lemma insert_entry_sublist anchor marker entry content :
  sublist content (insert_entry anchor marker entry content).
Proof.
  unfold insert_entry. destruct (search anchor content); [|done].
  apply replace_sublist. by apply sublist_inserts_l.
Qed.

Lemma create_section_sublist begin block before content :
  sublist content (create_section begin block before content).
Proof.
  unfold create_section. destruct (negb _); [|done].
  apply replace_sublist. by apply sublist_inserts_l.
Qed.

Lemma append_to_list_sublist r item content :
  three_groups r -> sublist content (append_to_list r item content).
Proof.
  intros Hr. unfold append_to_list. destruct (search r content) as [mt|] eqn:E; [|done].
  cbv zeta. apply replace_sublist. rewrite (search_groups _ _ _ Hr E).
  apply sublist_app; [done|]. rewrite <- app_assoc. apply sublist_app; [done|].
  by apply sublist_inserts_l.
Qed.

Lemma patch_sublist k content : sublist content (patch k content).
Proof.
  unfold patch, steps. cbn [fold_left].
  repeat (etrans; [|first
    [ apply insert_entry_sublist
    | apply create_section_sublist
    | apply append_to_list_sublist;
      first [apply products_re_three | apply main_group_re_three
            | apply targets_re_three | apply target_attrs_re_three] ]]).
  done.
Qed.

(** ** Section creation *)

Lemma create_section_changes begin block before content :
  before <> [] -> block <> [] ->
  create_section begin block before content <> content <->
  contains begin content = false /\ contains before content = true.
Proof.
  intros Hb Hk. unfold create_section. split.
  - destruct (contains begin content); [done|]. simpl.
    destruct (contains before content) eqn:E; [done|].
    by rewrite replace_absent.
  - intros [-> E]. simpl. intros H.
    assert (length content < length (replace before (block ++ before) content)).
    { apply replace_grows; [done|by apply sublist_inserts_l| |done].
      rewrite length_app. destruct block; [done|simpl; lia]. }
    rewrite H in *. lia.
Qed.

(** ** A step whose anchor is missing is skipped *)

Lemma anchor_missing_skip k i content :
  1 <= i <= 14 -> anchor_missing i content = true ->
  nth (i - 1) (steps k) (fun c => c) content = content.
Proof.
  intros Hi. unfold anchor_missing.
  let rec cases := first [lia | (destruct i as [|i]; [|cases])] in cases;
    try lia; cbn [Nat.sub nth steps];
    unfold step1, step2, step3, step4, step5, step6, step7, step8, step9,
      step10, step11, step12, step13, step14,
      insert_entry, append_to_list, create_section;
    try (destruct (search _ content); [done|by intros _]).
  - intros H%negb_true_iff. destruct (negb _); [by apply replace_absent|done].
  - intros H%negb_true_iff. destruct (negb _); [by apply replace_absent|done].
Qed.

Ltac skip_step Hs i :=
  let H := fresh in
  pose proof (Hs i ltac:(lia)) as H; cbn [Nat.sub nth] in H; rewrite H; clear H.

Lemma no_anchor_patch k content :
  no_anchor_matches content = true -> patch k content = content.
Proof.
  unfold no_anchor_matches. rewrite forallb_forall. intros H.
  assert (Hs : forall i, 1 <= i <= 14 ->
    nth (i - 1) (steps k) (fun c => c) content = content).
  { intros i Hi. apply anchor_missing_skip; [done|]. apply H, in_seq. lia. }
  unfold patch, steps in *. cbn [fold_left].
  skip_step Hs 1; skip_step Hs 2; skip_step Hs 3; skip_step Hs 4;
  skip_step Hs 5; skip_step Hs 6; skip_step Hs 7; skip_step Hs 8;
  skip_step Hs 9; skip_step Hs 10; skip_step Hs 11; skip_step Hs 12;
  skip_step Hs 13; skip_step Hs 14. done.
Qed.

(** ** Reading a file *)

Lemma newlines_cons c s :
  c <> cr -> universal_newlines (c :: s) = c :: universal_newlines s.
Proof. intros H. simpl. by destruct (Ascii.eqb_spec c cr). Qed.

Lemma newlines_crlf s :
  universal_newlines (cr :: nl :: s) = nl :: universal_newlines s.
Proof. reflexivity. Qed.

Lemma newlines_cr s :
  head s <> Some nl -> universal_newlines (cr :: s) = nl :: universal_newlines s.
Proof.
  intros H. destruct s as [|c s]; [done|].
  cbn [universal_newlines]. change (Ascii.eqb cr cr) with true. cbv iota.
  destruct (Ascii.eqb_spec c nl) as [->|Hc]; [done|]. done.
Qed.

(** The three ways in which a text begins, as the reader sees them. *)
Lemma newlines_ind (P : str -> Prop) :
  P [] ->
  (forall c s, c <> cr -> P s -> P (c :: s)) ->
  (forall s, P s -> P (cr :: nl :: s)) ->
  (forall s, head s <> Some nl -> P s -> P (cr :: s)) ->
  forall s, P s.
Proof.
  intros H0 H1 H2 H3 s.
  assert (H : forall n s, length s <= n -> P s).
  { clear s. induction n as [|n IH]; intros [|c s] Hl; simpl in Hl; try done; [lia|].
    destruct (Ascii.eqb_spec c cr) as [->|Hc]; [|apply H1; [done|apply IH; lia]].
    destruct s as [|c' s]; [by apply H3|].
    destruct (Ascii.eqb_spec c' nl) as [->|Hc'].
    - apply H2, IH. simpl in Hl. lia.
    - apply H3; [by intros [= ?]|apply IH; lia]. }
  by apply (H (length s)).
Qed.

Lemma no_breaks_cons a p :
  no_breaks (a :: p) = true <-> a <> cr /\ a <> nl /\ no_breaks p = true.
Proof.
  unfold no_breaks. cbn [forallb]. rewrite !andb_true_iff, !negb_true_iff.
  destruct (Ascii.eqb_spec a cr), (Ascii.eqb_spec a nl); intuition congruence.
Qed.

Lemma no_breaks_app p q :
  no_breaks (p ++ q) = no_breaks p && no_breaks q.
Proof. apply forallb_app. Qed.

Lemma startswith_break p c s :
  p <> [] -> no_breaks p = true -> c = cr \/ c = nl ->
  startswith p (c :: s) = false.
Proof.
  destruct p as [|a p]; [done|]. intros _ (H1 & H2 & _)%no_breaks_cons Hc.
  simpl. destruct (Ascii.eqb_spec a c) as [->|]; [|done]. by destruct Hc.
Qed.

Lemma startswith_read p s :
  no_breaks p = true ->
  startswith p (universal_newlines s) = startswith p s.
Proof.
  revert s. induction p as [|a p IH]; intros s Hp; [by rewrite !startswith_nil|].
  pose proof Hp as (Ha1 & Ha2 & Hp')%no_breaks_cons.
  destruct s as [|c s]; [done|].
  destruct (Ascii.eqb_spec c cr) as [->|Hc].
  - rewrite (startswith_break (a :: p) cr) by auto.
    simpl. destruct (Ascii.eqb_spec a nl); [done|]. done.
  - rewrite newlines_cons by done. simpl. rewrite IH by done. done.
Qed.

(** A test for a text without line breaks gives the same on the characters
    stored and on the characters read. *)
Lemma contains_read p s :
  no_breaks p = true ->
  contains p (universal_newlines s) = contains p s.
Proof.
  intros Hp. destruct p as [|a p].
  { destruct s, (universal_newlines _); done. }
  induction s as [|c s Hc IH|s IH|s Hs IH] using newlines_ind.
  - done.
  - rewrite newlines_cons by done. cbn [contains].
    rewrite IH. f_equal.
    rewrite <- (newlines_cons c s Hc). by apply startswith_read.
  - rewrite newlines_crlf. cbn [contains].
    rewrite !(startswith_break (a :: p)) by auto. by rewrite IH.
  - rewrite newlines_cr by done. cbn [contains].
    rewrite !(startswith_break (a :: p)) by auto. by rewrite IH.
Qed.

Lemma newlines_app p t :
  no_breaks p = true ->
  universal_newlines (p ++ t) = p ++ universal_newlines t.
Proof.
  induction p as [|a p IH]; [done|]. intros (H1 & H2 & Hp)%no_breaks_cons.
  cbn [app]. rewrite newlines_cons by done. by rewrite IH.
Qed.

Lemma no_cr_cons a s : no_cr (a :: s) = true <-> a <> cr /\ no_cr s = true.
Proof.
  unfold no_cr. cbn [forallb]. rewrite andb_true_iff, negb_true_iff.
  destruct (Ascii.eqb_spec a cr); intuition congruence.
Qed.

(** A text without carriage returns is read as it is stored. *)
Lemma newlines_id s : no_cr s = true -> universal_newlines s = s.
Proof.
  induction s as [|a s IH]; [done|]. intros [Ha Hs]%no_cr_cons.
  rewrite newlines_cons by done. by rewrite IH.
Qed.

Lemma newlines_no_cr s : no_cr (universal_newlines s) = true.
Proof.
  induction s as [|c s Hc IH|s IH|s Hs IH] using newlines_ind.
  - done.
  - rewrite newlines_cons by done. apply no_cr_cons. done.
  - rewrite newlines_crlf. by apply no_cr_cons.
  - rewrite newlines_cr by done. by apply no_cr_cons.
Qed.

(** What is read is what is stored exactly when no carriage return is
    stored. *)
Lemma newlines_fixed s : universal_newlines s = s <-> no_cr s = true.
Proof.
  split; [|apply newlines_id]. intros <-. apply newlines_no_cr.
Qed.

Section OneLine.
Context {R : Type}.
Implicit Types (k : @kont R).

Lemma same_kont_shift a k k' : same_kont k k' -> same_kont (shift a k) (shift a k').
Proof. intros H m t g. apply H. Qed.

Lemma rep_read n s k k' :
  same_kont k k' ->
  rep n CHex (universal_newlines s) k = rep n CHex s k'.
Proof.
  revert s k k'. induction n as [|n IH]; intros s k k' Hk; [apply Hk|].
  destruct s as [|c s]; [done|].
  destruct (Ascii.eqb_spec c cr) as [->|Hc].
  - by destruct s as [|c' s]; [|cbn; destruct (Ascii.eqb c' nl)].
  - rewrite newlines_cons by done. cbn [rep].
    destruct (in_cls CHex c); [|done]. by apply IH, same_kont_shift.
Qed.

Lemma exec_read r s k k' :
  one_line r = true -> same_kont k k' ->
  exec r (universal_newlines s) k = exec r s k'.
Proof.
  revert s k k'. induction r as [l|lazy c|n c|r1 IH1 r2 IH2|r IH];
    intros s k k' Hr Hk; cbn [one_line] in Hr.
  - cbn [exec]. rewrite startswith_read by done.
    destruct (startswith l s) eqn:E; [|done].
    apply startswith_spec in E as [t ->].
    rewrite newlines_app by done. rewrite !drop_app_length. apply Hk.
  - done.
  - destruct c; try done. by apply rep_read.
  - apply andb_true_iff in Hr as [Hr1 Hr2]. cbn [exec].
    apply IH1; [done|]. intros m1 t1 g1. apply IH2; [done|].
    intros m2 t2 g2. apply Hk.
  - cbn [exec]. apply IH; [done|]. intros m t g. apply Hk.
Qed.
End OneLine.

Lemma match_here_read r s :
  one_line r = true ->
  match_here r (universal_newlines s) = match_here r s.
Proof. intros Hr. by apply exec_read. Qed.

Lemma one_line_sound r m g : one_line r = true -> matches r m g -> no_breaks m = true.
Proof.
  intros Hr Hm. induction Hm as [l|lazy c m Hc|c m Hc|r1 r2 m1 m2 g1 g2 H1 IH1 H2 IH2|r m g H IH];
    cbn [one_line] in Hr; try done.
  - destruct c; try done. unfold no_breaks.
    rewrite forallb_forall in Hc |- *. intros a Ha. specialize (Hc a Ha).
    destruct (Ascii.eqb_spec a cr) as [->|]; [done|].
    by destruct (Ascii.eqb_spec a nl) as [->|].
  - apply andb_true_iff in Hr as [Hr1 Hr2]. rewrite no_breaks_app, IH1, IH2; done.
  - auto.
Qed.

(** A pattern that neither matches the empty text nor a line break starts
    at no line break. *)
Lemma match_here_break r c s :
  one_line r = true -> match_here r [] = None -> c = cr \/ c = nl ->
  match_here r (c :: s) = None.
Proof.
  intros Hr He Hc. destruct (match_here r (c :: s)) as [m|] eqn:E; [|done].
  exfalso. apply match_here_sound in E as (rest & E & Hm).
  pose proof (one_line_sound _ _ _ Hr Hm) as Hb.
  destruct (group0 m) as [|a m0] eqn:E0.
  - assert (is_Some (match_here r ([] ++ []))) as [? ?]
      by (eapply match_here_complete; exact Hm).
    simpl in *. congruence.
  - simpl in E. injection E as Ea _. subst a.
    apply no_breaks_cons in Hb as (H1 & H2 & _). by destruct Hc.
Qed.

Lemma search_read r s :
  one_line r = true -> match_here r [] = None ->
  search r (universal_newlines s) = search r s.
Proof.
  intros Hr He.
  induction s as [|c s Hc IH|s IH|s Hs IH] using newlines_ind.
  - done.
  - rewrite newlines_cons by done. cbn [search]. rewrite IH.
    rewrite <- (newlines_cons c s Hc). by rewrite match_here_read.
  - rewrite newlines_crlf. cbn [search].
    rewrite !(match_here_break r) by auto. done.
  - rewrite newlines_cr by done. cbn [search].
    rewrite !(match_here_break r) by auto. done.
Qed.

(** ** The main target, as the first script looks for it *)

Lemma target_re_shape m g :
  matches AddTestTarget.target_re m g <->
  exists key, good_key key /\ m = key ++ lit " /* DevCam */" /\ g = [key].
Proof.
  unfold AddTestTarget.target_re. split.
  - intros H. inversion H as [| | |? ? m1 m2 g1 g2 H1 H2|]; subst.
    inversion H1 as [| | | |? ? ? H3]; subst.
    inversion H3 as [| |? ? H4| |]; subst. inversion H2; subst.
    exists m1. split_and!; [by split|done|done].
  - intros (key & [Hl Hh] & -> & ->).
    apply (matches_cat _ _ key _ [key] []); [|constructor].
    constructor. rewrite <- Hl. by constructor.
Qed.

Lemma match_here_keyed s :
  is_Some (match_here AddTestTarget.target_re s) <-> keyed s.
Proof.
  split.
  - intros [mt (rest & -> & (key & Hk & E & _)%target_re_shape)%match_here_sound].
    exists key, rest. rewrite E, <- app_assoc. done.
  - intros (key & t & Hk & ->). rewrite app_assoc.
    eapply match_here_complete, target_re_shape. eauto.
Qed.

Lemma find_from_none p s i :
  (0 <= i)%Z -> (find_from p s i = -1)%Z <-> contains p s = false.
Proof.
  revert i. induction s as [|c s IH]; intros i Hi; simpl.
  - destruct (startswith p []); simpl; [split; [lia|done]|done].
  - destruct (startswith p (c :: s)); simpl; [split; [lia|done]|].
    apply IH. lia.
Qed.

Lemma good_key_no_breaks key : good_key key -> no_breaks key = true.
Proof.
  intros [_ H]. unfold no_breaks. rewrite forallb_forall in H |- *.
  intros a Ha. specialize (H a Ha).
  destruct (Ascii.eqb_spec a cr) as [->|]; [done|].
  by destruct (Ascii.eqb_spec a nl) as [->|].
Qed.

(** The first script finds the same on the characters read as on the
    characters stored. *)
Lemma search_target_read s :
  search AddTestTarget.target_re (universal_newlines s) =
    search AddTestTarget.target_re s.
Proof. by apply search_read. Qed.

Lemma find_target_read s m :
  search AddTestTarget.target_re s = Some m ->
  (find (group m 1 ++ lit " /* DevCam */,") (universal_newlines s) =? -1)%Z =
  (find (group m 1 ++ lit " /* DevCam */,") s =? -1)%Z.
Proof.
  intros (pre & post & _ & Hm & _)%search_some.
  apply match_here_sound in Hm as (_ & _ & (key & Hk & _ & Eg)%target_re_shape).
  unfold group. rewrite Eg. cbn [nth].
  assert (Hb : no_breaks (key ++ lit " /* DevCam */,") = true)
    by (by rewrite no_breaks_app, good_key_no_breaks).
  pose proof (contains_read _ s Hb) as Hc.
  unfold find.
  destruct (contains (key ++ lit " /* DevCam */,") s) eqn:E.
  - assert (H1 : find_from (key ++ lit " /* DevCam */,") (universal_newlines s) 0 <> (-1)%Z)
      by (rewrite find_from_none by lia; congruence).
    assert (H2 : find_from (key ++ lit " /* DevCam */,") s 0 <> (-1)%Z)
      by (rewrite find_from_none by lia; congruence).
    apply Z.eqb_neq in H1, H2. by rewrite H1, H2.
  - assert (H1 : find_from (key ++ lit " /* DevCam */,") (universal_newlines s) 0 = (-1)%Z)
      by (by rewrite find_from_none by lia).
    assert (H2 : find_from (key ++ lit " /* DevCam */,") s 0 = (-1)%Z)
      by (by rewrite find_from_none by lia).
    by rewrite H1, H2.
Qed.

Lemma name_read s :
  contains (lit "DevCamTests") (universal_newlines s) =
    contains (lit "DevCamTests") s.
Proof. by apply contains_read. Qed.

(** ** The runs of the two scripts *)

Lemma main2_absent urandom16 w content :
  files w !! project_path = Some (Text content) ->
  contains (lit "DevCamTests") content = false ->
  main urandom16 w =
    (Ret tt,
     after w (<[project_path :=
                  Text (patch (run_keys urandom16 (draws w))
                          (universal_newlines content))]> (files w))
       ["Successfully added DevCamTests target to Xcode project!"%string] 11).
Proof.
  intros Hf Hc.
  unfold main, mbind, script_bind, read_file. rewrite Hf, name_read, Hc.
  unfold generate_uuid, mbind, script_bind, uuid4_call, mret, script_ret,
    write_file, print, after.
  cbn [draws files stdout].
  unfold run_keys, key_of.
  repeat f_equal; try lia.
Qed.

Lemma main2_present urandom16 w content :
  files w !! project_path = Some (Text content) ->
  contains (lit "DevCamTests") content = true ->
  main urandom16 w =
    (Exit 0, after w (files w) ["Test target already exists!"%string] 0).
Proof.
  intros Hf Hc.
  unfold main, mbind, script_bind, read_file. rewrite Hf, name_read, Hc.
  unfold print, exit, after. cbn [draws files stdout]. by rewrite Nat.add_0_r.
Qed.

Lemma main2_missing urandom16 w :
  files w !! project_path = None ->
  main urandom16 w = (Raise FileNotFoundError, w).
Proof.
  intros Hf. unfold main, mbind, script_bind, read_file. by rewrite Hf.
Qed.

Lemma main2_binary urandom16 w bytes :
  files w !! project_path = Some (Binary bytes) ->
  main urandom16 w = (Raise UnicodeDecodeError, w).
Proof.
  intros Hf. unfold main, mbind, script_bind, read_file. by rewrite Hf.
Qed.

Lemma main1_present urandom16 w content :
  files w !! AddTestTarget.pbxproj_path = Some (Text content) ->
  contains (lit "DevCamTests") content = true ->
  AddTestTarget.main urandom16 w =
    (Exit 0, after w (files w) ["Test target already exists"%string] 0).
Proof.
  intros Hf Hc.
  unfold AddTestTarget.main, mbind, script_bind, read_file.
  rewrite Hf, name_read, Hc.
  unfold print, exit, after. cbn [draws files stdout]. by rewrite Nat.add_0_r.
Qed.

Lemma main1_missing urandom16 w :
  files w !! AddTestTarget.pbxproj_path = None ->
  AddTestTarget.main urandom16 w = (Raise FileNotFoundError, w).
Proof.
  intros Hf. unfold AddTestTarget.main, mbind, script_bind, read_file. by rewrite Hf.
Qed.

Lemma main1_binary urandom16 w bytes :
  files w !! AddTestTarget.pbxproj_path = Some (Binary bytes) ->
  AddTestTarget.main urandom16 w = (Raise UnicodeDecodeError, w).
Proof.
  intros Hf. unfold AddTestTarget.main, mbind, script_bind, read_file. by rewrite Hf.
Qed.

Lemma main1_absent urandom16 w content :
  files w !! AddTestTarget.pbxproj_path = Some (Text content) ->
  contains (lit "DevCamTests") content = false ->
  AddTestTarget.main urandom16 w =
    let fs := <[backup_path := Text content]> (files w) in
    let adding := "Adding test target to Xcode project..."%string in
    match search AddTestTarget.target_re content with
    | None => (Exit 1, after w fs [adding; "Could not find main target"%string] 0)
    | Some m =>
        if (find (group m 1 ++ lit " /* DevCam */,") content =? -1)%Z
        then (Exit 1, after w fs [adding; "Could not find insertion point"%string] 7)
        else (Ret tt, after w fs
                [adding; "Manual configuration required. Please use Xcode GUI to add test target."%string] 7)
    end.
Proof.
  intros Hf Hc.
  unfold AddTestTarget.main, mbind, script_bind, read_file.
  rewrite Hf, name_read, Hc.
  unfold print, copy_file, mret, script_ret.
  cbn [draws files stdout]. rewrite Hf.
  cbn [draws files stdout].
  rewrite search_target_read.
  destruct (search AddTestTarget.target_re content) as [m|] eqn:Es.
  - rewrite (find_target_read _ _ Es).
    unfold AddTestTarget.generate_uuid, mbind, script_bind, uuid4_call, mret, script_ret.
    cbn [draws files stdout].
    destruct (_ =? _)%Z; unfold exit, after, backup_path; cbn [draws files stdout];
      rewrite <- !app_assoc; repeat f_equal; lia.
  - unfold exit, after, backup_path; cbn [draws files stdout].
    rewrite <- !app_assoc. repeat f_equal; lia.
Qed.

(** ** Carriage returns *)

Lemma no_cr_app a b : no_cr (a ++ b) = no_cr a && no_cr b.
Proof. apply forallb_app. Qed.

Lemma replace_go_no_cr old new n s :
  no_cr new = true -> no_cr s = true -> no_cr (replace_go old new n s) = true.
Proof.
  intros Hn. revert n. induction s as [|c s IH]; intros n Hs; [done|].
  apply no_cr_cons in Hs as [Hc Hs]. cbn [replace_go].
  destruct n as [|n]; [|by apply IH].
  destruct (startswith old (c :: s)).
  - rewrite no_cr_app, Hn. by apply IH.
  - apply no_cr_cons. split; [done|by apply IH].
Qed.

(** Replacing in a text without carriage returns by one without them brings
    none. *)
Lemma replace_no_cr old new s :
  no_cr new = true -> no_cr s = true -> no_cr (replace old new s) = true.
Proof.
  intros Hn Hs. destruct old as [|o old]; [|by apply replace_go_no_cr].
  unfold replace. rewrite no_cr_app, Hn. cbn [andb].
  induction s as [|c s IH]; [done|]. apply no_cr_cons in Hs as [Hc Hs].
  cbn [flat_map]. apply no_cr_cons. split; [done|].
  rewrite no_cr_app, Hn. by apply IH.
Qed.

Lemma good_key_no_cr key : good_key key -> no_cr key = true.
Proof.
  intros [_ H]. unfold no_cr. rewrite forallb_forall in H |- *.
  intros a Ha. specialize (H a Ha). by destruct (Ascii.eqb_spec a cr) as [->|].
Qed.

Lemma good_keys_no_cr k :
  good_keys k -> Forall (fun key => no_cr key = true) (key_list k).
Proof.
  intros H. eapply Forall_impl; [exact H|]. intros key. apply good_key_no_cr.
Qed.

Ltac template_no_cr Hk :=
  let H := fresh in
  pose proof (good_keys_no_cr _ Hk) as H; unfold key_list in H;
  repeat (apply Forall_cons in H as [? H]);
  unfold new_file_ref, new_group, new_frameworks, new_target, container_proxy,
    target_dependency, new_attrs_item, new_resources, new_sources,
    new_debug_config, new_config_list, build_phase, build_config, ln;
  rewrite ?no_cr_app;
  repeat match goal with E : no_cr _ = true |- _ => rewrite ?E; clear E end;
  vm_compute; reflexivity.

Lemma insert_entry_no_cr anchor marker entry c :
  no_cr marker = true -> no_cr entry = true -> no_cr c = true ->
  no_cr (insert_entry anchor marker entry c) = true.
Proof.
  intros Hm He Hc. unfold insert_entry. destruct (search anchor c); [|done].
  apply replace_no_cr; [|done]. by rewrite no_cr_app, He, Hm.
Qed.

Lemma create_section_no_cr begin block before c :
  no_cr before = true -> no_cr block = true -> no_cr c = true ->
  no_cr (create_section begin block before c) = true.
Proof.
  intros Hm He Hc. unfold create_section. destruct (negb _); [|done].
  apply replace_no_cr; [|done]. by rewrite no_cr_app, He, Hm.
Qed.

Lemma append_to_list_no_cr r item c :
  three_groups r -> no_cr item = true -> no_cr c = true ->
  no_cr (append_to_list r item c) = true.
Proof.
  intros Hr Hi Hc. unfold append_to_list.
  destruct (search r c) as [mt|] eqn:E; [|done]. cbv zeta.
  pose proof (search_groups r c mt Hr E) as Hg.
  apply replace_no_cr; [|done].
  apply search_some in E as (pre & post & -> & _ & _).
  change (group0 mt) with (group mt 0) in Hc.
  rewrite Hg, !no_cr_app in Hc.
  apply andb_true_iff in Hc as [_ [[H1 [H2 H3]%andb_true_iff]%andb_true_iff _]%andb_true_iff].
  by rewrite !no_cr_app, H1, H2, H3, Hi.
Qed.

Lemma step_no_cr k i c :
  good_keys k -> no_cr c = true ->
  no_cr (nth i (steps k) (fun c => c) c) = true.
Proof.
  intros Hk Hc. unfold steps.
  do 14 (destruct i as [|i]; [cbn [nth];
    unfold step1, step2, step3, step4, step5, step6, step7, step8, step9,
      step10, step11, step12, step13, step14;
    first [ apply insert_entry_no_cr; [by vm_compute|template_no_cr Hk|done]
          | apply create_section_no_cr; [by vm_compute|template_no_cr Hk|done]
          | apply append_to_list_no_cr;
            [first [apply products_re_three | apply main_group_re_three
                   | apply targets_re_three | apply target_attrs_re_three]
            |template_no_cr Hk|done] ]|]).
  by destruct i.
Qed.

Lemma fold_no_cr (l : list (str -> str)) c :
  (forall f, In f l -> forall c, no_cr c = true -> no_cr (f c) = true) ->
  no_cr c = true -> no_cr (fold_left (fun c step => step c) l c) = true.
Proof.
  revert c. induction l as [|f l IH]; intros c Hl Hc; [done|].
  simpl. apply IH; [intros g Hg; apply Hl; by right|]. apply Hl; [by left|done].
Qed.

(** The fourteen steps bring no carriage return. *)
Lemma patch_no_cr k c :
  good_keys k -> no_cr c = true -> no_cr (patch k c) = true.
Proof.
  intros Hk. unfold patch. apply fold_no_cr.
  intros f Hf c' Hc'. apply (In_nth _ _ (fun c => c)) in Hf as (i & _ & <-).
  by apply step_no_cr.
Qed.

(** What a run wrote is read as it was written. *)
Lemma patch_read k s :
  good_keys k ->
  universal_newlines (patch k (universal_newlines s)) =
    patch k (universal_newlines s).
Proof. intros Hk. apply newlines_id, patch_no_cr; [done|apply newlines_no_cr]. Qed.

(** ** The steps one after the other *)

Lemma patch_from k i content :
  1 <= i <= 14 ->
  patch k content =
    fold_left (fun c step => step c) (drop i (steps k))
      (nth (i - 1) (steps k) (fun c => c) (content_before k i content)).
Proof.
  intros Hi. unfold patch, content_before.
  rewrite <- (take_drop (i - 1) (steps k)) at 1. rewrite fold_left_app. 
  assert (Hd : drop (i - 1) (steps k) =
               nth (i - 1) (steps k) (fun c => c) :: drop i (steps k)).
  { do 15 (destruct i as [|i]; [try lia; try reflexivity|]). lia. }
  by rewrite Hd.
Qed.

Lemma content_before_succ k i content :
  1 <= i <= 14 ->
  content_before k (S i) content =
    nth (i - 1) (steps k) (fun c => c) (content_before k i content).
Proof.
  intros Hi. unfold content_before, steps.
  do 15 (destruct i as [|i];
    [first [lia | cbn [Nat.sub firstn fold_left nth]; reflexivity]|]).
  lia.
Qed.

Lemma content_before_first k content : content_before k 1 content = content.
Proof. reflexivity. Qed.

Lemma content_before_last k content : content_before k 15 content = patch k content.
Proof. unfold content_before, patch, steps. cbn [Nat.sub firstn]. reflexivity. Qed.

(** The steps in full. *)
Lemma patch_steps k content :
  patch k content =
    step14 k (step13 k (step12 k (step11 k (step10 k (step9 k (step8 k
      (step7 k (step6 k (step5 k (step4 k (step3 k (step2 k
        (step1 k content))))))))))))).
Proof. reflexivity. Qed.

(** Without a step whose anchor is missing, the others give the same. *)
Lemma patch_without k i content :
  1 <= i <= 14 -> anchor_missing i (content_before k i content) = true ->
  patch k content =
    fold_left (fun c step => step c)
      (take (i - 1) (steps k) ++ drop i (steps k)) content.
Proof.
  intros Hi Hm. rewrite (patch_from k i) by done.
  rewrite anchor_missing_skip by done.
  by rewrite fold_left_app.
Qed.

(** ** Insertions in front of every occurrence of a marker *)

Lemma safe_of_crit x t m :
  (forall u rest, crit (mask t) m u rest x = true) -> safe x t m.
Proof.
  intros H. split.
  - specialize (H [] []). unfold crit in H. by destruct x.
  - intros rest.
    destruct (crit_conds t m rest x (H (mask rest) rest)) as (_ & H1 & H2). done.
Qed.

Lemma safe_of_crit_sym x t m :
  x <> [] -> (forall u, crit_sym (mask x) (mask t) m u 0 = true) -> safe x t m.
Proof.
  intros Hx H. split; [done|]. intros rest.
  destruct (crit_sym_conds t m rest x 0 (H (mask rest))) as [H1 H2].
  split; [|done]. intros j Hj. apply H1. lia.
Qed.

Section Everywhere.
Variables (x t m : str).
Hypothesis m_nonempty : m <> [].

Let ins := replace m (t ++ m).

Lemma everywhere_unfold pre post :
  (forall j, j < length pre -> ~ occurs_at m (pre ++ m ++ post) j) ->
  ins (pre ++ m ++ post) = pre ++ t ++ m ++ ins post.
Proof.
  intros H. unfold ins. rewrite replace_first by done. by rewrite <- app_assoc.
Qed.

Lemma everywhere_absent a s :
  safe x t m ->
  contains x (a ++ s) = false -> contains x (a ++ ins s) = false.
Proof.
  intros [Hx Hs]. remember (length s) as n eqn:Hn. revert s a Hn.
  induction n as [n IH] using lt_wf_ind. intros s a -> H.
  destruct (contains m s) eqn:E; [|unfold ins; by rewrite replace_absent].
  apply first_occurrence in E as (pre & post & -> & Hj).
  rewrite everywhere_unfold by done.
  destruct (Hs post) as [H1 H2].
  assert (H' : contains x ((a ++ pre) ++ t ++ m ++ post) = false).
  { apply insert_absent; [done|done|done|]. by rewrite <- app_assoc. }
  replace (a ++ pre ++ t ++ m ++ ins post) with ((a ++ pre ++ t ++ m) ++ ins post)
    by (by rewrite <- !app_assoc).
  apply (IH (length post)); [rewrite !length_app; destruct m; [done|simpl; lia]|done|].
  rewrite <- !app_assoc in H'. by rewrite <- !app_assoc.
Qed.

Lemma everywhere_once a s :
  safe x t m -> t <> [] ->
  at_most_once x (a ++ s) -> at_most_once x (a ++ ins s).
Proof.
  intros [Hx Hs] Ht. remember (length s) as n eqn:Hn. revert s a Hn.
  induction n as [n IH] using lt_wf_ind. intros s a -> H.
  destruct (contains m s) eqn:E; [|unfold ins; by rewrite replace_absent].
  apply first_occurrence in E as (pre & post & -> & Hj).
  rewrite everywhere_unfold by done.
  destruct (Hs post) as [H1 H2].
  assert (H' : at_most_once x ((a ++ pre) ++ t ++ m ++ post)).
  { apply insert_at_most_once; [done|done|done|done|]. by rewrite <- app_assoc. }
  replace (a ++ pre ++ t ++ m ++ ins post) with ((a ++ pre ++ t ++ m) ++ ins post)
    by (by rewrite <- !app_assoc).
  apply (IH (length post)); [rewrite !length_app; destruct m; [done|simpl; lia]|done|].
  rewrite <- !app_assoc in H'. by rewrite <- !app_assoc.
Qed.
End Everywhere.

(** ** A text that an insertion does not cut *)

(** An occurrence in [a ++ b] lies in [a], lies in [b], or ends [a] and
    begins [b]. *)
Lemma contains_app_cases p a b :
  contains p (a ++ b) = true ->
  contains p a = true \/ contains p b = true \/
  exists n a', 0 < n < length p /\ a = a' ++ take n p /\
               startswith (drop n p) b = true.
Proof.
  induction a as [|c a IH]; [by auto|].
  cbn [app contains]. intros [H|H]%orb_true_iff.
  - change (c :: a ++ b) with ((c :: a) ++ b) in H.
    apply startswith_app_inv in H as [H|(H1 & H2 & H3)].
    + left. cbn [contains]. by rewrite H.
    + right. right. exists (length (c :: a)), [].
      split; [simpl in *; lia|]. split; [|done].
      rewrite H2 at 1. by rewrite take_app_length.
  - apply IH in H as [H|[H|(n & a' & Hn & -> & H)]].
    + left. rewrite H. apply orb_true_r.
    + by auto.
    + right. right. by exists n, (c :: a').
Qed.

Lemma overlaps_prefix y m rest :
  startswith y (m ++ rest) = true -> overlaps y m = true.
Proof.
  unfold overlaps. revert m. induction y as [|a y IH]; intros m; [done|].
  destruct m as [|b m]; [by rewrite orb_true_r|].
  cbn [app startswith]. destruct (Ascii.eqb_spec a b) as [->|Hne]; [|done].
  rewrite Ascii.eqb_refl. apply IH.
Qed.

Lemma clear_of_spec m e n rest :
  clear_of m e = true -> 0 < n < length e ->
  startswith (drop n e) (m ++ rest) = false.
Proof.
  unfold clear_of. rewrite forallb_forall. intros H Hn.
  destruct (startswith (drop n e) (m ++ rest)) eqn:E; [|done].
  apply overlaps_prefix in E. specialize (H n). rewrite E in H.
  assert (negb true = true); [|done]. apply H, in_seq. lia.
Qed.

Section Keeping.
Variables (t m : str).
Hypothesis m_nonempty : m <> [].

Let ins := replace m (t ++ m).

(** A text that the marker does not cut survives the insertions. *)
Lemma everywhere_keeps e a s :
  clear_of m e = true ->
  contains e (a ++ s) = true -> contains e (a ++ ins s) = true.
Proof.
  intros He. remember (length s) as n eqn:Hn. revert s a Hn.
  induction n as [n IH] using lt_wf_ind. intros s a -> H.
  destruct (contains m s) eqn:E; [|unfold ins; by rewrite replace_absent].
  apply first_occurrence in E as (pre & post & -> & Hj).
  unfold ins. rewrite replace_first by done. fold ins.
  replace (a ++ pre ++ (t ++ m) ++ ins post) with ((a ++ pre ++ t) ++ m ++ ins post)
    by (by rewrite <- !app_assoc).
  replace (a ++ pre ++ m ++ post) with ((a ++ pre) ++ m ++ post) in H
    by (by rewrite <- !app_assoc).
  apply contains_app_cases in H as [H|[H|(j & a' & Hj' & _ & H)]].
  - apply contains_app_l. rewrite app_assoc. by apply contains_app_l.
  - apply contains_app_r.
    apply (IH (length post)); [rewrite !length_app; destruct m; [done|simpl; lia]|done|done].
  - by rewrite (clear_of_spec m e j post He Hj') in H.
Qed.

(** A text whose last character may begin the marker survives them too,
    when the marker never follows the rest of it: the text [g], which the
    two would make, is absent. *)
Lemma everywhere_keeps_guarded e g a s :
  clear_but_last m e = true ->
  contains g (take (length e - 1) e ++ m) = true ->
  contains g (a ++ s) = false ->
  contains e (a ++ s) = true -> contains e (a ++ ins s) = true.
Proof.
  intros He Hg. remember (length s) as n eqn:Hn. revert s a Hn.
  induction n as [n IH] using lt_wf_ind. intros s a -> Hab H.
  destruct (contains m s) eqn:E; [|unfold ins; by rewrite replace_absent].
  apply first_occurrence in E as (pre & post & -> & Hj).
  unfold ins. rewrite replace_first by done. fold ins.
  replace (a ++ pre ++ (t ++ m) ++ ins post) with ((a ++ pre ++ t) ++ m ++ ins post)
    by (by rewrite <- !app_assoc).
  replace (a ++ pre ++ m ++ post) with ((a ++ pre) ++ m ++ post) in H, Hab
    by (by rewrite <- !app_assoc).
  apply contains_app_cases in H as [H|[H|(j & a' & Hj' & Ea & H)]].
  - apply contains_app_l. rewrite app_assoc. by apply contains_app_l.
  - apply contains_app_r.
    apply (IH (length post)); [rewrite !length_app; destruct m; [done|simpl; lia]|done| |done].
    destruct (contains g (m ++ post)) eqn:Eg; [|done].
    by rewrite (contains_app_r _ _ _ Eg) in Hab.
  - exfalso.
    destruct (decide (j < length e - 1)) as [Hlt|Hge].
    + pose proof (overlaps_prefix _ _ _ H) as Ho.
      unfold clear_but_last in He. rewrite forallb_forall in He.
      specialize (He j). rewrite Ho in He.
      assert (negb true = true); [|done]. apply He, in_seq. lia.
    + assert (j = length e - 1) as -> by lia.
      assert (contains g ((a ++ pre) ++ m ++ post) = true); [|congruence].
      rewrite Ea, <- app_assoc. apply contains_app_r.
      rewrite app_assoc. by apply contains_app_l.
Qed.
End Keeping.

(** ** The checks, step by step *)

Lemma guarded_table u rest :
  forallb (fun j => forallb (crit (ins_image j) (ins_marker j) u rest) guarded)
    entry_steps = true.
Proof. vm_compute. reflexivity. Qed.

Lemma file_ref_table u :
  crit_sym mF mF EFR u 1 &&
  forallb (fun j => crit_sym mF (ins_image j) (ins_marker j) u 0)
    [2; 3; 6; 7; 8; 11; 12; 13; 14] = true.
Proof. vm_compute. reflexivity. Qed.

Lemma target_table u :
  crit_sym mT mT ENT u 1 &&
  forallb (fun j => crit_sym mT (ins_image j) (ins_marker j) u 0)
    [1; 2; 3; 7; 8; 11; 12; 13; 14] = true.
Proof. vm_compute. reflexivity. Qed.

Lemma debug_table u :
  crit_sym mD mG EBC u 1 &&
  forallb (fun j => crit_sym mD (ins_image j) (ins_marker j) u 0)
    [1; 2; 3; 6; 7; 8; 11; 12; 14] = true.
Proof. vm_compute. reflexivity. Qed.

Lemma release_table u :
  crit_sym mR mD EBC u 0 && crit_sym mR mR EBC u 1 &&
  forallb (fun j => crit_sym mR (ins_image j) (ins_marker j) u 0)
    [1; 2; 3; 6; 7; 8; 11; 12; 14] = true.
Proof. vm_compute. reflexivity. Qed.

Lemma ends_table :
  forallb (fun j =>
    forallb (fun x => clear_but_last (ins_marker j) x &&
                      contains (x ++ lit "*") (take (length x - 1) x ++ ins_marker j))
      section_ends) entry_steps = true.
Proof. vm_compute. reflexivity. Qed.

Lemma file_ref_end_table :
  forallb (fun j => clear_but_last (mask (ins_marker j)) (mF ++ mask EFR))
    [2; 3; 6; 7; 8; 11; 12; 13; 14] = true.
Proof. vm_compute. reflexivity. Qed.

Lemma target_end_table :
  forallb (fun j => clear_but_last (mask (ins_marker j)) (mT ++ mask ENT))
    [7; 8; 11; 12; 13; 14] = true.
Proof. vm_compute. reflexivity. Qed.

Lemma configs_end_table :
  clear_but_last (mask (ins_marker 14)) (mD ++ mR ++ mask EBC) = true.
Proof. vm_compute. reflexivity. Qed.

(** ** The steps as insertions *)

Ltac mask_inserted Hk :=
  destruct (good_keys_masks _ Hk) as (?&?&?&?&?&?&?&?&?&?&?);
  unfold ins_image, ins_text, new_file_ref, new_group, new_frameworks, new_target,
    container_proxy, target_dependency, new_resources, new_sources,
    new_debug_config, new_config_list, build_phase, build_config, ln;
  rewrite ?mask_app;
  repeat match goal with H : mask _ = zeros |- _ => rewrite ?H; clear H end;
  vm_compute; reflexivity.

Lemma mask_ins_text k j : good_keys k -> mask (ins_text k j) = ins_image j.
Proof.
  intros Hk.
  do 15 (destruct j as [|j]; [first [reflexivity | mask_inserted Hk]|]).
  reflexivity.
Qed.

Lemma ins_text_nonempty k j : In j entry_steps -> ins_text k j <> [].
Proof.
  intros Hj. simpl in Hj.
  repeat (destruct Hj as [<-|Hj]; [by vm_compute|]). done.
Qed.

Lemma ins_marker_nonempty j : In j entry_steps -> ins_marker j <> [].
Proof.
  intros Hj. simpl in Hj.
  repeat (destruct Hj as [<-|Hj]; [by vm_compute|]). done.
Qed.

(** An entry step returns its content or inserts its text in front of every
    occurrence of its marker. *)
Lemma entry_step_shape k j s :
  In j entry_steps ->
  nth (j - 1) (steps k) (fun c => c) s = s \/
  nth (j - 1) (steps k) (fun c => c) s =
    replace (ins_marker j) (ins_text k j ++ ins_marker j) s.
Proof.
  intros Hj. simpl in Hj.
  repeat (destruct Hj as [<-|Hj];
    [cbn [Nat.sub nth steps ins_marker ins_text];
     unfold step1, step2, step3, step6, step7, step8, step11, step12, step13,
       step14, insert_entry, create_section;
     first [destruct (search _ s); by auto | destruct (negb _); by auto]|]).
  done.
Qed.

Lemma step_number j :
  1 <= j <= 14 -> In j entry_steps \/ In j list_steps.
Proof.
  intros Hj. do 15 (destruct j as [|j]; [simpl; lia|]). lia.
Qed.

Lemma clear_but_last_mask m e :
  clear_but_last (mask m) (mask e) = true -> clear_but_last m e = true.
Proof.
  unfold clear_but_last. rewrite !forallb_forall, mask_length. intros H n Hn.
  specialize (H n Hn). apply negb_true_iff in H. apply negb_true_iff.
  destruct (overlaps (drop n e) m) eqn:E; [|done].
  unfold overlaps in *. rewrite <- mask_drop in H.
  apply orb_true_iff in E as [E|E]; apply (startswith_map mask_char) in E;
    fold (mask (drop n e)) in E; fold (mask m) in E; rewrite E in H;
    by rewrite ?orb_true_r in H.
Qed.

Lemma take_app_last {A} (u x : list A) :
  x <> [] -> take (length (u ++ x) - 1) (u ++ x) = u ++ take (length x - 1) x.
Proof.
  intros Hx. rewrite length_app.
  replace (length u + length x - 1) with (length u + (length x - 1))
    by (destruct x; [done|simpl; lia]).
  by rewrite take_app_add.
Qed.

Section Stages.
Variables (k : keys) (d : str).
Hypothesis Hk : good_keys k.
Hypothesis Hlist : forall i, In i list_steps ->
  nth (i - 1) (steps k) (fun c => c) (content_before k i d) = content_before k i d.

Lemma stage_succ i :
  i < 14 -> stage k d (S i) = nth i (steps k) (fun c => c) (stage k d i).
Proof.
  intros Hi. unfold stage. rewrite (content_before_succ k (S i)) by lia.
  by rewrite Nat.sub_succ, Nat.sub_0_r.
Qed.

Lemma stage_first : stage k d 0 = d.
Proof. reflexivity. Qed.

Lemma stage_last : stage k d 14 = patch k d.
Proof. apply content_before_last. Qed.

(** A property of the content that every entry step keeps holds from one
    stage to every later one: the list steps leave the content as it is. *)
Lemma stages_keep (P : str -> Prop) lo hi :
  hi <= 14 -> P (stage k d lo) ->
  (forall j, lo < j <= hi -> In j entry_steps ->
     forall s, P s -> P (replace (ins_marker j) (ins_text k j ++ ins_marker j) s)) ->
  forall i, lo <= i <= hi -> P (stage k d i).
Proof.
  intros Hhi H0 Hstep i [Hlo Hi]. induction i as [|i IH].
  - by replace lo with 0 in H0 by lia.
  - destruct (decide (lo = S i)) as [<-|Hne]; [done|].
    assert (HP : P (stage k d i)) by (apply IH; lia).
    rewrite stage_succ by lia.
    destruct (step_number (S i)) as [He|Hl]; [lia| |].
    + destruct (entry_step_shape k (S i) (stage k d i) He) as [E|E];
        rewrite Nat.sub_succ, Nat.sub_0_r in E; rewrite E; [done|].
      apply Hstep; [lia|done|done].
    + pose proof (Hlist (S i) Hl) as E. rewrite Nat.sub_succ, Nat.sub_0_r in E.
      unfold stage. by rewrite E.
Qed.

(** *** What every entry step keeps *)

Lemma safe_guarded x j :
  In x guarded -> In j entry_steps -> safe x (ins_text k j) (ins_marker j).
Proof.
  intros Hx Hj. apply safe_of_crit. intros u rest. rewrite mask_ins_text by done.
  pose proof (guarded_table u rest) as H. rewrite forallb_forall in H.
  specialize (H j Hj). rewrite forallb_forall in H. by apply H.
Qed.

Lemma in_guarded x : In x section_ends -> In x guarded /\ In (x ++ lit "*") guarded.
Proof.
  intros Hx. unfold guarded. split; apply in_or_app; [by left|right].
  by apply (in_map (fun x => x ++ lit "*")).
Qed.

Lemma section_end_nonempty x : In x section_ends -> x <> [].
Proof. intros [<-|[<-|[<-|[]]]]; by vm_compute. Qed.

Lemma ends_checked x j :
  In x section_ends -> In j entry_steps ->
  clear_but_last (ins_marker j) x = true /\
  contains (x ++ lit "*") (take (length x - 1) x ++ ins_marker j) = true.
Proof.
  intros Hx Hj. pose proof ends_table as H. rewrite forallb_forall in H.
  specialize (H j Hj). rewrite forallb_forall in H. specialize (H x Hx).
  by apply andb_true_iff in H.
Qed.

Lemma closed_once_step x j s :
  In x section_ends -> In j entry_steps ->
  closed_once s x ->
  closed_once (replace (ins_marker j) (ins_text k j ++ ins_marker j) s) x.
Proof.
  intros Hx Hj (H1 & H2 & H3).
  destruct (in_guarded x Hx) as [Hg1 Hg2].
  pose proof (ins_marker_nonempty j Hj) as Hm.
  pose proof (ins_text_nonempty k j Hj) as Ht.
  destruct (ends_checked x j Hx Hj) as [Hc1 Hc2].
  split_and!.
  - apply (everywhere_once x _ _ Hm []); [by apply safe_guarded|done|done].
  - by apply (everywhere_keeps_guarded _ _ Hm x (x ++ lit "*") []).
  - apply (everywhere_absent _ _ _ Hm []); [by apply safe_guarded|done].
Qed.

(** A text that ends with the end of a section is kept as long as [*] does
    not follow. *)
Lemma before_end_step u x j s :
  In x section_ends -> In j entry_steps ->
  clear_but_last (mask (ins_marker j)) (mask (u ++ x)) = true ->
  contains (x ++ lit "*") s = false ->
  contains (u ++ x) s = true ->
  contains (u ++ x) (replace (ins_marker j) (ins_text k j ++ ins_marker j) s) = true.
Proof.
  intros Hx Hj Hc Hg H.
  pose proof (ins_marker_nonempty j Hj) as Hm.
  destruct (ends_checked x j Hx Hj) as [_ Hc2].
  apply (everywhere_keeps_guarded _ _ Hm (u ++ x) (x ++ lit "*") []);
    [by apply clear_but_last_mask| |done|done].
  rewrite take_app_last by (by apply section_end_nonempty).
  rewrite <- app_assoc. by apply contains_app_r.
Qed.

(** An entry that a step does not bring. *)
Lemma entry_safe x j :
  x <> [] -> In j entry_steps ->
  (forall u, crit_sym (mask x) (ins_image j) (ins_marker j) u 0 = true) ->
  safe x (ins_text k j) (ins_marker j).
Proof.
  intros Hx Hj H. apply safe_of_crit_sym; [done|]. intros u.
  rewrite mask_ins_text by done. apply H.
Qed.
End Stages.

(** ** The three sections *)

Lemma table_at (f : nat -> bool) (l : list nat) j :
  forallb f l = true -> In j l -> f j = true.
Proof. rewrite forallb_forall. auto. Qed.

Lemma count_one_once x s : x <> [] -> count x s = 1 -> at_most_once x s /\ contains x s = true.
Proof.
  intros Hx H. split; [apply count_le_one; [done|lia]|].
  destruct (contains x s) eqn:E; [done|]. apply count_zero in E. lia.
Qed.

Lemma once_before_marker x m s :
  m <> [] -> at_most_once m s -> contains m s = true ->
  exists a b, s = a ++ m ++ b /\ replace m (x ++ m) s = a ++ x ++ m ++ b.
Proof.
  intros Hm Ho (a & b & ->)%contains_spec. exists a, b. split; [done|].
  rewrite replace_once by done. by rewrite <- app_assoc.
Qed.

Section Sections.
Variables (k : keys) (d : str).
Hypothesis Hk : good_keys k.
Hypothesis Hlist : forall i, In i list_steps ->
  nth (i - 1) (steps k) (fun c => c) (content_before k i d) = content_before k i d.
Hypothesis Hdev : contains (lit "DevCamTests") d = false.
Hypothesis Hfr : anchor_missing 1 d = false.
Hypothesis Hends : forall x, In x section_ends ->
  count x d = 1 /\ contains (x ++ lit "*") d = false.

Let nfr := new_file_ref k.
Let nt := new_target k.
Let dbg := debug_config k.
Let rel := release_config k.
Let out := patch k d.

Local Lemma efr_in : In EFR section_ends. Proof. simpl; auto. Qed.
Local Lemma ent_in : In ENT section_ends. Proof. simpl; auto. Qed.
Local Lemma ebc_in : In EBC section_ends. Proof. simpl; auto. Qed.

Local Lemma nfr_nonempty : nfr <> []. Proof. done. Qed.
Local Lemma nt_nonempty : nt <> []. Proof. done. Qed.
Local Lemma dbg_nonempty : dbg <> []. Proof. done. Qed.
Local Lemma rel_nonempty : rel <> []. Proof. done. Qed.

Local Lemma ends_first x : In x section_ends -> closed_once d x.
Proof.
  intros Hx. destruct (Hends x Hx) as [H1 H2].
  destruct (count_one_once x d (section_end_nonempty x Hx) H1). by split_and!.
Qed.

(** The ends of the three sections, at every stage. *)
Local Lemma ends_kept i x :
  i <= 14 -> In x section_ends -> closed_once (stage k d i) x.
Proof.
  intros Hi Hx.
  apply (stages_keep k d Hlist (fun s => closed_once s x) 0 14); [lia| | |lia].
  - by apply ends_first.
  - intros j _ Hj s. by apply closed_once_step.
Qed.

(** *** The file reference *)

Local Lemma file_ref_checked j u :
  In j [2; 3; 6; 7; 8; 11; 12; 13; 14] ->
  crit_sym mF (ins_image j) (ins_marker j) u 0 = true.
Proof.
  pose proof (file_ref_table u) as [_ H]%andb_true_iff.
  apply (table_at (fun j => crit_sym mF (ins_image j) (ins_marker j) u 0)), H.
Qed.

Local Lemma stage_one :
  exists a b, d = a ++ EFR ++ b /\ stage k d 1 = a ++ nfr ++ EFR ++ b.
Proof.
  destruct (ends_first EFR efr_in) as (H1 & H2 & _).
  destruct (once_before_marker nfr EFR d ltac:(by vm_compute) H1 H2) as (a & b & E & Er).
  exists a, b. split; [done|].
  rewrite stage_succ by lia. cbn [nth steps]. unfold step1, insert_entry.
  unfold anchor_missing in Hfr.
  destruct (search file_ref_re (stage k d 0)) eqn:Es; [exact Er|].
  rewrite stage_first in Es. by rewrite Es in Hfr.
Qed.

Local Lemma file_ref_first :
  at_most_once nfr (stage k d 1) /\ contains (nfr ++ EFR) (stage k d 1) = true.
Proof.
  destruct stage_one as (a & b & E & ->). split.
  - apply (crit_sym_new d _ a nfr EFR b E eq_refl); [exact nfr_nonempty| |].
    + subst nfr. rewrite (mask_new_file_ref k Hk).
      by pose proof (file_ref_table (mask b)) as [H _]%andb_true_iff.
    + apply absent_of_devcam; [apply contains_devcam_file_ref|exact Hdev].
  - rewrite (app_assoc nfr). apply contains_mid.
Qed.

Local Lemma file_ref_kept i :
  1 <= i <= 14 ->
  closed_once (stage k d i) EFR /\ at_most_once nfr (stage k d i) /\
  contains (nfr ++ EFR) (stage k d i) = true.
Proof.
  intros Hi.
  apply (stages_keep k d Hlist
           (fun s => closed_once s EFR /\ at_most_once nfr s /\
                     contains (nfr ++ EFR) s = true) 1 14); [lia| | |lia].
  - split; [apply ends_kept; [lia|exact efr_in]|exact file_ref_first].
  - intros j Hj He s (H1 & H2 & H3).
    assert (Hin : In j [2; 3; 6; 7; 8; 11; 12; 13; 14])
      by (simpl in He |- *; lia).
    split_and!.
    + apply closed_once_step; [done|exact efr_in|done|done].
    + apply (everywhere_once nfr _ _ (ins_marker_nonempty j He) []);
        [|by apply ins_text_nonempty|done].
      apply entry_safe; [done|exact nfr_nonempty|done|].
      intros u. subst nfr. rewrite (mask_new_file_ref k Hk). by apply file_ref_checked.
    + apply before_end_step; [exact efr_in|done| |by destruct H1 as (_ & _ & ?)|done].
      subst nfr. rewrite mask_app, (mask_new_file_ref k Hk).
      by apply (table_at _ _ j file_ref_end_table).
Qed.

(** *** The native target *)

Local Lemma target_checked j u :
  In j [1; 2; 3; 7; 8; 11; 12; 13; 14] ->
  crit_sym mT (ins_image j) (ins_marker j) u 0 = true.
Proof.
  pose proof (target_table u) as [_ H]%andb_true_iff.
  apply (table_at (fun j => crit_sym mT (ins_image j) (ins_marker j) u 0)), H.
Qed.

Local Lemma target_safe j :
  In j [1; 2; 3; 7; 8; 11; 12; 13; 14] -> safe nt (ins_text k j) (ins_marker j).
Proof.
  intros Hj. apply entry_safe; [done|exact nt_nonempty|simpl in Hj |- *; lia|].
  intros u. subst nt. rewrite (mask_new_target k Hk). by apply target_checked.
Qed.

Local Lemma target_absent i : i <= 5 -> contains nt (stage k d i) = false.
Proof.
  intros Hi.
  apply (stages_keep k d Hlist (fun s => contains nt s = false) 0 5); [lia| | |lia].
  - apply absent_of_devcam; [apply contains_devcam_target|exact Hdev].
  - intros j Hj He s H.
    apply (everywhere_absent nt _ _ (ins_marker_nonempty j He) []); [|done].
    apply target_safe. simpl in He |- *. lia.
Qed.

Local Lemma stage_six :
  exists a b, stage k d 5 = a ++ ENT ++ b /\ stage k d 6 = a ++ nt ++ ENT ++ b.
Proof.
  destruct (ends_kept 5 ENT ltac:(lia) ent_in) as (H1 & H2 & _).
  destruct (once_before_marker nt ENT _ ltac:(by vm_compute) H1 H2) as (a & b & E & Er).
  exists a, b. split; [done|].
  rewrite stage_succ by lia. cbn [nth steps]. unfold step6, insert_entry.
  destruct (search_lit_some _ _ H2) as [mt Hs]. unfold ENT in Hs. by rewrite Hs.
Qed.

Local Lemma target_first :
  at_most_once nt (stage k d 6) /\ contains (nt ++ ENT) (stage k d 6) = true.
Proof.
  destruct stage_six as (a & b & E & ->). split.
  - apply (crit_sym_new _ _ a nt ENT b E eq_refl); [exact nt_nonempty| |].
    + subst nt. rewrite (mask_new_target k Hk).
      by pose proof (target_table (mask b)) as [H _]%andb_true_iff.
    + apply target_absent. lia.
  - rewrite (app_assoc nt). apply contains_mid.
Qed.

Local Lemma target_kept i :
  6 <= i <= 14 ->
  closed_once (stage k d i) ENT /\ at_most_once nt (stage k d i) /\
  contains (nt ++ ENT) (stage k d i) = true.
Proof.
  intros Hi.
  apply (stages_keep k d Hlist
           (fun s => closed_once s ENT /\ at_most_once nt s /\
                     contains (nt ++ ENT) s = true) 6 14); [lia| | |lia].
  - split; [apply ends_kept; [lia|exact ent_in]|exact target_first].
  - intros j Hj He s (H1 & H2 & H3).
    assert (Hin : In j [7; 8; 11; 12; 13; 14]) by (simpl in He |- *; lia).
    split_and!.
    + apply closed_once_step; [done|exact ent_in|done|done].
    + apply (everywhere_once nt _ _ (ins_marker_nonempty j He) []);
        [|by apply ins_text_nonempty|done].
      apply target_safe. simpl in Hin |- *. lia.
    + apply before_end_step; [exact ent_in|done| |by destruct H1 as (_ & _ & ?)|done].
      subst nt. rewrite mask_app, (mask_new_target k Hk).
      by apply (table_at _ _ j target_end_table).
Qed.

(** *** The build configurations *)

Local Lemma debug_safe j :
  In j [1; 2; 3; 6; 7; 8; 11; 12; 14] -> safe dbg (ins_text k j) (ins_marker j).
Proof.
  intros Hj. apply entry_safe; [done|exact dbg_nonempty|simpl in Hj |- *; lia|].
  intros u. subst dbg. rewrite (mask_debug_config k Hk).
  pose proof (debug_table u) as [_ H]%andb_true_iff.
  by apply (table_at (fun j => crit_sym mD (ins_image j) (ins_marker j) u 0) _ j H).
Qed.

Local Lemma release_safe j :
  In j [1; 2; 3; 6; 7; 8; 11; 12; 14] -> safe rel (ins_text k j) (ins_marker j).
Proof.
  intros Hj. apply entry_safe; [done|exact rel_nonempty|simpl in Hj |- *; lia|].
  intros u. subst rel. rewrite (mask_release_config k Hk).
  pose proof (release_table u) as [_ H]%andb_true_iff.
  by apply (table_at (fun j => crit_sym mR (ins_image j) (ins_marker j) u 0) _ j H).
Qed.

Local Lemma configs_absent i :
  i <= 12 -> contains dbg (stage k d i) = false /\ contains rel (stage k d i) = false.
Proof.
  intros Hi.
  apply (stages_keep k d Hlist
           (fun s => contains dbg s = false /\ contains rel s = false) 0 12);
    [lia| | |lia].
  - split; (apply absent_of_devcam; [apply contains_devcam_config|exact Hdev]).
  - intros j Hj He s [H1 H2].
    assert (Hin : In j [1; 2; 3; 6; 7; 8; 11; 12; 14]) by (simpl in He |- *; lia).
    split.
    + apply (everywhere_absent dbg _ _ (ins_marker_nonempty j He) []); [|done].
      by apply debug_safe.
    + apply (everywhere_absent rel _ _ (ins_marker_nonempty j He) []); [|done].
      by apply release_safe.
Qed.

Local Lemma stage_thirteen :
  exists a b, stage k d 12 = a ++ EBC ++ b /\
              stage k d 13 = a ++ dbg ++ rel ++ EBC ++ b.
Proof.
  destruct (ends_kept 12 EBC ltac:(lia) ebc_in) as (H1 & H2 & _).
  destruct (once_before_marker (new_debug_config k) EBC _ ltac:(by vm_compute) H1 H2)
    as (a & b & E & Er).
  exists a, b. split; [done|].
  rewrite stage_succ by lia. cbn [nth steps]. unfold step13, insert_entry.
  destruct (search_lit_some _ _ H2) as [mt Hs]. unfold EBC in Hs, Er. rewrite Hs, Er.
  unfold new_debug_config, dbg, rel, debug_config, release_config.
  by rewrite <- app_assoc.
Qed.

Local Lemma configs_first :
  at_most_once dbg (stage k d 13) /\ at_most_once rel (stage k d 13) /\
  contains (dbg ++ rel ++ EBC) (stage k d 13) = true.
Proof.
  destruct stage_thirteen as (a & b & E & E13).
  destruct (configs_absent 12 ltac:(lia)) as [Hd Hr].
  split_and!.
  - rewrite E13.
    apply (crit_sym_new _ _ a (dbg ++ rel) EBC b E);
      [by rewrite <- app_assoc|exact dbg_nonempty| |done].
    subst dbg rel. rewrite mask_app, (mask_debug_config k Hk), (mask_release_config k Hk).
    pose proof (debug_table (mask b)) as [H _]%andb_true_iff. exact H.
  - rewrite E13.
    assert (Hr' : contains rel (a ++ dbg ++ EBC ++ b) = false).
    { apply (crit_sym_absent _ _ a dbg EBC b E eq_refl); [exact rel_nonempty| |done].
      subst dbg rel. rewrite (mask_debug_config k Hk), (mask_release_config k Hk).
      by pose proof (release_table (mask b)) as [[H _]%andb_true_iff _]%andb_true_iff. }
    apply (crit_sym_new (a ++ dbg ++ EBC ++ b) _ (a ++ dbg) rel EBC b);
      [by rewrite <- app_assoc|by rewrite <- app_assoc|exact rel_nonempty| |done].
    subst rel. rewrite (mask_release_config k Hk).
    by pose proof (release_table (mask b)) as [[_ H]%andb_true_iff _]%andb_true_iff.
  - rewrite E13.
    replace (a ++ dbg ++ rel ++ EBC ++ b) with (a ++ (dbg ++ rel ++ EBC) ++ b)
      by (by rewrite <- !app_assoc).
    apply contains_mid.
Qed.

Local Lemma configs_kept i :
  13 <= i <= 14 ->
  closed_once (stage k d i) EBC /\ at_most_once dbg (stage k d i) /\
  at_most_once rel (stage k d i) /\
  contains (dbg ++ rel ++ EBC) (stage k d i) = true.
Proof.
  intros Hi.
  apply (stages_keep k d Hlist
           (fun s => closed_once s EBC /\ at_most_once dbg s /\
                     at_most_once rel s /\
                     contains (dbg ++ rel ++ EBC) s = true) 13 14); [lia| | |lia].
  - split; [apply ends_kept; [lia|exact ebc_in]|exact configs_first].
  - intros j Hj He s (H1 & H2 & H3 & H4).
    assert (j = 14) as -> by lia.
    split_and!.
    + apply closed_once_step; [done|exact ebc_in|done|done].
    + apply (everywhere_once dbg _ _ (ins_marker_nonempty 14 He) []);
        [|by apply ins_text_nonempty|done].
      apply debug_safe. simpl. lia.
    + apply (everywhere_once rel _ _ (ins_marker_nonempty 14 He) []);
        [|by apply ins_text_nonempty|done].
      apply release_safe. simpl. lia.
    + rewrite (app_assoc dbg) in H4 |- *.
      apply before_end_step; [exact ebc_in|done| |by destruct H1 as (_ & _ & ?)|done].
      subst dbg rel.
      rewrite !mask_app, (mask_debug_config k Hk), (mask_release_config k Hk).
      rewrite <- app_assoc. exact configs_end_table.
Qed.

(** *** The result *)

Lemma sections_counts :
  (count nfr out = 1 /\ count nt out = 1 /\ count dbg out = 1 /\ count rel out = 1) /\
  (contains (nfr ++ EFR) out = true /\ contains (nt ++ ENT) out = true /\
   contains (dbg ++ rel ++ EBC) out = true) /\
  (count EFR out = 1 /\ count ENT out = 1 /\ count EBC out = 1).
Proof.
  unfold out. rewrite <- stage_last.
  destruct (file_ref_kept 14 ltac:(lia)) as ((F1 & F2 & _) & F3 & F4).
  destruct (target_kept 14 ltac:(lia)) as ((T1 & T2 & _) & T3 & T4).
  destruct (configs_kept 14 ltac:(lia)) as ((C1 & C2 & _) & C3 & C4 & C5).
  split; [|split]; [split; [|split; [|split]]|split; [|split]|split; [|split]].
  - apply count_once; [exact nfr_nonempty| |exact F3].
    eapply contains_trans; [|exact F4]. apply contains_app_l, contains_refl.
  - apply count_once; [exact nt_nonempty| |exact T3].
    eapply contains_trans; [|exact T4]. apply contains_app_l, contains_refl.
  - apply count_once; [exact dbg_nonempty| |exact C3].
    eapply contains_trans; [|exact C5]. apply contains_app_l, contains_refl.
  - apply count_once; [exact rel_nonempty| |exact C4].
    eapply contains_trans; [|exact C5].
    apply contains_app_r, contains_app_l, contains_refl.
  - exact F4.
  - exact T4.
  - exact C5.
  - apply count_once; [by vm_compute|exact F2|exact F1].
  - apply count_once; [by vm_compute|exact T2|exact T1].
  - apply count_once; [by vm_compute|exact C2|exact C1].
Qed.

(** A text that no step cuts is kept. *)
Lemma sections_uncut e :
  uncut e = true -> contains e d = true -> contains e out = true.
Proof.
  intros He H. unfold out. rewrite <- stage_last.
  apply (stages_keep k d Hlist (fun s => contains e s = true) 0 14); [lia|done| |lia].
  intros j _ Hj s Hs.
  apply (everywhere_keeps _ _ (ins_marker_nonempty j Hj) e []); [|done].
  unfold uncut in He. rewrite forallb_forall in He. apply He.
  unfold insertion_markers. by apply in_map.
Qed.
End Sections.

(** * The claims *)

Lemma same_path : AddTestTarget.pbxproj_path = AddTestTargetComplete.project_path.
Proof. reflexivity. Qed.

Lemma last_two {A} (l : list A) a b : last (l ++ [a; b]) = Some b.
Proof. change [a; b] with ([a] ++ [b]). by rewrite app_assoc, last_snoc. Qed.

Lemma run_keys_good urandom16 n : good_keys (run_keys urandom16 n).
Proof.
  unfold good_keys, key_list, run_keys. cbn.
  repeat constructor; apply key_of_good.
Qed.

(** C1.  When the project file already contains the text DevCamTests, a run
    of either script leaves the file system as it was, generates no key and
    applies no edit, prints its already-exists message and exits with
    status 0. *)
Theorem already_applied_leaves_file (urandom16 : nat -> N) (w : world)
    (content : str) :
  files w !! AddTestTargetComplete.project_path = Some (Text content) ->
  contains (lit "DevCamTests") content = true ->
  AddTestTarget.main urandom16 w =
    (Exit 0, after w (files w) ["Test target already exists"%string] 0) /\
  AddTestTargetComplete.main urandom16 w =
    (Exit 0, after w (files w) ["Test target already exists!"%string] 0).
Proof.
  intros Hf Hc. split.
  - apply main1_present with content; [by rewrite same_path|done].
  - by apply main2_present with content.
Qed.

(** C1 at a file that holds an entry named DevCamTests. *)
Lemma already_applied_witness :
  AddTestTarget.main counting (world_of patched_doc) =
    (Exit 0, after (world_of patched_doc) (files (world_of patched_doc))
               ["Test target already exists"%string] 0) /\
  AddTestTargetComplete.main counting (world_of patched_doc) =
    (Exit 0, after (world_of patched_doc) (files (world_of patched_doc))
               ["Test target already exists!"%string] 0).
Proof.
  apply (already_applied_leaves_file counting (world_of patched_doc) patched_doc);
    vm_compute; reflexivity.
Defined.

(** C2, as stated, fails: in a file that has the PBXNativeTarget section
    only, the anchor of step 1 is missing, and yet the run writes a file
    that differs from the one it read. *)
Lemma anchor_miss_still_writes :
  anchor_missing 1 (universal_newlines native_target_only) = true /\
  files (world_of native_target_only) !! AddTestTargetComplete.project_path =
    Some (Text native_target_only) /\
  files (snd (AddTestTargetComplete.main counting (world_of native_target_only)))
    !! AddTestTargetComplete.project_path <> Some (Text native_target_only).
Proof.
  split_and!; [vm_compute; reflexivity..|].
  rewrite (main2_absent counting _ native_target_only) by (vm_compute; reflexivity).
  cbn [snd after files]. rewrite lookup_insert_eq. intros H.
  apply (f_equal (fun o => match o with Some (Text c) => length c | _ => 0 end)) in H.
  vm_compute in H. lia.
Qed.

(** C2, amended.  Take a run of the second script on a file without
    DevCamTests, and let [text] be what it reads: the characters of the
    file, with each carriage return, and the newline after it if there is
    one, read as a newline.  A step whose anchor is missing does not fail:
    it returns the content it was given.  The other steps are applied all
    the same: when the anchor of step [i] is missing in the content that
    the step receives, the run gives what the steps before [i] and the
    steps after [i], in their order, make of [text].  In every case the run
    ends normally after one write, of the result of the fourteen steps
    applied one after the other to [text], and changes no other file.  The
    file is afterwards as it was before exactly when it has no carriage
    return and the fourteen steps leave its content as it is. *)
Theorem anchor_miss_is_skipped (urandom16 : nat -> N) (w : world)
    (content : str) :
  files w !! AddTestTargetComplete.project_path = Some (Text content) ->
  contains (lit "DevCamTests") content = false ->
  let k := run_keys urandom16 (draws w) in
  let text := universal_newlines content in
  let w' := snd (AddTestTargetComplete.main urandom16 w) in
  (forall i c, 1 <= i <= 14 -> anchor_missing i c = true ->
     nth (i - 1) (AddTestTargetComplete.steps k) (fun c => c) c = c) /\
  (forall i, 1 <= i <= 14 -> anchor_missing i (content_before k i text) = true ->
     files w' !! AddTestTargetComplete.project_path =
       Some (Text (fold_left (fun c step => step c)
                     (take (i - 1) (AddTestTargetComplete.steps k) ++
                      drop i (AddTestTargetComplete.steps k)) text))) /\
  AddTestTargetComplete.main urandom16 w =
    (Ret tt,
     after w
       (<[AddTestTargetComplete.project_path :=
            Text (step14 k (step13 k (step12 k (step11 k (step10 k (step9 k
                   (step8 k (step7 k (step6 k (step5 k (step4 k (step3 k
                     (step2 k (step1 k text))))))))))))))]> (files w))
       ["Successfully added DevCamTests target to Xcode project!"%string] 11) /\
  (files w' !! AddTestTargetComplete.project_path = Some (Text content) <->
   no_cr content = true /\ AddTestTargetComplete.patch k content = content).
Proof.
  intros Hf Hc k text w'. subst w'. rewrite (main2_absent _ _ _ Hf Hc).
  cbn [snd after files]. fold k text. rewrite lookup_insert_eq.
  split_and!.
  - intros i c. apply anchor_missing_skip.
  - intros i Hi Hm. by rewrite (patch_without k i text Hi Hm).
  - by rewrite patch_steps.
  - split.
    + intros [= H].
      assert (Hn : no_cr content = true).
      { rewrite <- H. apply patch_no_cr; [apply run_keys_good|apply newlines_no_cr]. }
      split; [done|]. unfold text in H. by rewrite (newlines_id _ Hn) in H.
    + intros [Hn H]. unfold text. by rewrite (newlines_id _ Hn), H.
Qed.

(** C2, amended, at the file that has the PBXNativeTarget section only:
    step 1 is skipped and step 6 inserts the target. *)
Lemma anchor_miss_is_skipped_witness :
  let k := run_keys counting 0 in
  files (snd (AddTestTargetComplete.main counting (world_of native_target_only)))
    !! AddTestTargetComplete.project_path =
    Some (Text (fold_left (fun c step => step c)
                  (drop 1 (AddTestTargetComplete.steps k)) native_target_only)).
Proof.
  destruct (anchor_miss_is_skipped counting (world_of native_target_only)
              native_target_only) as (_ & H & _);
    [vm_compute; reflexivity..|].
  apply (H 1); [lia|vm_compute; reflexivity].
Defined.




(** C4, as stated, fails: in a text with two lists of targets the pattern of
    step 9 matches at both, and the step changes the text; the run that
    reads this text ends normally. *)
Lemma two_regions_are_mutated :
  is_Some (match_here targets_re (drop 3 two_target_lists)) /\
  is_Some (match_here targets_re (drop 67 two_target_lists)) /\
  step9 (run_keys counting 0) two_target_lists <> two_target_lists /\
  fst (main counting (world_of two_target_lists)) = Ret tt.
Proof.
  split_and!.
  - vm_compute. by eexists.
  - vm_compute. by eexists.
  - intros H. apply (f_equal length) in H. vm_compute in H. lia.
  - vm_compute. reflexivity.
Qed.

(** C4, amended.  A list append with one of the four list anchors of the
    script never fails.  When the anchor matches nowhere the content is
    returned as it is.  When it matches, at one place or at several, the
    leftmost match is taken: the content is the text before it, the three
    groups and the text after it, and the step returns the same with the new
    item between the second and the third group, and with every further
    copy of the matched text after it replaced likewise. *)
Theorem append_to_list_first_match (anchor : regex) (item content : str) :
  In anchor list_anchors ->
  match search anchor content with
  | None => append_to_list anchor item content = content
  | Some m =>
      exists pre post,
        content = pre ++ group m 1 ++ group m 2 ++ group m 3 ++ post /\
        (forall j, j < length pre -> match_here anchor (drop j content) = None) /\
        append_to_list anchor item content =
          pre ++ group m 1 ++ group m 2 ++ item ++ group m 3 ++
          replace (group m 0) (group m 1 ++ (group m 2 ++ item) ++ group m 3) post
  end.
Proof.
  intros Hr%list_anchors_three. destruct (search anchor content) as [m|] eqn:E.
  - by apply append_to_list_some.
  - unfold append_to_list. by rewrite E.
Qed.

(** C4, amended, at the list of targets and the text with two such lists. *)
Lemma append_to_list_first_match_witness :
  match search targets_re two_target_lists with
  | None => append_to_list targets_re (lit "X") two_target_lists = two_target_lists
  | Some m =>
      exists pre post,
        two_target_lists = pre ++ group m 1 ++ group m 2 ++ group m 3 ++ post /\
        (forall j, j < length pre ->
           match_here targets_re (drop j two_target_lists) = None) /\
        append_to_list targets_re (lit "X") two_target_lists =
          pre ++ group m 1 ++ group m 2 ++ lit "X" ++ group m 3 ++
          replace (group m 0) (group m 1 ++ (group m 2 ++ lit "X") ++ group m 3) post
  end.
Proof.
  apply (append_to_list_first_match targets_re (lit "X") two_target_lists).
  simpl. auto.
Defined.

(** C5, as stated, fails.  Take the random source that returns 0, 1, ...,
    and a file without DevCamTests that holds the key
    000000000000400080000000.  The eleven identifiers that the run draws
    are pairwise distinct, each of its eleven calls of [generate_uuid]
    returns that same key, and the run goes on to its end with them. *)
Lemma distinct_uuids_same_key :
  let w := world_of colliding_doc in
  let key := lit "000000000000400080000000" in
  (forall i j, i < j < 11 ->
     fst (uuid4_call counting (after w (files w) [] i)) <>
     fst (uuid4_call counting (after w (files w) [] j))) /\
  (forall i, i < 11 ->
     fst (generate_uuid counting (after w (files w) [] i)) = Ret key) /\
  contains (lit "DevCamTests") colliding_doc = false /\
  contains key colliding_doc = true /\
  exists k, key_list k = repeat key 11 /\
    main counting w =
      (Ret tt,
       after w (<[project_path := Text (patch k (universal_newlines colliding_doc))]>
                  (files w))
         ["Successfully added DevCamTests target to Xcode project!"%string] 11).
Proof.
  intros w key. split_and!.
  - intros i j Hij.
    do 11 (destruct i as [|i]; [do 11 (destruct j as [|j]; [first [lia|by vm_compute]|]); lia|]).
    lia.
  - intros i Hi. do 11 (destruct i as [|i]; [vm_compute; reflexivity|]). lia.
  - vm_compute; reflexivity.
  - vm_compute; reflexivity.
  - exists (run_keys counting 0). split; [vm_compute; reflexivity|].
    apply (main2_absent counting w colliding_doc); vm_compute; reflexivity.
Qed.

(** C5, amended.  The eleven keys of a run of the second script are fixed
    by the random source and by the number of reads made before the run:
    the key at place [i] is what [generate_uuid] returns when it is called
    after [i] more reads.  A run on a file without DevCamTests writes the
    result of the fourteen steps with these keys, whatever the file holds
    and whatever the keys are: they are compared neither with each other nor
    with the file.  Two of the keys are equal exactly when the two
    identifiers drawn agree on their leading 96 bits. *)
Theorem keys_equal_iff (urandom16 : nat -> N) (n : nat) :
  exists k : keys,
    (forall w i key,
       draws w = n + i -> key_list k !! i = Some key ->
       generate_uuid urandom16 w =
         (Ret key, {| files := files w; stdout := stdout w; draws := S (draws w) |})) /\
    (forall w content,
       draws w = n ->
       files w !! project_path = Some (Text content) ->
       contains (lit "DevCamTests") content = false ->
       main urandom16 w =
         (Ret tt,
          after w (<[project_path := Text (patch k (universal_newlines content))]>
                     (files w))
            ["Successfully added DevCamTests target to Xcode project!"%string] 11)) /\
    (forall i j x y,
       key_list k !! i = Some x -> key_list k !! j = Some y ->
       x = y <->
       (uuid4 (urandom16 (n + i)%nat) / 2 ^ 32 =
        uuid4 (urandom16 (n + j)%nat) / 2 ^ 32)%N).
Proof.
  exists (run_keys urandom16 n).
  assert (Hk : forall i key, key_list (run_keys urandom16 n) !! i = Some key ->
                key = key_of (urandom16 (n + i))).
  { intros i key. unfold key_list, run_keys.
    cbn [test_target_uuid test_product_uuid test_sources_uuid
         test_frameworks_uuid test_resources_uuid test_buildconfig_list_uuid
         test_debug_config_uuid test_release_config_uuid test_dependency_uuid
         test_target_dependency_uuid test_group_uuid].
    do 11 (destruct i as [|i];
      [rewrite ?Nat.add_0_r; cbn [lookup list_lookup]; by intros [= <-]|]).
    done. }
  split_and!.
  - intros w i key Hw Hi. apply Hk in Hi as ->.
    unfold generate_uuid, mbind, script_bind, uuid4_call, mret, script_ret, key_of.
    by rewrite Hw.
  - intros w content <- Hf Hc. by apply main2_absent.
  - intros i j x y Hx%Hk Hy%Hk. subst x y. apply key_of_eq_iff.
Qed.

(** C6, as stated, fails: no anchor of the second script is found in a file
    that holds one line of comment, and the run exits with status 0 after
    printing its message of success. *)
Lemma missing_anchors_exit_zero :
  no_anchor_matches (universal_newlines plain_doc) = true /\
  exit_code (fst (main counting (world_of plain_doc))) = 0%Z /\
  last (stdout (snd (main counting (world_of plain_doc)))) =
    Some "Successfully added DevCamTests target to Xcode project!"%string.
Proof. vm_compute. done. Qed.

(** C6, amended.  On a project file that exists, the first script exits
    with status 0 after its already-exists message or after its
    manual-configuration message, and with status 1 after the message that
    names what it did not find: the main target or the insertion point.  The
    second script always exits with status 0, after its already-exists
    message or, whatever anchors were found, after its message of success. *)
Theorem exit_codes (urandom16 : nat -> N) (w : world) (content : str) :
  files w !! AddTestTargetComplete.project_path = Some (Text content) ->
  let r1 := AddTestTarget.main urandom16 w in
  let r2 := AddTestTargetComplete.main urandom16 w in
  (exit_code (fst r1), last (stdout (snd r1))) =
    (if contains (lit "DevCamTests") content
     then (0%Z, Some "Test target already exists"%string)
     else match search AddTestTarget.target_re content with
          | None => (1%Z, Some "Could not find main target"%string)
          | Some m =>
              if (find (group m 1 ++ lit " /* DevCam */,") content =? -1)%Z
              then (1%Z, Some "Could not find insertion point"%string)
              else (0%Z, Some "Manual configuration required. Please use Xcode GUI to add test target."%string)
          end) /\
  (exit_code (fst r2), last (stdout (snd r2))) =
    (if contains (lit "DevCamTests") content
     then (0%Z, Some "Test target already exists!"%string)
     else (0%Z, Some "Successfully added DevCamTests target to Xcode project!"%string)).
Proof.
  intros Hf r1 r2. subst r1 r2. pose proof Hf as Hf1. rewrite <- same_path in Hf1.
  destruct (contains (lit "DevCamTests") content) eqn:Hc.
  - rewrite (main1_present _ _ _ Hf1 Hc), (main2_present _ _ _ Hf Hc).
    simpl. by rewrite !last_snoc.
  - rewrite (main1_absent _ _ _ Hf1 Hc), (main2_absent _ _ _ Hf Hc). cbv zeta.
    destruct (search _ _) as [m|]; [destruct (_ =? _)%Z|]; simpl;
      by rewrite last_two, last_snoc.
Qed.

(** C6, amended, at the file that holds one line of comment. *)
Lemma exit_codes_witness :
  (exit_code (fst (AddTestTarget.main counting (world_of plain_doc))),
   last (stdout (snd (AddTestTarget.main counting (world_of plain_doc))))) =
    (1%Z, Some "Could not find main target"%string) /\
  (exit_code (fst (main counting (world_of plain_doc))),
   last (stdout (snd (main counting (world_of plain_doc))))) =
    (0%Z, Some "Successfully added DevCamTests target to Xcode project!"%string).
Proof.
  apply (exit_codes counting (world_of plain_doc) plain_doc). vm_compute. reflexivity.
Defined.

(** C7, as stated, fails: the file that holds one line of comment has
    neither of the two sections, and steps 7 and 8 create neither. *)
Lemma section_absent_nothing_created :
  contains (begin_section "PBXContainerItemProxy") plain_doc = false /\
  step7 (run_keys counting 0) plain_doc = plain_doc /\
  contains (begin_section "PBXTargetDependency") plain_doc = false /\
  step8 (run_keys counting 0) plain_doc = plain_doc.
Proof. vm_compute. done. Qed.

(** C7, amended.  Step 7 changes the content if and only if the Begin
    marker of PBXContainerItemProxy is absent and the Begin marker of
    PBXFileReference, before which the new section is put, is present; step
    8 likewise with PBXTargetDependency and PBXFrameworksBuildPhase.  In all
    other cases the step is a no-op.  When a section is created, its block
    stands right before the first occurrence of the marker (and before each
    later one). *)
Theorem create_section_iff (k : keys) (content : str) :
  (step7 k content <> content <->
   contains (begin_section "PBXContainerItemProxy") content = false /\
   contains (begin_section "PBXFileReference") content = true) /\
  (step8 k content <> content <->
   contains (begin_section "PBXTargetDependency") content = false /\
   contains (begin_section "PBXFrameworksBuildPhase") content = true) /\
  (forall begin block before pre post,
     before <> [] ->
     contains begin (pre ++ before ++ post) = false ->
     (forall j, j < length pre -> ~ occurs_at before (pre ++ before ++ post) j) ->
     create_section begin block before (pre ++ before ++ post) =
       pre ++ block ++ before ++ replace before (block ++ before) post).
Proof.
  split_and!.
  - apply create_section_changes; by vm_compute.
  - apply create_section_changes; by vm_compute.
  - intros begin block before pre post Hb Hc Hj.
    unfold create_section. rewrite Hc. cbn [negb].
    rewrite replace_first by done. by rewrite <- app_assoc.
Qed.

(** C8.  Whatever the file system holds, a run of the first script leaves
    the project file, and every file other than its backup copy, as it was;
    the backup copy is either as it was or a copy of the project file.  A
    run that reaches the end of the script has printed the
    manual-configuration message last. *)
Theorem first_script_keeps_project_file (urandom16 : nat -> N) (w : world) :
  let r := AddTestTarget.main urandom16 w in
  files (snd r) !! AddTestTarget.pbxproj_path =
    files w !! AddTestTarget.pbxproj_path /\
  (forall p, p <> backup_path -> files (snd r) !! p = files w !! p) /\
  (files (snd r) !! backup_path = files w !! backup_path \/
   files (snd r) !! backup_path = files w !! AddTestTarget.pbxproj_path) /\
  (fst r = Ret tt ->
   stdout (snd r) = stdout w ++
     ["Adding test target to Xcode project..."%string;
      "Manual configuration required. Please use Xcode GUI to add test target."%string]).
Proof.
  intros r. subst r.
  assert (Hne : AddTestTarget.pbxproj_path <> backup_path) by (by vm_compute).
  destruct (files w !! AddTestTarget.pbxproj_path) as [[content|bytes]|] eqn:Hf.
  - destruct (contains (lit "DevCamTests") content) eqn:Hc.
    + rewrite (main1_present _ _ _ Hf Hc). simpl. split_and!; auto. done.
    + rewrite (main1_absent _ _ _ Hf Hc). cbv zeta.
      destruct (search _ _) as [m|]; [destruct (_ =? _)%Z|]; simpl;
        (split_and!;
          [by rewrite lookup_insert_ne
          |by intros p Hp; rewrite lookup_insert_ne
          |right; by rewrite lookup_insert_eq
          |done]).
  - rewrite (main1_binary _ _ _ Hf). simpl. split_and!; auto. done.
  - rewrite (main1_missing _ _ Hf). simpl. split_and!; auto. done.
Qed.

(** C9.  Every call of [generate_uuid], in either script, returns a text of
    exactly 24 characters, each a digit or a letter from A to F, and
    advances the random source by one read. *)
Theorem generate_uuid_format (urandom16 : nat -> N) (w : world) :
  exists key,
    AddTestTargetComplete.generate_uuid urandom16 w =
      (Ret key, {| files := files w; stdout := stdout w; draws := S (draws w) |}) /\
    AddTestTarget.generate_uuid urandom16 w =
      (Ret key, {| files := files w; stdout := stdout w; draws := S (draws w) |}) /\
    length key = 24 /\ forallb is_uphex key = true.
Proof.
  exists (key_of (urandom16 (draws w))).
  destruct (key_of_good (urandom16 (draws w))) as [Hl Hh].
  split_and!; [reflexivity| |exact Hl|exact Hh].
  rewrite <- key_of_str_eq.
  unfold AddTestTarget.generate_uuid, mbind, script_bind, uuid4_call, mret,
    script_ret, key_of_str.
  reflexivity.
Qed.

(** C10, as stated, fails: a file of three lines that end in a carriage
    return and a newline has no DevCamTests and none of the fourteen
    anchors, and the run writes it back with the carriage returns gone:
    21 characters were read from the disk, 18 are written. *)
Lemma crlf_file_is_changed :
  let w' := snd (AddTestTargetComplete.main counting (world_of crlf_doc)) in
  contains (lit "DevCamTests") crlf_doc = false /\
  no_anchor_matches crlf_doc = true /\
  no_anchor_matches (universal_newlines crlf_doc) = true /\
  files (world_of crlf_doc) !! AddTestTargetComplete.project_path =
    Some (Text crlf_doc) /\
  files w' !! AddTestTargetComplete.project_path =
    Some (Text (universal_newlines crlf_doc)) /\
  length crlf_doc = 21 /\ length (universal_newlines crlf_doc) = 18.
Proof. vm_compute. done. Qed.

(** C10, amended.  When the project file does not contain DevCamTests, the
    second script draws its eleven keys, writes the file with the result of
    the fourteen steps on the text it read, prints its message of success
    and ends normally.  When none of the fourteen anchors is found in that
    text, what it writes is the text it read: the characters of the file
    with each carriage return, and the newline after it if there is one,
    turned into a newline.  The file is then as it was exactly when it had
    no carriage return. *)
Theorem always_rewrites (urandom16 : nat -> N) (w : world) (content : str) :
  files w !! AddTestTargetComplete.project_path = Some (Text content) ->
  contains (lit "DevCamTests") content = false ->
  let k := run_keys urandom16 (draws w) in
  let text := universal_newlines content in
  let w' := snd (AddTestTargetComplete.main urandom16 w) in
  AddTestTargetComplete.main urandom16 w =
    (Ret tt,
     after w (<[AddTestTargetComplete.project_path :=
                 Text (AddTestTargetComplete.patch k text)]> (files w))
       ["Successfully added DevCamTests target to Xcode project!"%string] 11) /\
  (no_anchor_matches text = true ->
   files w' !! AddTestTargetComplete.project_path = Some (Text text) /\
   (files w' !! AddTestTargetComplete.project_path =
      files w !! AddTestTargetComplete.project_path <-> no_cr content = true)).
Proof.
  intros Hf Hc k text w'. subst w'. rewrite (main2_absent _ _ _ Hf Hc).
  cbn [snd after files]. fold k text. rewrite lookup_insert_eq, Hf.
  split; [done|]. intros Hn. rewrite (no_anchor_patch k text Hn).
  split; [done|]. unfold text. rewrite <- newlines_fixed.
  split; [by intros [= ?]|by intros ->].
Qed.

(** C10, amended, at the file that holds one line of comment: it has no
    carriage return, and is written back as it was. *)
Lemma always_rewrites_witness :
  AddTestTargetComplete.main counting (world_of plain_doc) =
    (Ret tt,
     after (world_of plain_doc)
       (<[AddTestTargetComplete.project_path := Text plain_doc]>
          (files (world_of plain_doc)))
       ["Successfully added DevCamTests target to Xcode project!"%string] 11).
Proof.
  destruct (always_rewrites counting (world_of plain_doc) plain_doc) as [H1 H2];
    [vm_compute; reflexivity|vm_compute; reflexivity|].
  rewrite H1. rewrite no_anchor_patch; [reflexivity|vm_compute; reflexivity].
Defined.

(** * Further properties *)

(** ** A text that survives an insertion *)

Lemma contains_app_inv p a b :
  contains p (a ++ b) = true ->
  contains p a = true \/ contains p b = true \/
  exists n, 0 < n < length p /\ startswith (drop n p) b = true.
Proof.
  induction a as [|c a IH]; [by auto|].
  cbn [app contains]. intros [H|H]%orb_true_iff.
  - change (c :: a ++ b) with ((c :: a) ++ b) in H.
    apply startswith_app_inv in H as [H|(H1 & H2 & H3)].
    + left. cbn [contains]. by rewrite H.
    + right. right. exists (length (c :: a)). split; [simpl in *; lia|done].
  - apply IH in H as [H|[H|H]]; [|by auto..].
    left. rewrite H. apply orb_true_r.
Qed.

(** No occurrence of [p] is cut by an insertion made in front of a
    character that [p] does not have. *)
Lemma contains_app_cut p a c b :
  ~ In c p -> contains p (a ++ c :: b) = true ->
  contains p a = true \/ contains p (c :: b) = true.
Proof.
  intros Hc [H|[H|(n & Hn & H)]]%contains_app_inv; [by auto..|].
  exfalso. apply Hc.
  destruct (drop n p) as [|x t] eqn:E.
  { apply (f_equal length) in E. rewrite length_drop in E. simpl in E. lia. }
  simpl in H. destruct (Ascii.eqb_spec x c) as [->|]; [|done].
  rewrite <- (take_drop n p), E. apply in_or_app. right. by left.
Qed.

Lemma replace_keeps p u ins c v s a :
  ~ In c p ->
  contains p (a ++ s) = true ->
  contains p (a ++ replace (u ++ c :: v) (u ++ ins ++ c :: v) s) = true.
Proof.
  intros Hc. remember (length s) as n eqn:Hn. revert s a Hn.
  induction n as [n IH] using lt_wf_ind. intros s a -> H.
  destruct (contains (u ++ c :: v) s) eqn:E; [|by rewrite replace_absent].
  apply first_occurrence in E as (pre & post & -> & Hj).
  rewrite replace_first by (done || by destruct u).
  set (r := replace (u ++ c :: v) (u ++ ins ++ c :: v) post).
  assert (E1 : a ++ pre ++ (u ++ c :: v) ++ post = (a ++ pre ++ u) ++ c :: (v ++ post))
    by (rewrite <- !app_assoc; reflexivity).
  assert (E2 : a ++ pre ++ (u ++ ins ++ c :: v) ++ r =
               (a ++ pre ++ u ++ ins) ++ (c :: v) ++ r)
    by (rewrite <- !app_assoc; reflexivity).
  rewrite E1 in H. rewrite E2.
  apply contains_app_cut in H as [H|H]; [| |done].
  - apply contains_app_l. rewrite !app_assoc. apply contains_app_l.
    by rewrite <- !app_assoc.
  - apply contains_app_r.
    apply (IH (length post)) with (a := c :: v) in H; [done| |done].
    rewrite !length_app. simpl. lia.
Qed.

(** ** The name of the test target in the content *)

Lemma list_anchors_closed r : In r list_anchors -> closed_list r.
Proof.
  intros [<-|[<-|[<-|[<-|[]]]]]; intros m g H;
    unfold products_re, main_group_re, targets_re, target_attrs_re, list_re in H;
    inv_matches; do 4 eexists; (split_and!; [reflexivity|reflexivity|eassumption|auto]).
Qed.

Lemma name_has_no c :
  is_space c = true \/ In c (lit "/)}") -> ~ In c (lit "DevCamTests").
Proof.
  intros H Hin. simpl in Hin.
  repeat (destruct Hin as [<-|Hin];
    [destruct H as [H|H]; [done|simpl in H; intuition congruence]|]).
  done.
Qed.

Lemma insert_entry_keeps anchor marker entry t :
  marker = "/"%char :: t -> keeps_name (insert_entry anchor marker entry).
Proof.
  intros -> c Hc. unfold insert_entry. destruct (search anchor c); [|done].
  apply (replace_keeps _ [] entry "/"%char t c []); [|done].
  apply name_has_no. right. simpl. auto.
Qed.

Lemma create_section_keeps begin block before t :
  before = "/"%char :: t -> keeps_name (create_section begin block before).
Proof.
  intros -> c Hc. unfold create_section. destruct (negb _); [|done].
  apply (replace_keeps _ [] block "/"%char t c []); [|done].
  apply name_has_no. right. simpl. auto.
Qed.

Lemma append_to_list_keeps r item :
  In r list_anchors -> keeps_name (append_to_list r item).
Proof.
  intros Hr%list_anchors_closed c Hc. unfold append_to_list.
  destruct (search r c) as [mt|] eqn:E; [|done]. cbv zeta.
  apply search_some in E as (pre & post & _ & Hm & _).
  apply match_here_sound in Hm as (_ & _ & Hm).
  apply Hr in Hm as (g1 & g2 & ws & close & H0 & Hg & Hws & Hcl).
  unfold group. rewrite Hg, H0. cbn [nth].
  assert (exists x v, ws ++ close = x :: v /\ ~ In x (lit "DevCamTests"))
    as (x & v & -> & Hx).
  { destruct ws as [|x ws].
    - destruct Hcl as [->| ->]; do 2 eexists; (split; [reflexivity|]);
        apply name_has_no; right; simpl; auto.
    - exists x, (ws ++ close). split; [done|]. apply name_has_no. left.
      simpl in Hws. by apply andb_true_iff in Hws as [? _]. }
  replace (g1 ++ g2 ++ x :: v) with ((g1 ++ g2) ++ x :: v) by (by rewrite <- app_assoc).
  replace (g1 ++ (g2 ++ item) ++ x :: v) with ((g1 ++ g2) ++ item ++ x :: v)
    by (by rewrite <- !app_assoc).
  by apply (replace_keeps _ _ _ _ _ c []).
Qed.

Lemma steps_keep_name k : Forall keeps_name (steps k).
Proof.
  unfold steps, step1, step2, step3, step4, step5, step6, step7, step8, step9,
    step10, step11, step12, step13, step14.
  repeat constructor;
    first [ eapply insert_entry_keeps; reflexivity
          | eapply create_section_keeps; reflexivity
          | apply append_to_list_keeps; simpl; auto ].
Qed.

Lemma fold_keeps_name (l : list (str -> str)) c :
  Forall keeps_name l -> contains (lit "DevCamTests") c = true ->
  contains (lit "DevCamTests") (fold_left (fun c step => step c) l c) = true.
Proof.
  intros Hl. revert c. induction Hl as [|f l Hf _ IH]; intros c Hc; [done|].
  simpl. apply IH, Hf, Hc.
Qed.

Lemma insert_entry_names anchor marker entry c :
  contains (lit "DevCamTests") entry = true ->
  insert_entry anchor marker entry c <> c ->
  contains (lit "DevCamTests") (insert_entry anchor marker entry c) = true.
Proof.
  intros He. unfold insert_entry. destruct (search anchor c); [|done].
  destruct (contains marker c) eqn:E; [|by rewrite replace_absent].
  intros _. destruct marker as [|x marker];
    [simpl; by apply contains_app_l, contains_app_l|].
  apply first_occurrence in E as (pre & post & -> & Hj).
  rewrite replace_first by done.
  apply contains_app_r, contains_app_l, contains_app_l. done.
Qed.

Lemma append_to_list_names r item c :
  In r list_anchors -> contains (lit "DevCamTests") item = true ->
  append_to_list r item c <> c ->
  contains (lit "DevCamTests") (append_to_list r item c) = true.
Proof.
  intros Hr%list_anchors_three Hi Hne.
  destruct (search r c) as [mt|] eqn:E.
  - destruct (append_to_list_some r item c mt Hr E) as (pre & post & _ & _ & ->).
    by apply contains_app_r, contains_app_r, contains_app_r, contains_app_l.
  - unfold append_to_list in Hne. by rewrite E in Hne.
Qed.

(** Looks for a text in a concatenation. *)
Ltac find_text :=
  first [ solve [vm_compute; reflexivity]
        | solve [apply contains_app_l; find_text]
        | solve [apply contains_app_r; find_text] ].

Lemma step_names k i c :
  In i name_steps ->
  nth (i - 1) (steps k) (fun c => c) c <> c ->
  contains (lit "DevCamTests") (nth (i - 1) (steps k) (fun c => c) c) = true.
Proof.
  intros [<-|[<-|[<-|[<-|[<-|[<-|[<-|[<-|[]]]]]]]]]; cbn [Nat.sub nth steps];
    unfold step1, step2, step4, step5, step6, step9, step13, step14;
    first [ apply insert_entry_names | apply append_to_list_names; [simpl; auto|] ];
    unfold new_file_ref, new_group, new_target, new_debug_config, build_config,
      new_config_list, ln;
    find_text.
Qed.

Lemma patch_names k content i :
  In i name_steps ->
  nth (i - 1) (steps k) (fun c => c) (content_before k i content) <>
    content_before k i content ->
  contains (lit "DevCamTests") (patch k content) = true.
Proof.
  intros Hi Hne. rewrite (patch_from k i).
  - apply fold_keeps_name; [apply Forall_drop, steps_keep_name|by apply step_names].
  - simpl in Hi. lia.
Qed.

(** X1.  A second run after a run that wrote the name.  When the project file
    has no DevCamTests and, in the run of the second script, one of the
    steps 1, 2, 4, 5, 6, 9, 13 and 14 changes the content it receives, the
    file written contains DevCamTests: no later step cuts the inserted
    name.  A further run of either script, with any random source, then
    stops at its already-exists test: it prints that message, exits with
    status 0 and leaves the file system as the first run left it. *)
Theorem second_run_changes_nothing (urandom16 urandom16' : nat -> N) (w : world)
    (content : str) (i : nat) :
  let k := run_keys urandom16 (draws w) in
  let text := universal_newlines content in
  let w1 := snd (main urandom16 w) in
  files w !! project_path = Some (Text content) ->
  contains (lit "DevCamTests") content = false ->
  In i name_steps ->
  nth (i - 1) (steps k) (fun c => c) (content_before k i text) <>
    content_before k i text ->
  main urandom16' w1 =
    (Exit 0, after w1 (files w1) ["Test target already exists!"%string] 0) /\
  AddTestTarget.main urandom16' w1 =
    (Exit 0, after w1 (files w1) ["Test target already exists"%string] 0).
Proof.
  intros k text w1 Hf Hc Hi Hne. subst w1. rewrite (main2_absent _ _ _ Hf Hc).
  cbn [snd]. fold k text.
  set (w1 := after _ _ _ _).
  assert (H1 : files w1 !! project_path = Some (Text (patch k text)))
    by apply lookup_insert_eq.
  pose proof (patch_names k text i Hi Hne) as H2.
  split; [by apply main2_present with (patch k text)|].
  apply main1_present with (patch k text); [by rewrite same_path|done].
Qed.

(** X1 at the file that has the PBXNativeTarget section only: step 6 inserts
    the target. *)
Lemma second_run_changes_nothing_witness :
  let w1 := snd (main counting (world_of native_target_only)) in
  main spread w1 =
    (Exit 0, after w1 (files w1) ["Test target already exists!"%string] 0) /\
  AddTestTarget.main spread w1 =
    (Exit 0, after w1 (files w1) ["Test target already exists"%string] 0).
Proof.
  apply (second_run_changes_nothing counting spread (world_of native_target_only)
           native_target_only 6).
  - vm_compute; reflexivity.
  - vm_compute; reflexivity.
  - simpl; lia.
  - intros H. apply (f_equal length) in H. vm_compute in H. lia.
Defined.

(** ** Texts that do not bring the name *)

Lemma contains_mask p s :
  contains p s = true -> contains (mask p) (mask s) = true.
Proof.
  intros [q Hq%occurs_at_mask]%contains_occurs. apply contains_occurs. eauto.
Qed.

Lemma head_mask s : head (mask s) = option_map mask_char (head s).
Proof. by destruct s. Qed.

Lemma last_mask s : last (mask s) = option_map mask_char (last s).
Proof.
  induction s as [|a s IH]; [done|]. destruct s as [|b s]; [done|].
  exact IH.
Qed.

Lemma not_in_name a :
  existsb (Ascii.eqb (mask_char a)) (mask (lit "DevCamTests")) = false ->
  ~ In a (lit "DevCamTests").
Proof.
  intros H Hin. apply (in_map mask_char) in Hin.
  assert (existsb (Ascii.eqb (mask_char a)) (mask (lit "DevCamTests")) = true);
    [|congruence].
  apply existsb_exists. exists (mask_char a). split; [done|apply Ascii.eqb_refl].
Qed.

Lemma plain_image_spec ins : plain_image (mask ins) = true -> plain_text ins.
Proof.
  unfold plain_image. cbv zeta. rewrite head_mask, last_mask.
  intros [Hc H]%andb_true_iff. apply negb_true_iff in Hc.
  destruct (head ins) as [a|] eqn:Ea; [|done].
  destruct (last ins) as [b|] eqn:Eb; [|done]. cbn [option_map] in H.
  apply andb_true_iff in H as [Ha%negb_true_iff Hb%negb_true_iff].
  split_and!.
  - destruct (contains (lit "DevCamTests") ins) eqn:E; [|done].
    apply contains_mask in E. congruence.
  - exists a. split; [done|by apply not_in_name].
  - exists b. split; [done|by apply not_in_name].
Qed.

Ltac mask_text Hk :=
  destruct (good_keys_masks _ Hk) as (?&?&?&?&?&?&?&?&?&?&?);
  unfold new_frameworks, new_resources, new_sources, build_phase,
    container_proxy, target_dependency, new_attrs_item, ln;
  rewrite ?mask_app;
  repeat match goal with H : mask _ = zeros |- _ => rewrite ?H; clear H end;
  vm_compute; reflexivity.

Lemma plain_texts_plain k :
  good_keys k -> Forall plain_text (plain_texts k).
Proof.
  intros Hk. unfold plain_texts.
  repeat (apply Forall_cons; split; [apply plain_image_spec|]); [..|apply Forall_nil_2].
  - assert (mask (new_frameworks k) = mask (new_frameworks zero_keys)) as ->
      by mask_text Hk. by vm_compute.
  - assert (mask (container_proxy k) = mask (container_proxy zero_keys)) as ->
      by mask_text Hk. by vm_compute.
  - assert (mask (target_dependency k) = mask (target_dependency zero_keys)) as ->
      by mask_text Hk. by vm_compute.
  - assert (mask (new_attrs_item k) = mask (new_attrs_item zero_keys)) as ->
      by mask_text Hk. by vm_compute.
  - assert (mask (new_resources k) = mask (new_resources zero_keys)) as ->
      by mask_text Hk. by vm_compute.
  - assert (mask (new_sources k) = mask (new_sources zero_keys)) as ->
      by mask_text Hk. by vm_compute.
Qed.

Lemma name_starts_not a s :
  ~ In a (lit "DevCamTests") ->
  contains (lit "DevCamTests") (a :: s) = true ->
  contains (lit "DevCamTests") s = true.
Proof.
  intros Ha. cbn [contains]. intros [H|H]%orb_true_iff; [|done].
  exfalso. apply Ha. apply startswith_spec in H as [t Ht].
  injection Ht as -> _. by left.
Qed.

Lemma replace_adds_no_name u ins v s a :
  u ++ v <> [] -> plain_text ins ->
  contains (lit "DevCamTests") (a ++ replace (u ++ v) (u ++ ins ++ v) s) = true ->
  contains (lit "DevCamTests") (a ++ s) = true.
Proof.
  intros Hold (Hin & (x & Hx & Hxn) & (y & Hy & Hyn)).
  apply last_Some in Hy as [ins0 Hy].
  remember (length s) as n eqn:Hn. revert s a Hn.
  induction n as [n IH] using lt_wf_ind. intros s a -> H.
  destruct (contains (u ++ v) s) eqn:E; [|by rewrite replace_absent in H].
  apply first_occurrence in E as (pre & post & -> & Hj).
  rewrite replace_first in H by done.
  set (r := replace (u ++ v) (u ++ ins ++ v) post) in *.
  destruct ins as [|x' ins']; [done|]. injection Hx as ->.
  assert (E1 : a ++ pre ++ (u ++ (x :: ins') ++ v) ++ r =
               (a ++ pre ++ u) ++ x :: (ins' ++ v ++ r))
    by (rewrite <- ?app_assoc; simpl; by rewrite <- ?app_assoc).
  rewrite E1 in H. apply contains_app_cut in H as [H|H]; [| |done].
  { replace (a ++ pre ++ (u ++ v) ++ post) with ((a ++ pre ++ u) ++ v ++ post)
      by (by rewrite <- !app_assoc).
    by apply contains_app_l. }
  assert (E2 : x :: ins' ++ v ++ r = ins0 ++ y :: (v ++ r)).
  { change (x :: ins' ++ v ++ r) with ((x :: ins') ++ v ++ r).
    rewrite Hy, <- app_assoc. done. }
  rewrite E2 in H. apply contains_app_cut in H as [H|H]; [| |done].
  { assert (contains (lit "DevCamTests") (x :: ins') = true); [|congruence].
    rewrite Hy. by apply contains_app_l. }
  apply name_starts_not in H; [|done].
  apply (IH (length post)) in H; [| |done].
  - replace (a ++ pre ++ (u ++ v) ++ post) with ((a ++ pre ++ u) ++ v ++ post)
      by (by rewrite <- !app_assoc).
    by apply contains_app_r.
  - assert (0 < length (u ++ v)) by (destruct (u ++ v); [done|simpl; lia]).
    rewrite length_app, (length_app (u ++ v)). lia.
Qed.

Lemma insert_entry_no_name anchor marker entry :
  marker <> [] -> plain_text entry ->
  adds_no_name (insert_entry anchor marker entry).
Proof.
  intros Hm He c Hc. unfold insert_entry. destruct (search anchor c); [|done].
  destruct (contains _ (replace _ _ c)) eqn:E; [|done].
  apply (replace_adds_no_name [] entry marker c []) in E; [|done|done].
  change (contains (lit "DevCamTests") c = true) in E. congruence.
Qed.

Lemma create_section_no_name begin block before :
  before <> [] -> plain_text block ->
  adds_no_name (create_section begin block before).
Proof.
  intros Hm He c Hc. unfold create_section. destruct (negb _); [|done].
  destruct (contains _ (replace _ _ c)) eqn:E; [|done].
  apply (replace_adds_no_name [] block before c []) in E; [|done|done].
  change (contains (lit "DevCamTests") c = true) in E. congruence.
Qed.

Lemma append_to_list_no_name r item :
  three_groups r -> plain_text item -> adds_no_name (append_to_list r item).
Proof.
  intros Hr Hi c Hc. unfold append_to_list.
  destruct (search r c) as [mt|] eqn:Es; [|done]. cbv zeta.
  rewrite (search_groups _ _ _ Hr Es).
  assert (Hne : group mt 1 ++ group mt 2 ++ group mt 3 <> []).
  { rewrite <- (search_groups _ _ _ Hr Es).
    apply search_some in Es as (pre & post & _ & Hm & _).
    apply match_here_sound in Hm as (_ & _ & Hm). by apply Hr in Hm as [? _]. }
  replace (group mt 1 ++ group mt 2 ++ group mt 3)
    with ((group mt 1 ++ group mt 2) ++ group mt 3) in * by (by rewrite <- app_assoc).
  replace (group mt 1 ++ (group mt 2 ++ item) ++ group mt 3)
    with ((group mt 1 ++ group mt 2) ++ item ++ group mt 3)
    by (by rewrite <- !app_assoc).
  destruct (contains _ (replace _ _ c)) eqn:E; [|done].
  apply (replace_adds_no_name _ item _ c []) in E; [|done|done].
  change (contains (lit "DevCamTests") c = true) in E. congruence.
Qed.

Lemma step_no_name k i :
  good_keys k -> 1 <= i -> ~ In i name_steps ->
  adds_no_name (nth (i - 1) (steps k) (fun c => c)).
Proof.
  intros Hk Hi Hn.
  pose proof (plain_texts_plain k Hk) as Hp. unfold plain_texts in Hp.
  repeat (apply Forall_cons in Hp as [? Hp]).
  unfold steps.
  do 15 (destruct i as [|i]; [try lia; try (exfalso; apply Hn; simpl; lia);
    cbn [Nat.sub nth];
    unfold step3, step7, step8, step10, step11, step12;
    first [ by apply insert_entry_no_name
          | by apply create_section_no_name
          | apply append_to_list_no_name; [apply target_attrs_re_three|done] ]|]).
  cbn [Nat.sub nth]. destruct i; by intros c Hc.
Qed.

Lemma patch_no_name k content :
  good_keys k -> contains (lit "DevCamTests") content = false ->
  (forall i, In i name_steps ->
     nth (i - 1) (steps k) (fun c => c) (content_before k i content) =
       content_before k i content) ->
  contains (lit "DevCamTests") (patch k content) = false.
Proof.
  intros Hk Hc Hsame.
  assert (H : forall n, n <= 14 ->
    contains (lit "DevCamTests") (content_before k (S n) content) = false).
  { induction n as [|n IH]; intros Hn.
    - rewrite content_before_first. exact Hc.
    - rewrite content_before_succ by lia.
      destruct (In_dec Nat.eq_dec (S n) name_steps) as [Hin|Hin].
      + rewrite (Hsame _ Hin). apply IH. lia.
      + assert (Hi : 1 <= S n) by lia.
        apply (step_no_name k (S n) Hk Hi Hin). apply IH. lia. }
  rewrite <- content_before_last. apply H. lia.
Qed.

(** X2.  A second run after a run that did not write the name.  When the
    project file has no DevCamTests and none of the steps 1, 2, 4, 5, 6, 9,
    13 and 14 changes the content it receives, the file written has no
    DevCamTests either, whatever steps 3, 7, 8, 10, 11 and 12 inserted: the
    already-exists test of a further run does not fire, and that run draws
    eleven new keys, applies the fourteen steps to the file the first run
    wrote, writes the result and prints the message of success. *)
Theorem second_run_repeats (urandom16 urandom16' : nat -> N) (w : world)
    (content : str) :
  let k := run_keys urandom16 (draws w) in
  let text := universal_newlines content in
  let w1 := snd (main urandom16 w) in
  files w !! project_path = Some (Text content) ->
  contains (lit "DevCamTests") content = false ->
  (forall i, In i name_steps ->
     nth (i - 1) (steps k) (fun c => c) (content_before k i text) =
       content_before k i text) ->
  main urandom16' w1 =
    (Ret tt,
     after w1 (<[project_path :=
                  Text (patch (run_keys urandom16' (draws w1)) (patch k text))]>
                 (files w1))
       ["Successfully added DevCamTests target to Xcode project!"%string] 11).
Proof.
  intros k text w1 Hf Hc Hsame. subst w1 text. rewrite (main2_absent _ _ _ Hf Hc).
  cbn [snd]. fold k. set (w1 := after _ _ _ _).
  rewrite <- (patch_read k content (run_keys_good _ _)).
  apply main2_absent; [apply lookup_insert_eq|].
  apply patch_no_name; [apply run_keys_good|by rewrite name_read|done].
Qed.

(** X2 at the file that has the end of the PBXFrameworksBuildPhase section
    only: step 3 inserts a build phase, which does not have the name. *)
Lemma second_run_repeats_witness :
  let k := run_keys counting 0 in
  let w1 := snd (main counting (world_of frameworks_only)) in
  main spread w1 =
    (Ret tt,
     after w1 (<[project_path :=
                  Text (patch (run_keys spread (draws w1))
                          (patch k frameworks_only))]>
                 (files w1))
       ["Successfully added DevCamTests target to Xcode project!"%string] 11).
Proof.
  apply (second_run_repeats counting spread (world_of frameworks_only) frameworks_only).
  - vm_compute; reflexivity.
  - vm_compute; reflexivity.
  - intros i Hi. simpl in Hi.
    repeat (destruct Hi as [<-|Hi]; [vm_compute; reflexivity|]). done.
Defined.

(** ** When a step changes the content *)

Lemma search_iff r s :
  is_Some (search r s) <->
  exists pre m g post, s = pre ++ m ++ post /\ matches r m g.
Proof.
  split.
  - intros [mt (pre & post & -> & Hm & _)%search_some].
    apply match_here_sound in Hm as (_ & _ & Hm). eauto 6.
  - intros (pre & m & g & post & -> & Hm).
    apply search_is_some. by eapply match_here_complete.
Qed.

Lemma insert_entry_changes anchor marker entry content :
  marker <> [] -> entry <> [] ->
  (forall m g, matches anchor m g -> contains marker m = true) ->
  insert_entry anchor marker entry content <> content <->
  is_Some (search anchor content).
Proof.
  intros Hm He Ha. unfold insert_entry.
  destruct (search anchor content) as [mt|] eqn:E.
  - split; [by eauto|]. intros _ H.
    assert (Hc : contains marker content = true).
    { destruct (contains marker content) eqn:Hc; [done|].
      by rewrite (search_needs anchor marker content Ha Hc) in E. }
    assert (length content < length (replace marker (entry ++ marker) content)).
    { apply replace_grows; [done|by apply sublist_inserts_l| |done].
      rewrite length_app. destruct entry; [done|simpl; lia]. }
    rewrite H in *. lia.
  - split; [done|]. by intros [? ?].
Qed.

Lemma append_to_list_changes r item content :
  three_groups r -> item <> [] ->
  append_to_list r item content <> content <-> is_Some (search r content).
Proof.
  intros Hr Hi. destruct (search r content) as [mt|] eqn:E.
  - split; [by eauto|]. intros _ H.
    destruct (append_to_list_some r item content mt Hr E) as (pre & post & Hc & _ & Hres).
    rewrite H in Hres. rewrite Hc in Hres at 1.
    apply (f_equal length) in Hres. rewrite !length_app in Hres.
    assert (length post <=
            length (replace (group mt 0)
                      (group mt 1 ++ (group mt 2 ++ item) ++ group mt 3) post)).
    { apply replace_length. rewrite (search_groups _ _ _ Hr E).
      apply sublist_app; [done|]. rewrite <- app_assoc. apply sublist_app; [done|].
      by apply sublist_inserts_l. }
    assert (0 < length item) by (destruct item; [done|simpl; lia]). lia.
  - unfold append_to_list. rewrite E. split; [done|]. by intros [? ?].
Qed.

Lemma matches_eq r m m' g : matches r m g -> m = m' -> matches r m' g.
Proof. by intros H <-. Qed.

Lemma in_dot m : forallb (in_cls CDot) m = true.
Proof. by induction m. Qed.

Ltac build_match :=
  repeat first [ eapply matches_cat | eapply matches_grp | eapply matches_lit
               | eapply matches_star; first [apply in_dot | reflexivity] ].

Lemma lit_matches l m g : matches (Lit l) m g -> contains l m = true.
Proof. intros H. inversion H; subst. apply contains_refl. Qed.

Lemma file_ref_re_shape m g :
  matches file_ref_re m g <->
  exists body,
    m = begin_section "PBXFileReference" ++ [nl] ++ body ++ [nl] ++
        end_section "PBXFileReference" /\
    g = [body].
Proof.
  unfold file_ref_re. split.
  - intros H. inv_matches. eexists. split; [|reflexivity].
    rewrite <- ?app_assoc. reflexivity.
  - intros (body & -> & ->).
    replace (begin_section "PBXFileReference" ++ [nl] ++ body ++ [nl] ++
             end_section "PBXFileReference")
      with ((begin_section "PBXFileReference" ++ [nl]) ++ body ++
            (nl :: end_section "PBXFileReference")) by (by rewrite <- !app_assoc).
    apply (matches_cat _ _ _ _ [] [body]); [constructor|].
    apply (matches_cat _ _ _ _ [body] []); [|constructor].
    do 2 constructor. apply in_dot.
Qed.

Lemma list_re_shape opening list_open list_close m :
  (exists g, matches (list_re opening list_open list_close) m g) <->
  exists x mid,
    m = lit opening ++ x ++ lit list_open ++ mid ++ lit list_close.
Proof.
  unfold list_re. split.
  - intros [g H]. inv_matches.
    match goal with
    | |- exists _ _, ((_ ++ ?m1 ++ _ ++ ?w1) ++ ?g2 ++ ?w2 ++ _) = _ =>
        exists m1, (w1 ++ g2 ++ w2)
    end.
    by rewrite <- !app_assoc.
  - intros (x & mid & ->). eexists.
    apply (matches_eq _
      ((lit opening ++ x ++ lit list_open ++ []) ++ mid ++ ([] ++ lit list_close)));
      [build_match|by rewrite app_nil_r, <- !app_assoc].
Qed.

Lemma targets_re_shape m :
  (exists g, matches targets_re m g) <->
  exists mid, m = lit "targets = (" ++ mid ++ lit ");".
Proof.
  unfold targets_re. split.
  - intros [g H]. inv_matches.
    match goal with
    | |- exists _, ((_ ++ ?w1) ++ ?g2 ++ ?w2 ++ _) = _ => exists (w1 ++ g2 ++ w2)
    end.
    by rewrite <- !app_assoc.
  - intros (mid & ->). eexists.
    apply (matches_eq _ ((lit "targets = (" ++ []) ++ mid ++ ([] ++ lit ");")));
      [build_match|by rewrite app_nil_r].
Qed.

Lemma target_attrs_re_shape m :
  (exists g, matches target_attrs_re m g) <->
  exists mid, m = lit "TargetAttributes = {" ++ mid ++ lit "};".
Proof.
  unfold target_attrs_re. split.
  - intros [g H]. inv_matches.
    match goal with
    | |- exists _, (_ ++ ?g2 ++ ?w2 ++ _) = _ => exists (g2 ++ w2)
    end.
    by rewrite <- !app_assoc.
  - intros (mid & ->). eexists.
    apply (matches_eq _ (lit "TargetAttributes = {" ++ mid ++ ([] ++ lit "};")));
      [build_match|done].
Qed.

Lemma search_lit_iff l s : is_Some (search (Lit l) s) <-> contains l s = true.
Proof.
  split; [|apply search_lit_some].
  intros [mt H]. destruct (contains l s) eqn:E; [done|].
  by rewrite search_lit_none in H.
Qed.

Lemma end_step_changes name entry content :
  entry <> [] ->
  insert_entry (Lit (end_section name)) (end_section name) entry content <> content <->
  contains (end_section name) content = true.
Proof.
  intros He. rewrite insert_entry_changes, search_lit_iff; [done|done|done|].
  apply lit_matches.
Qed.

(** X3.  When the entry steps change the content.  Step 1 changes it exactly
    when it holds the Begin marker of PBXFileReference, a newline, any text,
    a newline and the End marker: an End marker alone, or a section with a
    single newline between its markers, is not enough.  Each of the steps
    2, 3, 6, 11, 12, 13 and 14 changes it exactly when it contains the End
    marker of the step's section. *)
Theorem entry_steps_change_iff (k : keys) (content : str) :
  (step1 k content <> content <->
   exists pre body post,
     content = pre ++ begin_section "PBXFileReference" ++ [nl] ++ body ++ [nl] ++
               end_section "PBXFileReference" ++ post) /\
  Forall (fun '(i, name) =>
            nth (i - 1) (steps k) (fun c => c) content <> content <->
            contains (end_section name) content = true)
    [(2, "PBXFileSystemSynchronizedRootGroup"%string);
     (3, "PBXFrameworksBuildPhase"%string);
     (6, "PBXNativeTarget"%string); (11, "PBXResourcesBuildPhase"%string);
     (12, "PBXSourcesBuildPhase"%string); (13, "XCBuildConfiguration"%string);
     (14, "XCConfigurationList"%string)].
Proof.
  split.
  - unfold step1. rewrite insert_entry_changes, search_iff; [|done|done|].
    + split.
      * intros (pre & m & g & post & -> & (body & -> & _)%file_ref_re_shape).
        exists pre, body, post. by rewrite <- !app_assoc.
      * intros (pre & body & post & ->).
        exists pre, (begin_section "PBXFileReference" ++ [nl] ++ body ++ [nl] ++
                     end_section "PBXFileReference"), [body], post.
        split; [by rewrite <- !app_assoc|]. apply file_ref_re_shape. eauto.
    + intros m g (body & -> & _)%file_ref_re_shape.
      by apply contains_app_r, contains_app_r, contains_app_r, contains_app_r, contains_refl.
  - repeat constructor; cbn [Nat.sub nth steps];
      unfold step2, step3, step6, step11, step12, step13, step14;
      by apply end_step_changes.
Qed.

Lemma list_step_changes r item content :
  In r list_anchors -> item <> [] ->
  append_to_list r item content <> content <->
  exists pre m post, content = pre ++ m ++ post /\ exists g, matches r m g.
Proof.
  intros Hr%list_anchors_three Hi.
  rewrite append_to_list_changes, search_iff by done. split.
  - intros (pre & m & g & post & -> & H). exists pre, m, post. eauto.
  - intros (pre & m & post & -> & g & H). exists pre, m, g, post. eauto.
Qed.

Lemma in_list_anchors :
  In products_re list_anchors /\ In main_group_re list_anchors /\
  In targets_re list_anchors /\ In target_attrs_re list_anchors.
Proof. unfold list_anchors. split_and!; cbn [In]; auto. Qed.

Lemma ln_nonempty n body : ln n body <> [].
Proof. unfold ln. destruct n, body; done. Qed.

(** X4.  When the list steps change the content.  Steps 4 and 5 change it
    exactly when the key of the Products group, or of the main group, with
    its opening text is followed, anywhere later, by [children = (] and then,
    anywhere later, by [);]; step 9 exactly when [targets = (] is followed
    later by [);]; step 10 exactly when [TargetAttributes = {] is followed
    later by [};].  Nothing asks that the list found belongs to the object
    sought. *)
Theorem list_steps_change_iff (k : keys) (content : str) :
  (step4 k content <> content <->
   exists pre x mid post,
     content = pre ++ lit "D76E4B1F2F2331380090999D /* Products */ = {" ++ x ++
               lit "children = (" ++ mid ++ lit ");" ++ post) /\
  (step5 k content <> content <->
   exists pre x mid post,
     content = pre ++ lit "D76E4B152F2331380090999D = {" ++ x ++
               lit "children = (" ++ mid ++ lit ");" ++ post) /\
  (step9 k content <> content <->
   exists pre mid post,
     content = pre ++ lit "targets = (" ++ mid ++ lit ");" ++ post) /\
  (step10 k content <> content <->
   exists pre mid post,
     content = pre ++ lit "TargetAttributes = {" ++ mid ++ lit "};" ++ post).
Proof.
  destruct in_list_anchors as (H4 & H5 & H9 & H10).
  unfold step4, step5, step9, step10. split_and!.
  - rewrite (list_step_changes _ _ _ H4 (ln_nonempty _ _)). split.
    + intros (pre & m & post & -> & Hm).
      apply list_re_shape in Hm as (x & mid & ->).
      exists pre, x, mid, post. by rewrite <- !app_assoc.
    + intros (pre & x & mid & post & ->). eexists pre, _, post. split; [|apply list_re_shape; by exists x, mid].
      by rewrite <- !app_assoc.
  - rewrite (list_step_changes _ _ _ H5 (ln_nonempty _ _)). split.
    + intros (pre & m & post & -> & Hm).
      apply list_re_shape in Hm as (x & mid & ->).
      exists pre, x, mid, post. by rewrite <- !app_assoc.
    + intros (pre & x & mid & post & ->). eexists pre, _, post. split; [|apply list_re_shape; by exists x, mid].
      by rewrite <- !app_assoc.
  - rewrite (list_step_changes _ _ _ H9 (ln_nonempty _ _)). split.
    + intros (pre & m & post & -> & Hm).
      apply targets_re_shape in Hm as (mid & ->).
      exists pre, mid, post. by rewrite <- !app_assoc.
    + intros (pre & mid & post & ->). eexists pre, _, post. split; [|apply targets_re_shape; by exists mid].
      by rewrite <- !app_assoc.
  - assert (Hi : new_attrs_item k <> []) by done.
    rewrite (list_step_changes _ _ _ H10 Hi). split.
    + intros (pre & m & post & -> & Hm).
      apply target_attrs_re_shape in Hm as (mid & ->).
      exists pre, mid, post. by rewrite <- !app_assoc.
    + intros (pre & mid & post & ->). eexists pre, _, post. split; [|apply target_attrs_re_shape; by exists mid].
      by rewrite <- !app_assoc.
Qed.

(** ** The order in which the matcher tries the repetitions *)

Section Priority.
Context {R : Type}.
Implicit Types (k : @kont R) (s m rest : str).

(** [c*?] stops at the shortest repetition that the rest accepts. *)
Lemma star_lazy_shortest c s k x :
  star_lazy c s k = Some x ->
  exists m rest, s = m ++ rest /\ forallb (in_cls c) m = true /\
    k m rest [] = Some x /\
    forall j, j < length m -> k (take j m) (drop j s) [] = None.
Proof.
  revert k. induction s as [|a s IH]; intros k; simpl.
  - destruct (k [] [] []) eqn:E; [|done]. intros [= ->].
    exists [], []. split_and!; [done..|]. simpl. lia.
  - destruct (k [] (a :: s) []) eqn:E.
    + intros [= ->]. exists [], (a :: s). split_and!; [done..|]. simpl. lia.
    + destruct (in_cls c a) eqn:Ha; [|done].
      intros (m & rest & -> & Hm & Hk & Hj)%IH.
      exists (a :: m), rest. split_and!; [done|simpl; by rewrite Ha, Hm|done|].
      intros [|j] Hl; [done|]. simpl. apply (Hj j). simpl in Hl. lia.
Qed.

(** [c*] stops at the longest repetition that the rest accepts. *)
Lemma star_greedy_longest c s k x :
  star_greedy c s k = Some x ->
  exists m rest, s = m ++ rest /\ forallb (in_cls c) m = true /\
    k m rest [] = Some x /\
    forall m' rest', s = m' ++ rest' -> forallb (in_cls c) m' = true ->
      length m < length m' -> k m' rest' [] = None.
Proof.
  revert k. induction s as [|a s IH]; intros k; simpl.
  - intros Hk. exists [], []. split_and!; [done..|].
    intros m' rest' Hs _ Hl. destruct m'; [simpl in Hl; lia|done].
  - assert (Hnone : star_greedy c s (shift a k) = None ->
      forall m' rest', a :: s = m' ++ rest' -> forallb (in_cls c) m' = true ->
        0 < length m' -> k m' rest' [] = None).
    { intros E m' rest' Hs Hm' Hl. destruct m' as [|b m']; [simpl in Hl; lia|].
      simplify_eq/=. apply andb_true_iff in Hm' as [_ Hm'].
      destruct (k (b :: m') rest' []) eqn:Ek; [|done].
      destruct (star_greedy_complete c m' rest' (shift b k) Hm') as [y Hy];
        [unfold shift; rewrite Ek; eauto|]. congruence. }
    destruct (in_cls c a) eqn:Ha.
    + destruct (star_greedy c s (shift a k)) eqn:E.
      * intros [= ->]. apply IH in E as (m & rest & -> & Hm & Hk & Hlong).
        exists (a :: m), rest. split_and!; [done|simpl; by rewrite Ha, Hm|done|].
        intros m' rest' Hs Hm' Hl. destruct m' as [|b m']; [simpl in Hl; lia|].
        simplify_eq/=. apply andb_true_iff in Hm' as [_ Hm'].
        apply (Hlong m' rest'); [done|done|lia].
      * intros Hk. exists [], (a :: s). split_and!; [done..|].
        intros m' rest' Hs Hm' Hl. by apply Hnone.
    + intros Hk. exists [], (a :: s). split_and!; [done..|].
      intros m' rest' Hs Hm' Hl. destruct m' as [|b m']; [simpl in Hl; lia|].
      simplify_eq/=. by rewrite Ha in Hm'.
Qed.
End Priority.

Lemma exec_ends_ws {R} r s (K : @kont R) (P : str -> Prop) x :
  ends_ws r ->
  (forall m rest g, P rest -> is_Some (K m rest g)) ->
  exec r s K = Some x ->
  exists m rest g, s = m ++ rest /\ matches r m g /\ K m rest g = Some x /\
    forall a rest', rest = a :: rest' -> is_space a = true -> ~ P rest'.
Proof.
  intros Hr. revert s K. induction Hr as [|r1 r2 _ IH|r _ IH]; intros s K HK; cbn [exec].
  - intros (m & rest & -> & Hm & Hk & Hlong)%star_greedy_longest.
    exists m, rest, []. split_and!; [done|by constructor|done|].
    intros a rest' -> Ha HP.
    assert (K (m ++ [a]) rest' [] = None) as E.
    { apply Hlong; [by rewrite <- app_assoc| |rewrite length_app; simpl; lia].
      rewrite forallb_app, Hm. simpl. by rewrite Ha. }
    destruct (HK (m ++ [a]) rest' [] HP) as [y Hy]. congruence.
  - intros (m1 & rest1 & g1 & -> & H1 & H2)%exec_sound.
    apply IH in H2 as (m2 & rest & g2 & -> & H2 & Hk & Hlong); [|by eauto].
    exists (m1 ++ m2), rest, (g1 ++ g2).
    split_and!; [by rewrite app_assoc|by constructor|done|done].
  - intros H. apply IH in H as (m & rest & g & -> & Hm & Hk & Hlong); [|by eauto].
    exists m, rest, (m :: g). split_and!; [done|by constructor|done|done].
Qed.

Lemma exec_list_tail {R} close s (K : @kont R) x :
  (forall m rest g, is_Some (K m rest g)) ->
  exec (list_tail close) s K = Some x ->
  exists g2 ws rest,
    s = g2 ++ ws ++ close ++ rest /\ forallb is_space ws = true /\
    K (g2 ++ ws ++ close) rest [g2; ws ++ close] = Some x /\
    forall j, j < length g2 -> ~ closes close (drop j s).
Proof.
  intros HK. unfold list_tail. cbn [exec].
  intros (g2 & rest1 & -> & _ & Hk & Hshort)%star_lazy_shortest.
  apply star_greedy_sound in Hk as (ws & rest2 & -> & Hws & Hk).
  destruct (startswith close rest2) eqn:E; [|done].
  apply startswith_spec in E as [t0 ->]. rewrite drop_app_length in Hk.
  exists g2, ws, t0. split_and!; [done|done| |].
  - rewrite <- Hk. f_equal.
  - intros j Hj (ws' & t & Hws' & Hd). specialize (Hshort j Hj).
    rewrite Hd in Hshort.
    match type of Hshort with star_greedy _ _ ?k = None =>
      destruct (star_greedy_complete CSpace ws' (close ++ t) k Hws') as [y Hy] end.
    + rewrite startswith_app. apply HK.
    + congruence.
Qed.

Lemma list_tail_matches close g2 ws :
  forallb is_space ws = true ->
  matches (list_tail close) (g2 ++ ws ++ close) [g2; ws ++ close].
Proof.
  intros Hws. unfold list_tail.
  apply (matches_cat _ _ g2 (ws ++ close) [g2] [ws ++ close]).
  - do 2 constructor. by induction g2.
  - constructor. apply (matches_cat _ _ ws close [] []); by constructor.
Qed.

Lemma list_tail_result close m1 gs rest1 mt :
  exec (list_tail close) rest1 (tail_kont m1 gs) = Some mt ->
  exists g2 ws rest,
    rest1 = g2 ++ ws ++ close ++ rest /\
    mt = {| group0 := m1 ++ g2 ++ ws ++ close;
            groups := gs ++ [g2; ws ++ close] |} /\
    forallb is_space ws = true /\
    forall j, j < length g2 -> ~ closes close (drop j rest1).
Proof.
  intros (g2 & ws & rest & -> & Hws & Hk & Hshort)%exec_list_tail; [|by eexists].
  exists g2, ws, rest. split_and!; [done| |done|done].
  unfold tail_kont, accept in Hk. by injection Hk as <-.
Qed.

Lemma list_tail_accepts close m1 gs g2 ws t :
  forallb is_space ws = true ->
  is_Some (exec (list_tail close) (g2 ++ ws ++ close ++ t) (tail_kont m1 gs)).
Proof.
  intros Hws.
  replace (g2 ++ ws ++ close ++ t) with ((g2 ++ ws ++ close) ++ t)
    by (by rewrite <- !app_assoc).
  eapply exec_complete; [by apply list_tail_matches|]. by eexists.
Qed.

(** What the matcher returns for a pattern [g1(.*?)(\s*close)]. *)
Lemma match_list g1 close s mt :
  match_here (g1 ∙ list_tail close) s = Some mt ->
  exists m1 gs g2 ws rest,
    s = m1 ++ g2 ++ ws ++ close ++ rest /\ matches g1 m1 gs /\
    mt = {| group0 := m1 ++ g2 ++ ws ++ close;
            groups := gs ++ [g2; ws ++ close] |} /\
    forallb is_space ws = true /\
    forall j, j < length g2 -> ~ closes close (drop j (g2 ++ ws ++ close ++ rest)).
Proof.
  unfold match_here. cbn [exec].
  intros (m1 & rest1 & gs & -> & Hm & Hk)%exec_sound.
  apply (list_tail_result close m1 gs) in Hk as (g2 & ws & rest & -> & -> & Hws & Hs).
  exists m1, gs, g2, ws, rest. done.
Qed.

(** When [g1] ends with [\s*], that white space is as long as it can be. *)
Lemma match_list_ws g1 close s mt :
  ends_ws g1 ->
  match_here (g1 ∙ list_tail close) s = Some mt ->
  exists m1 gs g2 ws rest,
    s = m1 ++ g2 ++ ws ++ close ++ rest /\ matches g1 m1 gs /\
    mt = {| group0 := m1 ++ g2 ++ ws ++ close;
            groups := gs ++ [g2; ws ++ close] |} /\
    forallb is_space ws = true /\
    (forall j, j < length g2 -> ~ closes close (drop j (g2 ++ ws ++ close ++ rest))) /\
    forall a, head g2 = Some a -> is_space a = false.
Proof.
  intros He. unfold match_here. cbn [exec]. intros H.
  apply (exec_ends_ws g1 s _
           (fun s1 => exists g2 ws t, forallb is_space ws = true /\
                                      s1 = g2 ++ ws ++ close ++ t)) in H
    as (m1 & rest1 & gs & -> & Hm & Hk & Hlong); [|done|].
  - apply (list_tail_result close m1 gs) in Hk as (g2 & ws & rest & -> & -> & Hws & Hs).
    exists m1, gs, g2, ws, rest. split_and!; [done..|].
    intros a Ha. destruct g2 as [|b g2]; [done|]. simplify_eq/=.
    destruct (is_space a) eqn:E; [|done]. exfalso.
    apply (Hlong a (g2 ++ ws ++ close ++ rest)); [done|done|]. by exists g2, ws, rest.
  - intros m rest g (g2 & ws & t & Hws & ->).
    by apply (list_tail_accepts close m g).
Qed.

Lemma closes_here close t : closes close (close ++ t).
Proof. by exists [], t. Qed.

(** The shortest second group, in terms of the text. *)
Lemma shortest_facts c close' g2 ws rest :
  is_space c = false -> forallb is_space ws = true ->
  (forall j, j < length g2 ->
     ~ closes (c :: close') (drop j (g2 ++ ws ++ (c :: close') ++ rest))) ->
  (forall j, occurs_at (c :: close') (g2 ++ ws ++ c :: close') j ->
     j = length g2 + length ws) /\
  (forall a, last g2 = Some a -> is_space a = false).
Proof.
  intros Hc Hws Hshort. split.
  - intros j Hj. unfold occurs_at in Hj.
    destruct (decide (j < length g2)) as [H1|H1].
    { exfalso. apply (Hshort j H1).
      replace (g2 ++ ws ++ (c :: close') ++ rest)
        with ((g2 ++ ws ++ c :: close') ++ rest) by (by rewrite <- !app_assoc).
      rewrite drop_app_le by (rewrite length_app; lia).
      apply startswith_spec in Hj as [t ->]. rewrite <- app_assoc. apply closes_here. }
    destruct (decide (j < length g2 + length ws)) as [H2|H2].
    { exfalso. rewrite drop_app_ge in Hj by lia.
      rewrite drop_app_le in Hj by lia.
      pose proof (forallb_drop is_space (j - length g2) ws Hws) as Hd.
      destruct (drop (j - length g2) ws) as [|a t] eqn:E.
      { apply (f_equal length) in E. rewrite length_drop in E. simpl in E. lia. }
      simpl in Hj, Hd. destruct (Ascii.eqb_spec c a) as [->|]; [|done].
      rewrite Hc in Hd. done. }
    apply startswith_length in Hj. rewrite length_drop, !length_app in Hj.
    simpl in Hj. lia.
  - intros a Ha. destruct (is_space a) eqn:E; [|done]. exfalso.
    apply last_Some in Ha as [g2' ->].
    apply (Hshort (length g2')); [rewrite length_app; simpl; lia|].
    rewrite <- app_assoc, drop_app_length.
    exists (a :: ws), rest. split; [simpl; by rewrite E, Hws|done].
Qed.

Lemma position_facts g1 c close' s mt :
  (forall m gs, matches g1 m gs -> gs = [m]) -> is_space c = false ->
  match_here (g1 ∙ list_tail (c :: close')) s = Some mt ->
  exists ws,
    group mt 3 = ws ++ c :: close' /\ forallb is_space ws = true /\
    (forall j, occurs_at (c :: close') (group mt 2 ++ group mt 3) j ->
       j = length (group mt 2) + length ws) /\
    (forall a, last (group mt 2) = Some a -> is_space a = false).
Proof.
  intros Hg Hc (m1 & gs & g2 & ws & rest & -> & Hm & -> & Hws & Hs)%match_list.
  rewrite (Hg _ _ Hm). cbn [group groups app nth].
  exists ws. split_and!; [done|done|..];
    by apply (shortest_facts c close' g2 ws rest).
Qed.

Lemma head_fact g1 close s mt :
  (forall m gs, matches g1 m gs -> gs = [m]) -> ends_ws g1 ->
  match_here (g1 ∙ list_tail close) s = Some mt ->
  forall a, head (group mt 2) = Some a -> is_space a = false.
Proof.
  intros Hg He (m1 & gs & g2 & ws & rest & -> & Hm & -> & Hws & Hs & Hh)%match_list_ws;
    [|done].
  rewrite (Hg _ _ Hm). cbn [group groups app nth]. done.
Qed.

Lemma list_re_one opening list_open m gs :
  matches (Grp (Lit (lit opening) ∙ Star true CDot ∙ Lit (lit list_open) ∙
                Star false CSpace)) m gs -> gs = [m].
Proof. intros H. by inv_matches. Qed.

Lemma targets_one m gs :
  matches (Grp (Lit (lit "targets = (") ∙ Star false CSpace)) m gs -> gs = [m].
Proof. intros H. by inv_matches. Qed.

Lemma target_attrs_one m gs :
  matches (Grp (Lit (lit "TargetAttributes = {"))) m gs -> gs = [m].
Proof. intros H. by inv_matches. Qed.

Lemma append_to_list_at r item content mt pre post :
  three_groups r -> search r content = Some mt ->
  content = pre ++ group0 mt ++ post ->
  (forall j, j < length pre -> match_here r (drop j content) = None) ->
  append_to_list r item content =
    pre ++ group mt 1 ++ group mt 2 ++ item ++ group mt 3 ++
    replace (group mt 0) (group mt 1 ++ (group mt 2 ++ item) ++ group mt 3) post.
Proof.
  intros Hr Hs Hc Hl. unfold append_to_list. rewrite Hs. cbv zeta.
  change (group0 mt) with (group mt 0) in Hc. rewrite Hc at 1.
  rewrite replace_first.
  - by rewrite <- !app_assoc.
  - apply search_some in Hs as (_ & post' & _ & Hm & _).
    apply match_here_sound in Hm as (_ & _ & Hm). by apply Hr in Hm as (Hne & _).
  - intros j Hj. rewrite <- Hc. intros Ho.
    pose proof (search_first_occurrence r content mt pre post Hs Hc Hl j Hj) as F.
    unfold occurs_at in Ho. change (group mt 0) with (group0 mt) in Ho. congruence.
Qed.

(** X5.  Where a list step puts its item.  In the match that [re.search]
    returns for a list anchor, the third group is white space followed by
    the closing text, and that closing text is the first one after the first
    group; the second group does not end with white space, and for the
    anchors of steps 4, 5 and 9 it does not begin with white space.  The
    step puts its item between the second and the third group: right after
    the last character of the last item, in front of the white space and
    the closing text that follow it. *)
Theorem list_item_position (anchor : regex) (content : str) (m : rmatch) :
  In anchor list_anchors -> search anchor content = Some m ->
  exists ws close pre post,
    group m 3 = ws ++ close /\ forallb is_space ws = true /\
    (close = lit ");" \/ close = lit "};") /\
    (forall j, occurs_at close (group m 2 ++ group m 3) j ->
       j = length (group m 2) + length ws) /\
    (forall a, last (group m 2) = Some a -> is_space a = false) /\
    (anchor <> target_attrs_re ->
     forall a, head (group m 2) = Some a -> is_space a = false) /\
    content = pre ++ group m 1 ++ group m 2 ++ ws ++ close ++ post /\
    forall item,
      append_to_list anchor item content =
        pre ++ group m 1 ++ group m 2 ++ item ++ ws ++ close ++
        replace (group m 0) (group m 1 ++ (group m 2 ++ item) ++ group m 3) post.
Proof.
  intros Hin Hs.
  pose proof (list_anchors_three _ Hin) as H3.
  pose proof (search_groups _ _ _ H3 Hs) as Hg.
  destruct (search_some _ _ _ Hs) as (pre & post & Hc & Hm & Hl).
  assert (Hfacts : exists ws close,
    group m 3 = ws ++ close /\ forallb is_space ws = true /\
    (close = lit ");" \/ close = lit "};") /\
    (forall j, occurs_at close (group m 2 ++ group m 3) j ->
       j = length (group m 2) + length ws) /\
    (forall a, last (group m 2) = Some a -> is_space a = false) /\
    (anchor <> target_attrs_re ->
     forall a, head (group m 2) = Some a -> is_space a = false)).
  { clear Hc Hl Hs Hg H3. destruct Hin as [<-|[<-|[<-|[<-|[]]]]].
    - pose proof Hm as Hm'.
      apply (position_facts _ ")"%char [";"%char]) in Hm as (ws & E3 & Hws & Hj & Hlast);
        [|apply list_re_one|done].
      exists ws, (lit ");"). split_and!; [done|done|by left|done|done|].
      intros _. eapply head_fact; [apply list_re_one| |exact Hm']. repeat constructor.
    - pose proof Hm as Hm'.
      apply (position_facts _ ")"%char [";"%char]) in Hm as (ws & E3 & Hws & Hj & Hlast);
        [|apply list_re_one|done].
      exists ws, (lit ");"). split_and!; [done|done|by left|done|done|].
      intros _. eapply head_fact; [apply list_re_one| |exact Hm']. repeat constructor.
    - pose proof Hm as Hm'.
      apply (position_facts _ ")"%char [";"%char]) in Hm as (ws & E3 & Hws & Hj & Hlast);
        [|apply targets_one|done].
      exists ws, (lit ");"). split_and!; [done|done|by left|done|done|].
      intros _. eapply head_fact; [apply targets_one| |exact Hm']. repeat constructor.
    - apply (position_facts _ "}"%char [";"%char]) in Hm as (ws & E3 & Hws & Hj & Hlast);
        [|apply target_attrs_one|done].
      exists ws, (lit "};"). split_and!; [done|done|by right|done|done|done]. }
  destruct Hfacts as (ws & close & E3 & Hws & Hcl & Hj & Hlast & Hhead).
  exists ws, close, pre, post. split_and!; [done..| |].
  - rewrite Hc. change (group0 m) with (group m 0). rewrite Hg, E3.
    by rewrite <- !app_assoc.
  - intros item. rewrite (append_to_list_at anchor item content m pre post H3 Hs Hc Hl).
    rewrite E3 at 1. by rewrite <- !app_assoc.
Qed.

(** X5 at the list of targets and the text with two such lists. *)
Lemma list_item_position_witness :
  exists m, search targets_re two_target_lists = Some m /\
  exists ws close pre post,
    group m 3 = ws ++ close /\ forallb is_space ws = true /\
    (close = lit ");" \/ close = lit "};") /\
    (forall j, occurs_at close (group m 2 ++ group m 3) j ->
       j = length (group m 2) + length ws) /\
    (forall a, last (group m 2) = Some a -> is_space a = false) /\
    (targets_re <> target_attrs_re ->
     forall a, head (group m 2) = Some a -> is_space a = false) /\
    two_target_lists = pre ++ group m 1 ++ group m 2 ++ ws ++ close ++ post /\
    forall item,
      append_to_list targets_re item two_target_lists =
        pre ++ group m 1 ++ group m 2 ++ item ++ ws ++ close ++
        replace (group m 0) (group m 1 ++ (group m 2 ++ item) ++ group m 3) post.
Proof.
  eexists. split; [vm_compute; reflexivity|].
  apply (list_item_position targets_re two_target_lists); [simpl; auto|].
  vm_compute; reflexivity.
Defined.

(** ** The fixed digits of a key *)

Lemma hex_fixed_nth n m v d :
  nth n (hex_fixed (S n + m) v) d = hex_digit ((v / 16 ^ N.of_nat m) mod 16)%N.
Proof.
  rewrite hex_fixed_app. cbn [hex_fixed].
  rewrite <- app_assoc. rewrite app_nth2; rewrite hex_fixed_length; [|lia].
  by rewrite Nat.sub_diag.
Qed.

Lemma small_cases (i : N) : (i < 4)%N -> i = 0%N \/ i = 1%N \/ i = 2%N \/ i = 3%N.
Proof. lia. Qed.

(** Bits 76 to 79 of the identifier are the version, 4. *)
Lemma version_nibble r : ((uuid4 r / 2 ^ 76) mod 16 = 4)%N.
Proof.
  apply N.bits_inj. intros i. change 16%N with (2 ^ 4)%N.
  destruct (N.lt_ge_cases i 4) as [Hi|Hi].
  - rewrite N.mod_pow2_bits_low, N.div_pow2_bits by done.
    unfold uuid4. cbv zeta.
    rewrite N.lor_spec, N.ldiff_spec, !N.shiftl_spec_high' by lia.
    destruct (small_cases i Hi) as [->|[->|[->| ->]]]; cbn;
      by rewrite ?andb_false_r.
  - rewrite N.mod_pow2_bits_high by done. symmetry.
    apply N.bits_above_log2. change (N.log2 4) with 2%N. lia.
Qed.

(** Bits 62 and 63 are the variant, binary 10. *)
Lemma variant_nibble r :
  exists d, (d < 4)%N /\ ((uuid4 r / 2 ^ 60) mod 16 = 8 + d)%N.
Proof.
  set (n := ((uuid4 r / 2 ^ 60) mod 16)%N).
  assert (Hb : forall i, (i < 4)%N ->
    N.testbit n i = N.testbit (uuid4 r) (i + 60)).
  { intros i Hi. unfold n. change 16%N with (2 ^ 4)%N.
    by rewrite N.mod_pow2_bits_low, N.div_pow2_bits. }
  assert (H3 : N.testbit n 3 = true).
  { rewrite Hb by lia. unfold uuid4. cbv zeta.
    rewrite N.lor_spec, N.ldiff_spec, N.lor_spec.
    rewrite (N.shiftl_spec_low 4) by lia.
    rewrite (N.shiftl_spec_low 0xf000) by lia.
    rewrite (N.shiftl_spec_high' 0x8000) by lia.
    cbn. by rewrite orb_true_r. }
  assert (H2 : N.testbit n 2 = false).
  { rewrite Hb by lia. unfold uuid4. cbv zeta.
    rewrite N.lor_spec, N.ldiff_spec, N.lor_spec, N.ldiff_spec.
    rewrite (N.shiftl_spec_low 4) by lia.
    rewrite (N.shiftl_spec_low 0xf000) by lia.
    rewrite (N.shiftl_spec_high' 0x8000) by lia.
    rewrite (N.shiftl_spec_high' 0xc000) by lia.
    cbn. by rewrite andb_false_r. }
  assert (Hn : (n < 16)%N) by (by apply N.mod_lt).
  exists (n - 8)%N.
  assert (exists j, j < 16 /\ n = N.of_nat j) as (j & Hj & E)
    by (exists (N.to_nat n); lia).
  rewrite E in H2, H3 |- *. clear -Hj H2 H3.
  do 16 (destruct j as [|j]; [vm_compute in H2, H3; try done; split; lia|]). lia.
Qed.

Lemma key_of_nth r n m :
  S n + m = 24 ->
  nth n (key_of r) "0"%char =
    upper_char (hex_digit ((uuid4 r / 2 ^ (32 + 4 * N.of_nat m)) mod 16)%N).
Proof.
  intros E. rewrite key_of_digits. unfold upper.
  change "0"%char with (upper_char "0"%char) at 1. rewrite map_nth.
  rewrite <- E, hex_fixed_nth. do 3 f_equal.
  rewrite N.Div0.div_div, N.pow_add_r. do 2 f_equal.
  rewrite N.pow_mul_r. done.
Qed.

(** The two bits below the variant are those of the random bytes. *)
Lemma variant_digit r :
  ((uuid4 r / 2 ^ 60) mod 16 = 8 + (r / 2 ^ 60) mod 4)%N.
Proof.
  destruct (variant_nibble r) as (d & Hd & E). rewrite E. f_equal.
  assert (Hm : ((uuid4 r / 2 ^ 60) mod 4 = d)%N).
  { pose proof (N.Div0.mod_mul_r (uuid4 r / 2 ^ 60) 4 4) as H.
    change (4 * 4)%N with 16%N in H. rewrite E in H.
    pose proof (N.mod_lt (uuid4 r / 2 ^ 60) 4 ltac:(done)) as Ha.
    pose proof (N.mod_lt (uuid4 r / 2 ^ 60 / 4) 4 ltac:(done)) as Hb.
    revert H Ha Hb.
    generalize ((uuid4 r / 2 ^ 60) mod 4)%N, ((uuid4 r / 2 ^ 60 / 4) mod 4)%N.
    intros a b. lia. }
  rewrite <- Hm. apply N.bits_inj. intros i. change 4%N with (2 ^ 2)%N.
  destruct (N.lt_ge_cases i 2) as [Hi|Hi].
  - rewrite !N.mod_pow2_bits_low, !N.div_pow2_bits by done.
    unfold uuid4. cbv zeta.
    rewrite N.lor_spec, N.ldiff_spec, N.lor_spec, N.ldiff_spec.
    rewrite (N.shiftl_spec_low 4) by lia.
    rewrite (N.shiftl_spec_low 0xf000) by lia.
    rewrite (N.shiftl_spec_high' 0x8000) by lia.
    rewrite (N.shiftl_spec_high' 0xc000) by lia.
    change (2 ^ 128)%N with (2 ^ 128)%N.
    rewrite N.mod_pow2_bits_low by lia.
    assert (i = 0 \/ i = 1)%N as [->| ->] by lia; cbn;
      by rewrite ?orb_false_r, ?andb_true_r.
  - by rewrite !N.mod_pow2_bits_high.
Qed.

(** X6.  The fixed digits of a key.  In every key that [generate_uuid]
    returns, in either script, the thirteenth character is the version
    digit 4, whatever was read from the random source, and the seventeenth
    is one of 8, 9, A and B: the variant, followed by two bits of what was
    read. *)
Theorem key_version_and_variant (urandom16 : nat -> N) (w : world) :
  exists key,
    fst (AddTestTargetComplete.generate_uuid urandom16 w) = Ret key /\
    fst (AddTestTarget.generate_uuid urandom16 w) = Ret key /\
    nth 12 key "0"%char = "4"%char /\
    In (nth 16 key "0"%char) ["8"; "9"; "A"; "B"]%char /\
    nth 16 key "0"%char =
      nth (N.to_nat ((urandom16 (draws w) / 2 ^ 60) mod 4))
        ["8"; "9"; "A"; "B"]%char "8"%char.
Proof.
  exists (key_of (urandom16 (draws w))).
  assert (H16 : nth 16 (key_of (urandom16 (draws w))) "0"%char =
                nth (N.to_nat ((urandom16 (draws w) / 2 ^ 60) mod 4))
                  ["8"; "9"; "A"; "B"]%char "8"%char).
  { rewrite (key_of_nth _ 16 7) by done.
    change (2 ^ (32 + 4 * N.of_nat 7))%N with (2 ^ 60)%N.
    rewrite variant_digit.
    assert (Hd : ((urandom16 (draws w) / 2 ^ 60) mod 4 < 4)%N) by (by apply N.mod_lt).
    destruct (small_cases _ Hd) as [->|[->|[->| ->]]]; vm_compute; reflexivity. }
  split_and!.
  - reflexivity.
  - rewrite <- key_of_str_eq.
    unfold AddTestTarget.generate_uuid, mbind, script_bind, uuid4_call, mret,
      script_ret, key_of_str.
    reflexivity.
  - rewrite (key_of_nth _ 12 11) by done.
    change (2 ^ (32 + 4 * N.of_nat 11))%N with (2 ^ 76)%N.
    by rewrite version_nibble.
  - rewrite H16.
    assert (Hd : ((urandom16 (draws w) / 2 ^ 60) mod 4 < 4)%N) by (by apply N.mod_lt).
    destruct (small_cases _ Hd) as [->|[->|[->| ->]]]; vm_compute; tauto.
  - exact H16.
Qed.

(** ** The main target, as the first script looks for it *)

Lemma search_target_none content :
  (forall j, ~ keyed (drop j content)) ->
  search AddTestTarget.target_re content = None.
Proof.
  intros H. destruct (search _ content) as [mt|] eqn:E; [|done].
  apply search_some in E as (pre & post & -> & Hm & _).
  exfalso. apply (H (length pre)). rewrite drop_app_length.
  apply match_here_keyed. eauto.
Qed.

Lemma search_target_first content pre key t :
  content = pre ++ key ++ lit " /* DevCam */" ++ t -> good_key key ->
  (forall j, j < length pre -> ~ keyed (drop j content)) ->
  exists mt, search AddTestTarget.target_re content = Some mt /\ group mt 1 = key.
Proof.
  intros Hc Hk Hfirst.
  assert (Hs : is_Some (search AddTestTarget.target_re content)).
  { rewrite Hc. apply search_is_some, match_here_keyed. by exists key, t. }
  destruct Hs as [mt Hs]. exists mt. split; [done|].
  destruct (search_some _ _ _ Hs) as (pre' & post' & Hc' & Hm & Hnone).
  assert (Hlen : length pre' = length pre).
  { destruct (Nat.lt_trichotomy (length pre') (length pre)) as [Hl|[Hl|Hl]]; [|done|].
    - exfalso. apply (Hfirst _ Hl). rewrite Hc', drop_app_length.
      apply match_here_keyed. eauto.
    - exfalso. specialize (Hnone _ Hl). rewrite Hc, drop_app_length in Hnone.
      assert (is_Some (match_here AddTestTarget.target_re
                         (key ++ lit " /* DevCam */" ++ t))) as [? ?]
        by (apply match_here_keyed; by exists key, t).
      congruence. }
  apply match_here_sound in Hm as (_ & _ & (key' & Hk' & E0 & Eg)%target_re_shape).
  unfold group. rewrite Eg. cbn [nth].
  rewrite Hc' in Hc. rewrite E0 in Hc.
  apply (f_equal (drop (length pre'))) in Hc.
  rewrite drop_app_length in Hc. rewrite Hlen, drop_app_length in Hc.
  rewrite <- app_assoc in Hc. apply (f_equal (take 24)) in Hc.
  destruct Hk as [Hl _], Hk' as [Hl' _].
  rewrite !take_app_length' in Hc by done. done.
Qed.

(** X7.  The three ways in which the first script ends on a file without
    DevCamTests.  When no 24 upper-case hexadecimal digits followed by
    [ /* DevCam */] occur in the file, it prints that it could not find the
    main target and exits with status 1.  Otherwise it takes the key at the
    first such place: when that key followed by [ /* DevCam */,] occurs
    somewhere in the file it prints the manual-configuration message and
    ends normally, and when not it prints that it could not find the
    insertion point and exits with status 1, whatever other keys the file
    has. *)
Theorem first_script_outcome (urandom16 : nat -> N) (w : world) (content : str) :
  files w !! AddTestTarget.pbxproj_path = Some (Text content) ->
  contains (lit "DevCamTests") content = false ->
  let r := AddTestTarget.main urandom16 w in
  ((forall j, ~ keyed (drop j content)) ->
   fst r = Exit 1 /\
   last (stdout (snd r)) = Some "Could not find main target"%string) /\
  (forall pre key t,
     content = pre ++ key ++ lit " /* DevCam */" ++ t -> good_key key ->
     (forall j, j < length pre -> ~ keyed (drop j content)) ->
     if contains (key ++ lit " /* DevCam */,") content
     then fst r = Ret tt /\
          last (stdout (snd r)) =
            Some "Manual configuration required. Please use Xcode GUI to add test target."%string
     else fst r = Exit 1 /\
          last (stdout (snd r)) = Some "Could not find insertion point"%string).
Proof.
  intros Hf Hc r. subst r. rewrite (main1_absent _ _ _ Hf Hc). cbv zeta. split.
  - intros H. rewrite search_target_none by done. simpl. by rewrite last_two.
  - intros pre key t E Hk Hfirst.
    destruct (search_target_first content pre key t E Hk Hfirst) as (mt & -> & ->).
    destruct (contains (key ++ lit " /* DevCam */,") content) eqn:Hi.
    + destruct (find _ content =? -1)%Z eqn:Ef; [|simpl; by rewrite last_two].
      apply Z.eqb_eq, find_from_none in Ef; [congruence|lia].
    + destruct (find _ content =? -1)%Z eqn:Ef; [simpl; by rewrite last_two|].
      apply Z.eqb_neq in Ef. exfalso. apply Ef. by apply find_from_none.
Qed.

(** X7 at a file that names the main target once, in a list. *)
Lemma first_script_outcome_witness :
  let r := AddTestTarget.main counting (world_of listed_target_doc) in
  fst r = Ret tt /\
  last (stdout (snd r)) =
    Some "Manual configuration required. Please use Xcode GUI to add test target."%string.
Proof.
  destruct (first_script_outcome counting (world_of listed_target_doc)
              listed_target_doc) as [_ H]; [vm_compute; reflexivity..|].
  apply (H (ln 3 (lit "targets = (") ++ repeat tab 4)
           (lit "D76E4B1D2F2331380090999D")
           ("," :: nl :: ln 3 (lit ");"))%char).
  - vm_compute; reflexivity.
  - split; vm_compute; reflexivity.
  - intros j Hj Hk%match_here_keyed.
    do 19 (destruct j as [|j]; [vm_compute in Hk; by destruct Hk|]).
    vm_compute in Hj. lia.
Defined.

(** ** A section is created once *)

Lemma create_section_idem begin block block' before content :
  before <> [] -> contains begin block = true ->
  create_section begin block' before (create_section begin block before content) =
  create_section begin block before content.
Proof.
  intros Hb Hblock. unfold create_section at 2 3.
  destruct (contains begin content) eqn:E; cbn [negb].
  - unfold create_section. by rewrite E.
  - destruct (contains before content) eqn:Eb.
    + apply first_occurrence in Eb as (pre & post & -> & Hj).
      rewrite replace_first by done. unfold create_section.
      assert (contains begin
                (pre ++ (block ++ before) ++ replace before (block ++ before) post) = true)
        as -> by (by apply contains_app_r, contains_app_l, contains_app_l).
      done.
    + rewrite replace_absent by done. unfold create_section. rewrite E. cbn [negb].
      by apply replace_absent.
Qed.

(** X8.  Steps 7 and 8 are idempotent: applied to its own result, with the
    same keys or with others, each of them changes nothing, since the block
    it inserts begins with the marker whose absence it tests. *)
Theorem section_steps_idempotent (k k' : keys) (content : str) :
  step7 k' (step7 k content) = step7 k content /\
  step8 k' (step8 k content) = step8 k content.
Proof.
  unfold step7, step8.
  split; (apply create_section_idem;
            [done|unfold container_proxy, target_dependency, ln; find_text]).
Qed.

(** ** What the runs leave alone *)

(** X9.  The first script makes no use of the seven keys it generates: its
    outcome, the files it leaves and the lines it prints are the same for
    every random source. *)
Theorem first_script_ignores_keys (urandom16 urandom16' : nat -> N) (w : world) :
  AddTestTarget.main urandom16 w = AddTestTarget.main urandom16' w.
Proof.
  destruct (files w !! AddTestTarget.pbxproj_path) as [[content|bytes]|] eqn:Hf.
  - destruct (contains (lit "DevCamTests") content) eqn:Hc.
    + by rewrite !(main1_present _ _ _ Hf Hc).
    + by rewrite !(main1_absent _ _ _ Hf Hc).
  - by rewrite !(main1_binary _ _ _ Hf).
  - by rewrite !(main1_missing _ _ Hf).
Qed.

(** X10.  The second script reads and writes the project file only: every
    other path of the file system is as it was, so no backup copy is made.
    When the project file does not exist the run ends with
    [FileNotFoundError], and when its bytes do not decode with
    [UnicodeDecodeError]; both leave the file system, the output and the
    random source as they were.  In all cases at most one line is printed. *)
Theorem second_script_one_file (urandom16 : nat -> N) (w : world) :
  let r := main urandom16 w in
  (forall p, p <> project_path -> files (snd r) !! p = files w !! p) /\
  (files w !! project_path = None -> r = (Raise FileNotFoundError, w)) /\
  (forall bytes, files w !! project_path = Some (Binary bytes) ->
     r = (Raise UnicodeDecodeError, w)) /\
  (exists line, stdout (snd r) = stdout w \/ stdout (snd r) = stdout w ++ [line]).
Proof.
  intros r. subst r.
  destruct (files w !! project_path) as [[content|bytes]|] eqn:Hf.
  - destruct (contains (lit "DevCamTests") content) eqn:Hc.
    + rewrite (main2_present _ _ _ Hf Hc). cbn [snd after files stdout].
      split_and!; [done|done|done|eauto].
    + rewrite (main2_absent _ _ _ Hf Hc). cbn [snd after files stdout].
      split_and!; [|done|done|eauto].
      intros p Hp. by rewrite lookup_insert_ne.
  - rewrite (main2_binary _ _ _ Hf). cbn [snd].
    split_and!; [done|done|done|]. exists ""%string. by left.
  - rewrite (main2_missing _ _ Hf). cbn [snd].
    split_and!; [done|done|done|]. exists ""%string. by left.
Qed.

(** ** No step undoes another *)

Lemma sublist_same_length {A} (l1 l2 : list A) :
  sublist l1 l2 -> length l2 <= length l1 -> l1 = l2.
Proof.
  induction 1 as [|x l1 l2 _ IH|x l1 l2 Hs _]; simpl; intros Hl.
  - done.
  - f_equal. apply IH. lia.
  - apply sublist_length in Hs. lia.
Qed.

Lemma step_sublist k i content :
  sublist content (nth i (steps k) (fun c => c) content).
Proof.
  unfold steps.
  do 14 (destruct i as [|i]; [cbn [nth];
    first [ apply insert_entry_sublist | apply create_section_sublist
          | apply append_to_list_sublist;
            first [apply products_re_three | apply main_group_re_three
                  | apply targets_re_three | apply target_attrs_re_three] ]|]).
  by destruct i.
Qed.

Lemma fold_steps_sublist (l : list (str -> str)) content :
  Forall (fun f => forall c, sublist c (f c)) l ->
  sublist content (fold_left (fun c step => step c) l content).
Proof.
  intros Hl. revert content. induction Hl as [|f l Hf _ IH]; intros content; [done|].
  simpl. etrans; [apply Hf|apply IH].
Qed.

Lemma steps_sublist k : Forall (fun f => forall c, sublist c (f c)) (steps k).
Proof.
  apply Forall_forall. intros f Hf c.
  apply list_elem_of_In, (In_nth _ _ (fun c => c)) in Hf as (i & _ & <-).
  apply step_sublist.
Qed.

Lemma fold_fixed (l : list (str -> str)) content :
  Forall (fun f => forall c, sublist c (f c)) l ->
  fold_left (fun c step => step c) l content = content <->
  Forall (fun f => f content = content) l.
Proof.
  intros Hl. revert content. induction Hl as [|f l Hf Hl IH]; intros content; simpl.
  - split; [by constructor|done].
  - split.
    + intros H.
      assert (E : f content = content).
      { symmetry. apply sublist_same_length; [apply Hf|].
        pose proof (fold_steps_sublist l (f content) Hl) as Hs.
        apply sublist_length in Hs. rewrite H in Hs. done. }
      constructor; [done|]. apply IH. by rewrite E in H.
    + intros H. inversion H as [|? ? E Hrest]; subst. rewrite E. by apply IH.
Qed.

(** X11.  The fourteen steps leave a content as it is exactly when each of
    them, applied to that content, leaves it as it is: no step undoes what
    another did, since each step only inserts. *)
Theorem patch_fixed_iff (k : keys) (content : str) :
  patch k content = content <->
  forall i, 1 <= i <= 14 -> nth (i - 1) (steps k) (fun c => c) content = content.
Proof.
  unfold patch. rewrite fold_fixed by apply steps_sublist.
  rewrite Forall_forall. split.
  - intros H i Hi. apply H, list_elem_of_In, nth_In. simpl. lia.
  - intros H f Hf. apply list_elem_of_In, (In_nth _ _ (fun c => c)) in Hf as (i & Hi & <-).
    specialize (H (S i)). simpl in H, Hi. rewrite Nat.sub_0_r in H. apply H. lia.
Qed.

(** X12.  The backup copy of the first script.  The run writes the backup
    copy, which holds the project file as it is stored, carriage returns
    included, exactly when the project file exists, decodes and has no
    DevCamTests: also when the run then fails to find the main target or
    the insertion point, and over any backup copy made before.  In the
    other cases the file system is as it was. *)
Theorem backup_made_iff (urandom16 : nat -> N) (w : world) :
  files (snd (AddTestTarget.main urandom16 w)) =
    match files w !! AddTestTarget.pbxproj_path with
    | Some (Text content) =>
        if contains (lit "DevCamTests") content then files w
        else <[backup_path := Text content]> (files w)
    | Some (Binary _) => files w
    | None => files w
    end.
Proof.
  destruct (files w !! AddTestTarget.pbxproj_path) as [[content|bytes]|] eqn:Hf.
  - destruct (contains (lit "DevCamTests") content) eqn:Hc.
    + by rewrite (main1_present _ _ _ Hf Hc).
    + rewrite (main1_absent _ _ _ Hf Hc). cbv zeta.
      destruct (search _ _) as [m|]; [destruct (_ =? _)%Z|]; done.
  - by rewrite (main1_binary _ _ _ Hf).
  - by rewrite (main1_missing _ _ Hf).
Qed.
